(** * Cellular automata and their Intention-Space variants

    A shallow embedding of the three implementations found in the
    repository:

    - the flat script ([runCA], [runISVariant]), module [Flat];
    - the ledger-based CPUX script ([runCPUX_CA], [runCPUX_ISVariant]),
      module [Cpux];
    - the class-based CPUX script ([Pulse], [Intention], [Field],
      [ObjectField], [DN_rule], [DN_cpi], [DN_inject], [DN_reflect]),
      module [Classy].

    JavaScript numbers that the programs use as integers are modelled by [Z],
    arrays by lists, [Map]s keyed by strings by [gmap string], and the
    global random generator by an explicit stream of draws with a cursor.
    A JavaScript string is modelled by the [string] of the bytes of its
    UTF-8 encoding. *)

From Stdlib Require Import ZArith QArith Lia.
From stdpp Require Import base list strings pretty gmap sorting.

Local Open Scope Z_scope.

(** ** JavaScript integer operators

    The bit operators of JavaScript first convert their operands to 32-bit
    integers; the shift count is taken modulo 32. *)

Definition toInt32 (z : Z) : Z := (z + 2 ^ 31) mod 2 ^ 32 - 2 ^ 31.
Definition toUint32 (z : Z) : Z := z mod 2 ^ 32.

Definition js_shl (a b : Z) : Z :=
  toInt32 (Z.shiftl (toInt32 a) (Z.land (toUint32 b) 31)).
Definition js_sar (a b : Z) : Z :=
  Z.shiftr (toInt32 a) (Z.land (toUint32 b) 31).
Definition js_bor (a b : Z) : Z := Z.lor (toInt32 a) (toInt32 b).
Definition js_band (a b : Z) : Z := Z.land (toInt32 a) (toInt32 b).

(** Truthiness of a number: everything but zero. *)
Definition truthy (z : Z) : bool := negb (z =? 0).

(** [`${n}`] for an integer [n]: its decimal notation. *)
Definition num_to_string (z : Z) : string := pretty z.

(** ** The rule table

    [ruleFn] is written three times in the repository, each time as
    [(ruleNumber >> ((l << 2) | (c << 1) | r)) & 1]. *)

Definition ruleFn (ruleNumber : Z) (l c r : Z) : Z :=
  let idx := js_bor (js_bor (js_shl l 2) (js_shl c 1)) r in
  js_band (js_sar ruleNumber idx) 1.

(** A cell value. *)
Definition is_bit (z : Z) : Prop := z = 0 \/ z = 1.

(** ** Arrays

    An array of numbers is a list. A read outside the array gives
    [undefined] in JavaScript, which is falsy and which the bit operators
    convert to 0; the model reads 0 there. (The programs print a cell into a
    pattern string only at indices inside the row.) A write at or beyond the
    end extends the array; the only such write in these programs is at the
    index equal to the length, where no hole appears. *)

Definition arr_get (a : list Z) (i : nat) : Z := default 0 (a !! i).

Definition arr_set (a : list Z) (i : nat) (x : Z) : list Z :=
  if decide (i < length a)%nat then <[i:=x]> a
  else a ++ replicate (i - length a) 0 ++ [x].

(** [for (let i = 0; i < n; i++) body], as a fold over the indices. *)
Definition for_range {S : Type} (n : nat) (body : S -> nat -> S) (s : S) : S :=
  foldl body s (seq 0 n).

(** Circular neighbours: [(i - 1 + size) % size] and [(i + 1) % size];
    [%] is the remainder that takes the sign of the dividend. *)
Definition left_of (i size : nat) : nat :=
  Z.to_nat (Z.rem (Z.of_nat i - 1 + Z.of_nat size) (Z.of_nat size)).
Definition right_of (i size : nat) : nat :=
  Z.to_nat (Z.rem (Z.of_nat i + 1) (Z.of_nat size)).

(** [const dir = (i % 2 === 0) ? 1 : -1; (i + dir + size) % size] *)
Definition reflect_dir (i : nat) : Z :=
  if Z.rem (Z.of_nat i) 2 =? 0 then 1 else -1.
Definition reflect_target (i size : nat) : nat :=
  Z.to_nat (Z.rem (Z.of_nat i + reflect_dir i + Z.of_nat size) (Z.of_nat size)).

(** [`${l}${c}${r}`] *)
Definition nb_string (l c r : Z) : string :=
  num_to_string l +:+ num_to_string c +:+ num_to_string r.

(** ** Random draws

    [Math.random] (or the [rng] handed to the CPUX variants) is a stream of
    draws; the state of the generator is the number of draws made so far. A
    draw and a probability are compared as the rationals they denote. *)

Definition Qltb (x y : Q) : bool := negb (Qle_bool y x).

(** The double written [0.1]. *)
Definition js_0_1 : Q := 3602879701896397 # 36028797018963968.

(** [x < p ? 1 : 0] *)
Definition draw_bit (x p : Q) : Z := if Qltb x p then 1 else 0.

(** ** Text output

    The three scripts write a grid as a plain PGM image: a cell that is set
    becomes the sample 0, any other cell the sample 255, the samples of a row
    are joined by one space. *)

(** The line feed (the escape [\n] of the JavaScript strings). *)
Definition nl : string := String (Ascii.ascii_of_nat 10) EmptyString.

(** [Array.prototype.join] on strings. *)
Fixpoint join (sep : string) (l : list string) : string :=
  match l with
  | [] => EmptyString
  | [x] => x
  | x :: rest => x +:+ sep +:+ join sep rest
  end.

(** [v => (v ? 0 : 255)] *)
Definition pixel (v : Z) : Z := if truthy v then 0 else 255.

(** [row.map(v => (v ? 0 : 255)).join(" ")] *)
Definition pgm_row (row : list Z) : string :=
  join " " (num_to_string <$> (pixel <$> row)).

(** [`${w} ${h}`] *)
Definition pgm_dims (w h : nat) : string := pretty w +:+ " " +:+ pretty h.

(** ** The flat script *)

Module Flat.

(** The argument object of [runCA] and [runISVariant] (an entry of
    [PRESETS], without its [key] and [title]). *)
Record Preset := {
  rule : Z;
  init : string;
  steps : nat;
  size : nat;
  cpiPatterns : list string;
  injectProb : Q;
  reflectionHold : Z
}.

(** The state of phase A of a step: the two override arrays, the
    persistence counters and the cursor of [Math.random]. *)
Record PhaseA := {
  proposal : list Z;
  reflection : list Z;
  consecOnes : list Z;
  cursor : nat
}.

Section WithDraws.
Variable draws : nat -> Q.

(** [initRow]: every mode other than ["single"] takes the random
    branch. *)
Definition initRow (size : nat) (mode : string) (pos : nat) : list Z * nat :=
  let row := replicate size 0 in
  if String.eqb mode "single" then (arr_set row (size / 2)%nat 1, pos)
  else
    for_range size
      (fun '(row, pos) i => (arr_set row i (draw_bit (draws pos) js_0_1), S pos))
      (row, pos).

(** The body of the loop of [runCA]: the row after [prev]. *)
Definition ca_next (rule : Z) (size : nat) (prev : list Z) : list Z :=
  for_range size
    (fun next i =>
       let l := arr_get prev (left_of i size) in
       let c := arr_get prev i in
       let r := arr_get prev (right_of i size) in
       arr_set next i (ruleFn rule l c r))
    (replicate size 0).

Fixpoint ca_rows (rule : Z) (size : nat) (n : nat) (prev : list Z)
  : list (list Z) :=
  match n with
  | O => []
  | S n' => let next := ca_next rule size prev in
            next :: ca_rows rule size n' next
  end.

(** [runCA] once [grid[0]] is set. A grid asked with no step still gets
    its row 0. *)
Definition runCA_from (p : Preset) (row0 : list Z) : list (list Z) :=
  row0 :: ca_rows (rule p) (size p) (steps p - 1) row0.

Definition runCA (p : Preset) (pos : nat) : list (list Z) * nat :=
  let '(row0, pos') := initRow (size p) (init p) pos in
  (runCA_from p row0, pos').

Definition cpiPropose (l c r : Z) (cpiPatterns : list string) : Z :=
  if bool_decide (length cpiPatterns = 0%nat) then 0
  else
    let pat := nb_string l c r in
    if bool_decide (pat ∈ cpiPatterns) then 1 else 0.

(** One turn of the loop of phase A, at cell [i]. *)
Definition phaseA_cell (p : Preset) (prev : list Z) (st : PhaseA) (i : nat)
  : PhaseA :=
  let l := arr_get prev (left_of i (size p)) in
  let c := arr_get prev i in
  let r := arr_get prev (right_of i (size p)) in
  let proposal1 :=
    if truthy (cpiPropose l c r (cpiPatterns p))
    then arr_set (proposal st) i 1 else proposal st in
  let proposal2 :=
    if Qltb (draws (cursor st)) (injectProb p)
    then arr_set proposal1 i 1 else proposal1 in
  let count := if truthy c then arr_get (consecOnes st) i + 1 else 0 in
  let consecOnes' := arr_set (consecOnes st) i count in
  let reflection' :=
    if reflectionHold p <=? count
    then arr_set (reflection st) (reflect_target i (size p)) 1
    else reflection st in
  {| proposal := proposal2; reflection := reflection';
     consecOnes := consecOnes'; cursor := S (cursor st) |}.

Definition phaseA (p : Preset) (prev : list Z) (consec : list Z) (pos : nat)
  : PhaseA :=
  for_range (size p) (phaseA_cell p prev)
    {| proposal := replicate (size p) 0; reflection := replicate (size p) 0;
       consecOnes := consec; cursor := pos |}.

(** Phase B: the base rule unless a proposal or a reflection overrides
    it. *)
Definition phaseB (p : Preset) (prev proposal reflection : list Z) : list Z :=
  for_range (size p)
    (fun next i =>
       if truthy (arr_get proposal i) || truthy (arr_get reflection i)
       then arr_set next i 1
       else
         let l := arr_get prev (left_of i (size p)) in
         let c := arr_get prev i in
         let r := arr_get prev (right_of i (size p)) in
         arr_set next i (ruleFn (rule p) l c r))
    (replicate (size p) 0).

(** What a run of [runISVariant] leaves behind: the grid, and for every
    step the arrays of phase A. *)
Record Run := {
  grid : list (list Z);
  phases : list PhaseA
}.

Fixpoint is_rows (p : Preset) (n : nat) (prev consec : list Z) (pos : nat)
  : list (list Z) * list PhaseA :=
  match n with
  | O => ([], [])
  | S n' =>
      let a := phaseA p prev consec pos in
      let next := phaseB p prev (proposal a) (reflection a) in
      let '(rows, tr) := is_rows p n' next (consecOnes a) (cursor a) in
      (next :: rows, a :: tr)
  end.

Definition runISVariant_from (p : Preset) (row0 : list Z) (pos : nat) : Run :=
  let '(rows, tr) :=
    is_rows p (steps p - 1) row0 (replicate (size p) 0) pos in
  {| grid := row0 :: rows; phases := tr |}.

Definition runISVariant (p : Preset) (pos : nat) : Run :=
  let '(row0, pos') := initRow (size p) (init p) pos in
  runISVariant_from p row0 pos'.

End WithDraws.

(** [toPGM]. On a grid without row, [grid[0].length] throws a [TypeError]:
    the result is [None]. The width written is that of row 0. *)
Definition toPGM (grid : list (list Z)) : option string :=
  match grid with
  | [] => None
  | row0 :: _ =>
      let h := length grid in
      let w := length row0 in
      Some (foldl (fun out row => out +:+ (pgm_row row +:+ nl))
              ("P2" +:+ nl +:+ pgm_dims w h +:+ nl +:+ "255" +:+ nl) grid)
  end.

End Flat.

(** ** The ledger-based CPUX script *)

Module Cpux.

(** [makePulse]: a frozen record. Its [details] and [createdAt] fields are
    diagnostic, nothing reads them; they are left out. *)
Record Pulse := {
  passIndex : nat;
  targetIndex : nat;
  pulseKind : string;
  sourceDN : string
}.

(** [makeIntention]: carries one pulse. *)
Record Intention := {
  fromDN : string;
  toObject : string;
  pulse : Pulse
}.

(** The closure of [makeDesignNodes]. *)
Record DesignNodes := {
  patternSet : gset string;
  injectProb : Q;
  reflectionHold : Z
}.

(** The argument object of [runCPUX_CA] and [runCPUX_ISVariant]. *)
Record Config := {
  ruleNumber : Z;
  size : nat;
  steps : nat;
  initMode : string;
  cpiPatterns : list string;
  cfg_injectProb : Q;
  cfg_reflectionHold : Z
}.

(** [String.prototype.trim]. A string is held as its UTF-8 encoding, one
    [ascii] per byte. [trim] removes, from both ends, the white space and
    the line terminators of ECMAScript: U+0009 to U+000D, U+0020, U+00A0,
    U+1680, U+2000 to U+200A, U+2028, U+2029, U+202F, U+205F, U+3000 and
    U+FEFF. Those up to U+0020 take one byte, U+00A0 two, the others
    three. *)
Definition is_space (a : Ascii.ascii) : bool :=
  let n := Ascii.nat_of_ascii a in
  ((9 <=? n) && (n <=? 13) || (n =? 32))%nat.

(** U+00A0 is [C2 A0]. *)
Definition is_space2 (a b : Ascii.ascii) : bool :=
  ((Ascii.nat_of_ascii a =? 194) && (Ascii.nat_of_ascii b =? 160))%nat.

(** U+1680 is [E1 9A 80]; U+2000 to U+200A are [E2 80 80] to [E2 80 8A];
    U+2028, U+2029 and U+202F are [E2 80 A8], [E2 80 A9] and [E2 80 AF];
    U+205F is [E2 81 9F]; U+3000 is [E3 80 80]; U+FEFF is [EF BB BF]. *)
Definition is_space3 (a b c : Ascii.ascii) : bool :=
  let x := Ascii.nat_of_ascii a in
  let y := Ascii.nat_of_ascii b in
  let z := Ascii.nat_of_ascii c in
  ((x =? 225) && (y =? 154) && (z =? 128)
   || (x =? 226) && (y =? 128)
      && ((128 <=? z) && (z <=? 138) || (z =? 168) || (z =? 169) || (z =? 175))
   || (x =? 226) && (y =? 129) && (z =? 159)
   || (x =? 227) && (y =? 128) && (z =? 128)
   || (x =? 239) && (y =? 187) && (z =? 191))%nat.

Fixpoint trim_left (s : string) : string :=
  match s with
  | EmptyString => EmptyString
  | String a s1 =>
      if is_space a then trim_left s1
      else
        match s1 with
        | EmptyString => s
        | String b s2 =>
            if is_space2 a b then trim_left s2
            else
              match s2 with
              | EmptyString => s
              | String c s3 => if is_space3 a b c then trim_left s3 else s
              end
        end
  end.

(** The same from the end, on the reversed string, where the bytes of a
    code point come last byte first. *)
Fixpoint trim_left_rev (s : string) : string :=
  match s with
  | EmptyString => EmptyString
  | String c s1 =>
      if is_space c then trim_left_rev s1
      else
        match s1 with
        | EmptyString => s
        | String b s2 =>
            if is_space2 b c then trim_left_rev s2
            else
              match s2 with
              | EmptyString => s
              | String a s3 => if is_space3 a b c then trim_left_rev s3 else s
              end
        end
  end.

Definition trim (s : string) : string :=
  String.rev (trim_left_rev (String.rev (trim_left s))).

(** [new Set((cpiPatterns || []).map(s => s.trim()).filter(Boolean))] *)
Definition make_patternSet (cpiPatterns : list string) : gset string :=
  list_to_set (filter (fun s => s ≠ EmptyString) (trim <$> cpiPatterns)).

Definition makeDesignNodes (cpiPatterns : list string) (injectProb : Q)
    (reflectionHold : Z) : DesignNodes :=
  {| patternSet := make_patternSet cpiPatterns;
     injectProb := injectProb;
     reflectionHold := reflectionHold |}.

(** [neighborhood3]: the three cells and their pattern string. *)
Definition neighborhood3 (prev : list Z) (i : nat) : Z * Z * Z * string :=
  let n := length prev in
  let l := arr_get prev (left_of i n) in
  let c := arr_get prev i in
  let r := arr_get prev (right_of i n) in
  (l, c, r, nb_string l c r).

(** [gatekeeper.absorbIntentionsIntoLedger]: the new ledger and the
    emptied list of incoming intentions. *)
Definition absorbIntentionsIntoLedger (incoming : list Intention)
    (pulseLedger : list Pulse) : list Pulse * list Intention :=
  (foldl (fun ledger I => ledger ++ [pulse I]) pulseLedger incoming, []).

Definition buildOverrideMapForPass (pulseLedger : list Pulse)
    (pass : nat) (size : nat) : list Z :=
  foldl
    (fun override p =>
       if bool_decide (passIndex p ≠ pass) then override
       else arr_set override (targetIndex p) 1)
    (replicate size 0) pulseLedger.

(** [object.applyBaseRule] *)
Definition applyBaseRule (ruleNumber : Z) (prevSnapshot : list Z) : list Z :=
  let size := length prevSnapshot in
  for_range size
    (fun next i =>
       let '(l, c, r, _) := neighborhood3 prevSnapshot i in
       arr_set next i (ruleFn ruleNumber l c r))
    (replicate size 0).

(** [object.mergeOverride] *)
Definition mergeOverride (baselineNext override : list Z) : list Z :=
  for_range (length baselineNext)
    (fun next i => if truthy (arr_get override i) then arr_set next i 1 else next)
    baselineNext.

Section WithDraws.
Variable draws : nat -> Q.

Definition initRow (size : nat) (initMode : string) (pos : nat)
  : list Z * nat :=
  let row := replicate size 0 in
  if String.eqb initMode "single" then (arr_set row (size / 2)%nat 1, pos)
  else if String.eqb initMode "random" then
    for_range size
      (fun '(row, pos) i => (arr_set row i (draw_bit (draws pos) js_0_1), S pos))
      (row, pos)
  else (row, pos).

(** One turn of the loop of [DN_CPI.emitIntentions]: the pattern match
    proposes, the draw (always made) proposes a novelty and takes over the
    kind; at most one pulse is pushed. *)
Definition DN_CPI_cell (dn : DesignNodes) (pass : nat) (prevSnapshot : list Z)
    (objectId : string) (st : list Intention * nat) (i : nat)
  : list Intention * nat :=
  let '(incoming, pos) := st in
  let '(_, _, _, nb) := neighborhood3 prevSnapshot i in
  let kind0 : option string :=
    if bool_decide (0 < base.size (patternSet dn))%nat
       && bool_decide (nb ∈ patternSet dn)
    then Some "proposal" else None in
  let kind1 : option string :=
    if Qltb (draws pos) (injectProb dn) then Some "novelty" else kind0 in
  match kind1 with
  | Some kind =>
      let pulse := {| passIndex := pass; targetIndex := i;
                      pulseKind := kind; sourceDN := "DN_CPI" |} in
      (incoming ++ [{| fromDN := "DN_CPI"; toObject := objectId;
                       pulse := pulse |}], S pos)
  | None => (incoming, S pos)
  end.

Definition DN_CPI_emitIntentions (dn : DesignNodes) (pass : nat)
    (prevSnapshot : list Z) (objectId : string)
    (incoming : list Intention) (pos : nat) : list Intention * nat :=
  for_range (length prevSnapshot)
    (DN_CPI_cell dn pass prevSnapshot objectId) (incoming, pos).

End WithDraws.

(** One turn of the loop of [DN_REFLECT.emitIntentions]. *)
Definition DN_REFLECT_cell (dn : DesignNodes) (pass : nat)
    (prevSnapshot : list Z) (objectId : string)
    (st : list Z * list Intention) (i : nat) : list Z * list Intention :=
  let '(consecOnes, incoming) := st in
  let size := length prevSnapshot in
  let c := arr_get prevSnapshot i in
  let count := if truthy c then arr_get consecOnes i + 1 else 0 in
  let consecOnes' := arr_set consecOnes i count in
  if reflectionHold dn <=? count then
    let pulse := {| passIndex := pass; targetIndex := reflect_target i size;
                    pulseKind := "reflection"; sourceDN := "DN_REFLECT" |} in
    (consecOnes', incoming ++ [{| fromDN := "DN_REFLECT"; toObject := objectId;
                                  pulse := pulse |}])
  else (consecOnes', incoming).

(** [DN_REFLECT.emitIntentions]; the counters are [null] until the first
    call. *)
Definition DN_REFLECT_emitIntentions (dn : DesignNodes) (pass : nat)
    (prevSnapshot : list Z) (objectId : string)
    (consecOnes : option (list Z)) (incoming : list Intention)
  : list Z * list Intention :=
  let size := length prevSnapshot in
  let counters :=
    match consecOnes with
    | Some cs => cs
    | None => replicate size 0
    end in
  for_range size (DN_REFLECT_cell dn pass prevSnapshot objectId)
    (counters, incoming).

(** [runCPUX_CA] once [grid[0]] is set. *)
Fixpoint ca_rows (ruleNumber : Z) (n : nat) (prev : list Z) : list (list Z) :=
  match n with
  | O => []
  | S n' => let next := applyBaseRule ruleNumber prev in
            next :: ca_rows ruleNumber n' next
  end.

Definition runCPUX_CA_from (cfg : Config) (row0 : list Z) : list (list Z) :=
  row0 :: ca_rows (ruleNumber cfg) (steps cfg - 1) row0.

(** The state carried from one pass of [runCPUX_ISVariant] to the next. *)
Record Loop := {
  pulseLedger : list Pulse;
  consecOnes : option (list Z);
  cursor : nat
}.

Section WithDrawsRun.
Variable draws : nat -> Q.

Definition runCPUX_CA (cfg : Config) (pos : nat) : list (list Z) * nat :=
  let '(row0, pos') := initRow draws (size cfg) (initMode cfg) pos in
  (runCPUX_CA_from cfg row0, pos').

(** The body of the loop of [runCPUX_ISVariant], at pass [pass]. *)
Definition is_pass (cfg : Config) (dn : DesignNodes) (pass : nat)
    (prev : list Z) (st : Loop) : list Z * Loop :=
  let objectId := "O_IS" in
  let '(incoming1, pos1) :=
    DN_CPI_emitIntentions draws dn pass prev objectId [] (cursor st) in
  let '(counters, incoming2) :=
    DN_REFLECT_emitIntentions dn pass prev objectId (consecOnes st) incoming1 in
  let '(ledger, _) := absorbIntentionsIntoLedger incoming2 (pulseLedger st) in
  let baselineNext := applyBaseRule (ruleNumber cfg) prev in
  let override := buildOverrideMapForPass ledger pass (size cfg) in
  (mergeOverride baselineNext override,
   {| pulseLedger := ledger; consecOnes := Some counters; cursor := pos1 |}).

Fixpoint is_rows (cfg : Config) (dn : DesignNodes) (n : nat) (pass : nat)
    (prev : list Z) (st : Loop) : list (list Z) * Loop :=
  match n with
  | O => ([], st)
  | S n' =>
      let '(next, st') := is_pass cfg dn pass prev st in
      let '(rows, st'') := is_rows cfg dn n' (S pass) next st' in
      (next :: rows, st'')
  end.

(** [runCPUX_ISVariant] once [grid[0]] is set: the grid and the final
    loop state, whose ledger the function returns. *)
Definition runCPUX_ISVariant_from (cfg : Config) (row0 : list Z) (pos : nat)
  : list (list Z) * Loop :=
  let dn := makeDesignNodes (cpiPatterns cfg) (cfg_injectProb cfg)
              (cfg_reflectionHold cfg) in
  let '(rows, st) :=
    is_rows cfg dn (steps cfg - 1) 1 row0
      {| pulseLedger := []; consecOnes := None; cursor := pos |} in
  (row0 :: rows, st).

Definition runCPUX_ISVariant (cfg : Config) (pos : nat)
  : list (list Z) * Loop :=
  let '(row0, pos') := initRow draws (size cfg) (initMode cfg) pos in
  runCPUX_ISVariant_from cfg row0 pos'.

End WithDrawsRun.

(** [gridToPGM]: the lines are collected, then joined by line feeds; the
    text does not end with a line feed. [None] is the [TypeError] of
    [grid[0].length] on a grid without row. *)
Definition gridToPGM (grid : list (list Z)) : option string :=
  match grid with
  | [] => None
  | row0 :: _ =>
      let h := length grid in
      let w := length row0 in
      let lines :=
        foldl (fun lines row => lines ++ [pgm_row row])
          ["P2"; pgm_dims w h; "255"] grid in
      Some (join nl lines)
  end.

End Cpux.

(** ** The class-based CPUX script *)

Module Classy.

(** [class Pulse]. Its [response] is always [null] and its [meta] is
    diagnostic; nothing reads them, they are left out. *)
Record Pulse := {
  id : string;
  value : Z
}.

(** [class Intention], without its diagnostic [meta]. *)
Record Intention := {
  fromDN : string;
  toObject : string;
  kind : string;
  pulses : list Pulse
}.

(** [class Field]: the size and the map from pulse id to pulse. The one
    [Field] object of a run is shared by the design nodes and the
    [ObjectField]; the model hands its current state to each of them. *)
Record Field := {
  size : nat;
  current : gmap string Pulse
}.

(** [class ObjectField], without its reference to the shared [Field]. *)
Record ObjectField := {
  objectId : string;
  precedence : list string
}.

(** [`cell:${i}`] *)
Definition cell_id (i : nat) : string := "cell:" +:+ pretty i.

Definition new_Field (size : nat) : Field :=
  {| size := size; current := ∅ |}.

Definition setNextState (f : Field) (nextPulseMap : gmap string Pulse) : Field :=
  {| size := size f; current := nextPulseMap |}.

Definition readCell (f : Field) (i : nat) : Z :=
  match current f !! cell_id i with
  | Some p => value p
  | None => 0
  end.

Definition snapshotRow (f : Field) : list Z :=
  for_range (size f) (fun row i => arr_set row i (readCell f i))
    (replicate (size f) 0).

(** The first loop of [absorbIntentionsAndAdvance]: an empty bucket for
    every kind of the precedence list. *)
Definition init_byKind (precedence : list string)
  : gmap string (gmap string Pulse) :=
  foldl (fun byKind kind => <[kind := ∅]> byKind) ∅ precedence.

(** One turn of its second loop: the pulses of an intention go to the
    bucket of its kind, a later pulse replacing an earlier one with the same
    id; intentions for another object or of an unknown kind are skipped. *)
Definition bucket_intention (objectId : string)
    (byKind : gmap string (gmap string Pulse)) (it : Intention)
  : gmap string (gmap string Pulse) :=
  if bool_decide (toObject it ≠ objectId) then byKind
  else
    match byKind !! kind it with
    | None => byKind
    | Some m =>
        <[kind it := foldl (fun m p => <[id p := p]> m) m (pulses it)]> byKind
    end.

(** The inner loop over the precedence list: the pulse of the first kind
    whose bucket has the id. *)
Fixpoint choose (precedence : list string)
    (byKind : gmap string (gmap string Pulse)) (pid : string) : option Pulse :=
  match precedence with
  | [] => None
  | kind :: rest =>
      match byKind !! kind with
      | Some m =>
          match m !! pid with
          | Some p => Some p
          | None => choose rest byKind pid
          end
      | None => choose rest byKind pid
      end
  end.

Definition build_byKind (o : ObjectField) (intentions : list Intention)
  : gmap string (gmap string Pulse) :=
  foldl (bucket_intention (objectId o)) (init_byKind (precedence o)) intentions.

Definition absorbIntentionsAndAdvance (o : ObjectField) (f : Field)
    (intentions : list Intention) : Field :=
  let byKind := build_byKind o intentions in
  let nextPulseMap :=
    for_range (size f)
      (fun next i =>
         let pid := cell_id i in
         let chosen :=
           match choose (precedence o) byKind pid with
           | Some p => p
           | None => {| id := pid; value := 0 |}
           end in
         <[pid := chosen]> next)
      (∅ : gmap string Pulse) in
  setNextState f nextPulseMap.

(** [Gatekeeper.routeIntention] *)
Definition routeIntention (intention : Intention) : Intention := intention.

(** The design nodes: a closed set of four classes, each with the fields
    its constructor sets (the shared [Field] apart). *)
Inductive DN :=
| DN_rule (dnId objectId : string) (ruleNumber : Z)
| DN_cpi (dnId objectId : string) (cpiPatterns : gset string)
| DN_inject (dnId objectId : string) (injectProb : Q)
| DN_reflect (dnId objectId : string) (reflectionHold : Z) (consecOnes : list Z).

(** The constructors that compute a field. *)
Definition new_DN_cpi (dnId objectId : string) (cpiPatterns : list string) : DN :=
  DN_cpi dnId objectId (list_to_set cpiPatterns).
Definition new_DN_reflect (dnId objectId : string) (field : Field)
    (reflectionHold : Z) : DN :=
  DN_reflect dnId objectId reflectionHold (replicate (size field) 0).

(** An intention is returned only when it carries a pulse. *)
Definition intention_of (dnId objectId kind : string) (pulses : list Pulse)
  : list Intention :=
  if bool_decide (length pulses = 0%nat) then []
  else [{| fromDN := dnId; toObject := objectId; kind := kind;
           pulses := pulses |}].

Definition DN_rule_pulses (ruleNumber : Z) (field : Field) : list Pulse :=
  let size := size field in
  for_range size
    (fun pulses i =>
       let l := readCell field (left_of i size) in
       let c := readCell field i in
       let r := readCell field (right_of i size) in
       pulses ++ [{| id := cell_id i; value := ruleFn ruleNumber l c r |}])
    [].

Definition DN_cpi_pulses (cpiPatterns : gset string) (field : Field)
  : list Pulse :=
  let size := size field in
  for_range size
    (fun pulses i =>
       let l := readCell field (left_of i size) in
       let c := readCell field i in
       let r := readCell field (right_of i size) in
       let nb := nb_string l c r in
       if bool_decide (nb ∈ cpiPatterns)
       then pulses ++ [{| id := cell_id i; value := 1 |}]
       else pulses)
    [].

(** One turn of the loop of [DN_reflect.emitIntentions]. *)
Definition DN_reflect_cell (reflectionHold : Z) (field : Field)
    (st : list Z * list Pulse) (i : nat) : list Z * list Pulse :=
  let '(consecOnes, pulses) := st in
  let c := readCell field i in
  let count := if truthy c then arr_get consecOnes i + 1 else 0 in
  let consecOnes' := arr_set consecOnes i count in
  if reflectionHold <=? count then
    let target := reflect_target i (size field) in
    (consecOnes', pulses ++ [{| id := cell_id target; value := 1 |}])
  else (consecOnes', pulses).

Section WithDraws.
Variable draws : nat -> Q.

Definition DN_inject_pulses (injectProb : Q) (field : Field) (pos : nat)
  : list Pulse * nat :=
  for_range (size field)
    (fun '(pulses, pos) i =>
       if Qltb (draws pos) injectProb
       then (pulses ++ [{| id := cell_id i; value := 1 |}], S pos)
       else (pulses, S pos))
    ([], pos).

(** [emitIntentions] of the four classes: the intentions, the node with
    its own state updated, and the cursor of the random generator. *)
Definition emitIntentions (dn : DN) (passIndex : nat) (field : Field)
    (pos : nat) : list Intention * DN * nat :=
  match dn with
  | DN_rule dnId objectId ruleNumber =>
      ([{| fromDN := dnId; toObject := objectId; kind := "baseline";
           pulses := DN_rule_pulses ruleNumber field |}], dn, pos)
  | DN_cpi dnId objectId cpiPatterns =>
      (intention_of dnId objectId "proposal"
         (DN_cpi_pulses cpiPatterns field), dn, pos)
  | DN_inject dnId objectId injectProb =>
      if Qle_bool injectProb 0 then ([], dn, pos)
      else
        let '(pulses, pos') := DN_inject_pulses injectProb field pos in
        (intention_of dnId objectId "proposal" pulses, dn, pos')
  | DN_reflect dnId objectId reflectionHold consecOnes =>
      if 1000000000 <=? reflectionHold then ([], dn, pos)
      else
        let '(consecOnes', pulses) :=
          for_range (size field) (DN_reflect_cell reflectionHold field)
            (consecOnes, []) in
        (intention_of dnId objectId "reflection" pulses,
         DN_reflect dnId objectId reflectionHold consecOnes', pos)
  end.

(** The first loop of [Visitor.pass]: every node in order. *)
Fixpoint visit (dNodesInOrder : list DN) (passIndex : nat) (field : Field)
    (emitted : list Intention) (pos : nat)
  : list Intention * list DN * nat :=
  match dNodesInOrder with
  | [] => (emitted, [], pos)
  | dn :: rest =>
      let '(its, dn', pos') := emitIntentions dn passIndex field pos in
      let emitted' := foldl (fun e it => e ++ [routeIntention it]) emitted its in
      let '(emitted'', rest', pos'') := visit rest passIndex field emitted' pos' in
      (emitted'', dn' :: rest', pos'')
  end.

(** [Visitor.pass] *)
Definition pass (dNodesInOrder : list DN) (o : ObjectField) (passIndex : nat)
    (field : Field) (pos : nat) : Field * list DN * nat :=
  let '(emitted, dns, pos') := visit dNodesInOrder passIndex field [] pos in
  (absorbIntentionsAndAdvance o field emitted, dns, pos').

(** [initRow]: the pulse map of the seed row. *)
Definition initRow (size : nat) (initMode : string) (pos : nat)
  : gmap string Pulse * nat :=
  if String.eqb initMode "single" then
    let mid := (size / 2)%nat in
    (for_range size
       (fun (map : gmap string Pulse) i =>
          <[cell_id i := {| id := cell_id i;
                             value := if bool_decide (i = mid) then 1 else 0 |}]> map)
       ∅, pos)
  else if String.eqb initMode "random" then
    for_range size
      (fun '(map, pos) i =>
         (<[cell_id i := {| id := cell_id i;
                             value := draw_bit (draws pos) js_0_1 |}]> map, S pos))
      ((∅ : gmap string Pulse), pos)
  else
    (for_range size
       (fun (map : gmap string Pulse) i =>
          <[cell_id i := {| id := cell_id i; value := 0 |}]> map)
       ∅, pos).

(** The loop of [runCPUX] and of the two runs of [demo_rule33_pair]:
    [for (let t = 1; t < steps; t++) { visitor.pass({ passIndex: t });
    grid.push(field.snapshotRow()); }], here for [n] turns from pass [t]. *)
Fixpoint run_passes (dNodesInOrder : list DN) (o : ObjectField) (n t : nat)
    (field : Field) (pos : nat) : list (list Z) * Field * list DN * nat :=
  match n with
  | O => ([], field, dNodesInOrder, pos)
  | S n' =>
      let '(field', dns', pos') := pass dNodesInOrder o t field pos in
      let '(rows, field'', dns'', pos'') :=
        run_passes dns' o n' (S t) field' pos' in
      (snapshotRow field' :: rows, field'', dns'', pos'')
  end.

(** The grid of such a run: the snapshot of the seeded field, then one
    snapshot per pass. *)
Definition run_grid (dNodesInOrder : list DN) (o : ObjectField) (steps : nat)
    (field : Field) (pos : nat) : list (list Z) * Field * list DN * nat :=
  let '(rows, field', dns', pos') :=
    run_passes dNodesInOrder o (steps - 1) 1 field pos in
  (snapshotRow field :: rows, field', dns', pos').

End WithDraws.

(** [writePGM]; [None] is the [TypeError] of [grid[0].length] on a grid
    without row. *)
Definition writePGM (grid : list (list Z)) : option string :=
  match grid with
  | [] => None
  | row0 :: _ =>
      let height := length grid in
      let width := length row0 in
      let out := EmptyString in
      let out := out +:+ ("P2" +:+ nl) in
      let out := out +:+ (pgm_dims width height +:+ nl) in
      let out := out +:+ ("255" +:+ nl) in
      Some (foldl (fun out row => out +:+ (pgm_row row +:+ nl)) out grid)
  end.

End Classy.

(** ** Predicates used in the statements *)

(** The three Intention-Space sources of a flat preset are disabled: no
    pattern, injection probability 0, hold threshold at least the step
    count. *)
Definition flat_sources_disabled (p : Flat.Preset) : Prop :=
  Flat.cpiPatterns p = []
  /\ (Flat.injectProb p == 0)%Q
  /\ Z.of_nat (Flat.steps p) <= Flat.reflectionHold p.

Definition cpux_sources_disabled (cfg : Cpux.Config) : Prop :=
  Cpux.cpiPatterns cfg = []
  /\ (Cpux.cfg_injectProb cfg == 0)%Q
  /\ Z.of_nat (Cpux.steps cfg) <= Cpux.cfg_reflectionHold cfg.

(** Phase A of a flat step proposed nothing. *)
Definition flat_no_proposal (size : nat) (a : Flat.PhaseA) : Prop :=
  Flat.proposal a = replicate size 0 /\ Flat.reflection a = replicate size 0.

(** The counters after a cell was visited: one more than the old bound at
    most, and the cells still to visit keep the old bound. *)
Definition counters_within (k : Z) (i : nat) (consec : list Z) : Prop :=
  Forall (fun c => c <= k + 1) consec
  /\ forall j, (i <= j)%nat -> arr_get consec j <= k.

(** A stream of draws as [Math.random] gives them: in [0, 1). *)
Definition unit_draws (draws : nat -> Q) : Prop :=
  forall k, (0 <= draws k)%Q /\ (draws k < 1)%Q.

(** A concrete stream, for examples. *)
Definition half_draws : nat -> Q := fun _ => (1 # 2)%Q.

(** The proposals an [ObjectField] receives from a batch of intentions, in
    the order of their arrival: every pulse of every intention addressed to
    the object, with the kind of its intention. *)
Definition proposals (o : Classy.ObjectField) (its : list Classy.Intention)
  : list (string * Classy.Pulse) :=
  its ≫= (fun it =>
    if decide (Classy.toObject it = Classy.objectId o)
    then (fun p => (Classy.kind it, p)) <$> Classy.pulses it
    else []).

Definition pulses_of_kind (k : string) (props : list (string * Classy.Pulse))
  : list Classy.Pulse :=
  snd <$> filter (fun kp => fst kp = k) props.

(** The last pulse of a list that carries a given id. *)
Definition last_with_id (pid : string) (ps : list Classy.Pulse)
  : option Classy.Pulse :=
  last (filter (fun p => Classy.id p = pid) ps).

(** The rank of a kind in a precedence list: the place of its first
    occurrence; a smaller rank is a higher precedence. *)
Fixpoint rank (precedence : list string) (k : string) : option nat :=
  match precedence with
  | [] => None
  | x :: rest => if decide (x = k) then Some 0%nat else S <$> rank rest k
  end.

Definition ranked_above (precedence : list string) (k k' : string) : Prop :=
  match rank precedence k, rank precedence k' with
  | Some r, Some r' => (r < r')%nat
  | _, _ => False
  end.

(** A proposal of kind [k] for cell [i] is among the proposals. *)
Definition targets (props : list (string * Classy.Pulse)) (k : string) (i : nat)
  : Prop :=
  exists p, (k, p) ∈ props /\ Classy.id p = Classy.cell_id i.

(** What the resolution picks for a pulse id: going down the precedence
    list, the last pulse of the first kind that has one for the id. *)
Fixpoint top_proposal (precedence : list string)
    (props : list (string * Classy.Pulse)) (pid : string) : option Classy.Pulse :=
  match precedence with
  | [] => None
  | k :: rest =>
      match last_with_id pid (pulses_of_kind k props) with
      | Some p => Some p
      | None => top_proposal rest props pid
      end
  end.

(** Concrete data for examples: the object of the demo, a baseline
    intention over two cells and a pattern proposal for cell 0. *)
Definition demo_object : Classy.ObjectField :=
  {| Classy.objectId := "O_field";
     Classy.precedence := ["proposal"; "reflection"; "baseline"] |}.

Definition demo_baseline : Classy.Intention :=
  {| Classy.fromDN := "DN_rule"; Classy.toObject := "O_field";
     Classy.kind := "baseline";
     Classy.pulses := [ {| Classy.id := "cell:0"; Classy.value := 0 |};
                        {| Classy.id := "cell:1"; Classy.value := 0 |} ] |}.

Definition demo_proposal : Classy.Intention :=
  {| Classy.fromDN := "DN_cpi"; Classy.toObject := "O_field";
     Classy.kind := "proposal";
     Classy.pulses := [ {| Classy.id := "cell:0"; Classy.value := 1 |} ] |}.

Definition demo_pulse : Cpux.Pulse :=
  {| Cpux.passIndex := 1; Cpux.targetIndex := 0;
     Cpux.pulseKind := "proposal"; Cpux.sourceDN := "DN_CPI" |}.

(** The persistence counter of a cell after the cell was observed. *)
Definition new_count (cell old : Z) : Z := if truthy cell then old + 1 else 0.

(** The counters once the first [k] cells of a row were observed, and once
    the whole row was. [row] reads a cell of the current row. *)
Definition counters_upto (row : nat -> Z) (cs : list Z) (k : nat) : list Z :=
  ((fun i => new_count (row i) (arr_get cs i)) <$> seq 0 k) ++ drop k cs.

Definition next_counters (row : nat -> Z) (cs : list Z) (n : nat) : list Z :=
  (fun i => new_count (row i) (arr_get cs i)) <$> seq 0 n.

(** The cells, in increasing order, whose updated counter reaches the hold
    threshold. *)
Definition reflecting (hold : Z) (row : nat -> Z) (cs : list Z) (n : nat)
  : list nat :=
  filter (fun i => hold <= new_count (row i) (arr_get cs i)) (seq 0 n).

(** The intention that [DN_REFLECT] of the ledger-based script pushes for
    cell [i], and the pulse that [DN_reflect] of the class-based script
    pushes. *)
Definition cpux_reflection (pass : nat) (objectId : string) (n i : nat)
  : Cpux.Intention :=
  {| Cpux.fromDN := "DN_REFLECT"; Cpux.toObject := objectId;
     Cpux.pulse := {| Cpux.passIndex := pass;
                      Cpux.targetIndex := reflect_target i n;
                      Cpux.pulseKind := "reflection";
                      Cpux.sourceDN := "DN_REFLECT" |} |}.

Definition classy_reflection (n i : nat) : Classy.Pulse :=
  {| Classy.id := Classy.cell_id (reflect_target i n); Classy.value := 1 |}.

(** The neighbour a reflecting cell pushes to: the next cell for an even
    index, the previous one for an odd index, around the ring. *)
Definition neighbour_of (i n : nat) : nat :=
  if Nat.even i then ((i + 1) mod n)%nat else ((i - 1) mod n)%nat.

(** The field that holds a given row: one pulse per cell. *)
Definition field_of_row (row : list Z) : Classy.Field :=
  Classy.setNextState (Classy.new_Field (length row))
    (for_range (length row)
       (fun (m : gmap string Classy.Pulse) i =>
          <[Classy.cell_id i := {| Classy.id := Classy.cell_id i;
                                   Classy.value := arr_get row i |}]> m)
       ∅).

(** The scenario of the pattern ["101"]: rule 0 on five cells, pattern
    trigger on ["101"], the other two sources off. *)
Definition scenario_101 (hold : Z) : Flat.Preset :=
  {| Flat.rule := 0; Flat.init := "single"; Flat.steps := 2; Flat.size := 5;
     Flat.cpiPatterns := ["101"]; Flat.injectProb := 0;
     Flat.reflectionHold := hold |}.

Definition scenario_101_nodes (f : Classy.Field) (hold : Z) : list Classy.DN :=
  [ Classy.new_DN_cpi "DN_cpi" "O_field" ["101"];
    Classy.DN_inject "DN_inject" "O_field" 0;
    Classy.new_DN_reflect "DN_reflect" "O_field" f hold;
    Classy.DN_rule "DN_rule0" "O_field" 0 ].

(** The flat preset with the knobs of a configuration of the ledger-based
    script. *)
Definition flat_of_cpux (cfg : Cpux.Config) : Flat.Preset :=
  {| Flat.rule := Cpux.ruleNumber cfg; Flat.init := Cpux.initMode cfg;
     Flat.steps := Cpux.steps cfg; Flat.size := Cpux.size cfg;
     Flat.cpiPatterns := Cpux.cpiPatterns cfg;
     Flat.injectProb := Cpux.cfg_injectProb cfg;
     Flat.reflectionHold := Cpux.cfg_reflectionHold cfg |}.

(** A row of a grid of a given width: that many cells, each 0 or 1. *)
Definition bit_row (size : nat) (row : list Z) : Prop :=
  length row = size /\ Forall is_bit row.

(** A flat preset for a classical run: the Intention-Space knobs are not
    read by [runCA]. *)
Definition flat_preset (rule : Z) (size steps : nat) : Flat.Preset :=
  {| Flat.rule := rule; Flat.init := "single"; Flat.steps := steps;
     Flat.size := size; Flat.cpiPatterns := []; Flat.injectProb := 0;
     Flat.reflectionHold := 0 |}.

(** The pulse [DN_rule] computes for cell [i] of a field. *)
Definition baseline_pulse (rule : Z) (f : Classy.Field) (i : nat) : Classy.Pulse :=
  {| Classy.id := Classy.cell_id i;
     Classy.value :=
       ruleFn rule (Classy.readCell f (left_of i (Classy.size f)))
         (Classy.readCell f i)
         (Classy.readCell f (right_of i (Classy.size f))) |}.

(** The seed row with one cell set, in the middle. *)
Definition one_hot (size : nat) : list Z := <[(size / 2)%nat := 1]> (replicate size 0).

(** The sparse random seed row drawn from position [pos] of the stream. *)
Definition random_row (draws : nat -> Q) (size pos : nat) : list Z :=
  (fun i => draw_bit (draws (pos + i)%nat) js_0_1) <$> seq 0 size.

(** What [DN_CPI] of the ledger-based script decides for cell [i] when its
    loop started at position [pos] of the stream of draws: the kind of the
    pulse it pushes, if any. *)
Definition cpi_kind (draws : nat -> Q) (dn : Cpux.DesignNodes) (prev : list Z)
    (pos i : nat) : option string :=
  let '(_, _, _, nb) := Cpux.neighborhood3 prev i in
  if Qltb (draws (pos + i)%nat) (Cpux.injectProb dn) then Some "novelty"
  else if bool_decide (0 < size (Cpux.patternSet dn))%nat
          && bool_decide (nb ∈ Cpux.patternSet dn)
       then Some "proposal" else None.

Definition cpi_intention (pass : nat) (objectId : string) (i : nat) (kind : string)
  : Cpux.Intention :=
  {| Cpux.fromDN := "DN_CPI"; Cpux.toObject := objectId;
     Cpux.pulse := {| Cpux.passIndex := pass; Cpux.targetIndex := i;
                      Cpux.pulseKind := kind; Cpux.sourceDN := "DN_CPI" |} |}.

Definition cpi_emitted (draws : nat -> Q) (dn : Cpux.DesignNodes) (pass : nat)
    (prev : list Z) (objectId : string) (pos : nat) : list Cpux.Intention :=
  omap (fun i => cpi_intention pass objectId i <$> cpi_kind draws dn prev pos i)
    (seq 0 (length prev)).

(** Whether phase A of the flat script sets [proposal[i]], when its loop
    started at position [pos] of the stream of draws. *)
Definition flat_proposes (draws : nat -> Q) (p : Flat.Preset) (prev : list Z)
    (pos i : nat) : bool :=
  truthy (Flat.cpiPropose (arr_get prev (left_of i (Flat.size p))) (arr_get prev i)
            (arr_get prev (right_of i (Flat.size p))) (Flat.cpiPatterns p))
  || Qltb (draws (pos + i)%nat) (Flat.injectProb p).

(** Patterns written without surrounding white space, none empty: those the
    ledger-based script takes as they are. *)
Definition trimmed (s : string) : Prop := Cpux.trim s = s /\ s <> EmptyString.

(** Strings of ASCII characters only, as the patterns of the presets are. *)
Fixpoint ascii_only (s : string) : bool :=
  match s with
  | EmptyString => true
  | String a s' => (Ascii.nat_of_ascii a <? 128)%nat && ascii_only s'
  end.

(** The patterns the two scripts read alike: ASCII, without surrounding
    white space, not empty. *)
Definition plain (s : string) : Prop := ascii_only s = true /\ trimmed s.

(** A pulse of the ledger written at pass [t] of a run on [size] cells. *)
Definition pulse_of_pass (t size : nat) (u : Cpux.Pulse) : Prop :=
  Cpux.passIndex u = t
  /\ (Cpux.targetIndex u < size)%nat
  /\ (Cpux.pulseKind u = "proposal" \/ Cpux.pulseKind u = "novelty"
      \/ Cpux.pulseKind u = "reflection").

(** The pulses a pass of the ledger-based script appends to the ledger. *)
Definition pass_pulses (draws : nat -> Q) (dn : Cpux.DesignNodes) (pass : nat)
    (prev : list Z) (st : Cpux.Loop) : list Cpux.Pulse :=
  let n := length prev in
  let cs := default (replicate n 0) (Cpux.consecOnes st) in
  Cpux.pulse
    <$> (cpi_emitted draws dn pass prev "O_IS" (Cpux.cursor st)
         ++ (cpux_reflection pass "O_IS" n
               <$> reflecting (Cpux.reflectionHold dn) (arr_get prev) cs n)).



(** The concatenation of a list of strings. *)
Definition concat_str (l : list string) : string := foldr String.append EmptyString l.

(** The first three lines of a PGM text, without the line feed that ends the
    third. *)
Definition pgm_header (w h : nat) : string :=
  "P2" +:+ nl +:+ pgm_dims w h +:+ nl +:+ "255".

(** The four nodes of the Intention-Space run of [demo_rule33_pair], in its
    order, for any patterns, probability, threshold, counters and rule. *)
Definition is_nodes (pats : list string) (prob : Q) (hold : Z) (cs : list Z)
    (rule : Z) : list Classy.DN :=
  [ Classy.new_DN_cpi "DN_cpi" "O_field" pats;
    Classy.DN_inject "DN_inject" "O_field" prob;
    Classy.DN_reflect "DN_reflect" "O_field" hold cs;
    Classy.DN_rule "DN_rule33" "O_field" rule ].

(** A pulse of value 1 for cell [j]: what the three override nodes push. *)
Definition set_pulse (j : nat) : Classy.Pulse :=
  {| Classy.id := Classy.cell_id j; Classy.value := 1 |}.

(** The cells where [DN_cpi] matches a pattern, and those where [DN_inject]
    draws under its probability from position [pos] of the stream. *)
Definition matching (pats : gset string) (f : Classy.Field) : list nat :=
  filter (fun i =>
            bool_decide
              (nb_string (Classy.readCell f (left_of i (Classy.size f)))
                 (Classy.readCell f i)
                 (Classy.readCell f (right_of i (Classy.size f))) ∈ pats) = true)
    (seq 0 (Classy.size f)).

Definition injected (draws : nat -> Q) (prob : Q) (n pos : nat) : list nat :=
  filter (fun i => Qltb (draws (pos + i)%nat) prob = true) (seq 0 n).

(** * Properties *)

(** ** Loops and arrays *)

Lemma for_range_S {S : Type} (n : nat) (body : S -> nat -> S) (s : S) :
  for_range (Datatypes.S n) body s = body (for_range n body s) n.
Proof.
  unfold for_range. rewrite seq_S, foldl_app. reflexivity.
Qed.

Lemma for_range_ext {S : Type} (n : nat) (body body' : S -> nat -> S) (s : S) :
  (forall s' i, (i < n)%nat -> body s' i = body' s' i) ->
  for_range n body s = for_range n body' s.
Proof.
  intros Hext. induction n as [|n IH]; [reflexivity|].
  rewrite !for_range_S, IH by (intros; apply Hext; lia).
  apply Hext. lia.
Qed.

(** A loop invariant, proved once for every [for] loop of the programs. *)
Lemma for_range_invariant {S : Type} (I : nat -> S -> Prop) (n : nat)
    (body : S -> nat -> S) (s : S) :
  I 0%nat s ->
  (forall i s', (i < n)%nat -> I i s' -> I (Datatypes.S i) (body s' i)) ->
  I n (for_range n body s).
Proof.
  intros H0 Hstep. induction n as [|n IH]; [exact H0|].
  rewrite for_range_S. apply Hstep; [lia|].
  apply IH. intros i s' Hi. apply Hstep. lia.
Qed.

Lemma arr_get_lookup (a : list Z) (i : nat) (x : Z) :
  a !! i = Some x -> arr_get a i = x.
Proof. unfold arr_get. intros ->. reflexivity. Qed.

Lemma arr_get_replicate (n i : nat) : arr_get (replicate n 0) i = 0.
Proof.
  unfold arr_get. destruct (replicate n 0 !! i) as [x|] eqn:E; [|reflexivity].
  apply lookup_replicate in E. simpl. tauto.
Qed.

Lemma arr_set_in_range (a : list Z) (i : nat) (x : Z) :
  (i < length a)%nat -> arr_set a i x = <[i:=x]> a.
Proof. intros Hi. unfold arr_set. rewrite decide_True by exact Hi. reflexivity. Qed.

Lemma length_arr_set (a : list Z) (i : nat) (x : Z) :
  (i < length a)%nat -> length (arr_set a i x) = length a.
Proof. intros Hi. rewrite arr_set_in_range by exact Hi. apply length_insert. Qed.

Lemma arr_get_set_eq (a : list Z) (i : nat) (x : Z) :
  arr_get (arr_set a i x) i = x.
Proof.
  apply arr_get_lookup. unfold arr_set.
  destruct (decide (i < length a)%nat) as [Hi|Hi].
  - apply list_lookup_insert_eq, Hi.
  - rewrite lookup_app_r by lia.
    rewrite lookup_app_r by (rewrite length_replicate; lia).
    rewrite length_replicate, Nat.sub_diag. reflexivity.
Qed.

Lemma arr_get_set_ne (a : list Z) (i j : nat) (x : Z) :
  i <> j -> arr_get (arr_set a i x) j = arr_get a j.
Proof.
  intros Hne. unfold arr_set, arr_get.
  destruct (decide (i < length a)%nat) as [Hi|Hi].
  - rewrite list_lookup_insert_ne by exact Hne. reflexivity.
  - destruct (decide (j < length a)%nat) as [Hj|Hj].
    + rewrite lookup_app_l by exact Hj. reflexivity.
    + rewrite (lookup_ge_None_2 a j) by lia.
      rewrite lookup_app_r by lia.
      destruct (decide (j - length a < i - length a)%nat) as [Hlt|Hge].
      * rewrite lookup_app_l by (rewrite length_replicate; exact Hlt).
        rewrite lookup_replicate_2 by exact Hlt. reflexivity.
      * rewrite lookup_app_r by (rewrite length_replicate; lia).
        rewrite length_replicate.
        rewrite lookup_ge_None_2 by (simpl; lia). reflexivity.
Qed.

Lemma Forall_arr_set (P : Z -> Prop) (a : list Z) (i : nat) (x : Z) :
  P 0 -> P x -> Forall P a -> Forall P (arr_set a i x).
Proof.
  intros H0 Hx Ha. unfold arr_set. destruct (decide (i < length a)%nat).
  - apply Forall_insert; assumption.
  - rewrite !Forall_app. repeat split; [assumption| |].
    + apply Forall_replicate. exact H0.
    + apply Forall_singleton. exact Hx.
Qed.

Lemma Forall_arr_get (P : Z -> Prop) (a : list Z) (i : nat) :
  P 0 -> Forall P a -> P (arr_get a i).
Proof.
  intros H0 Ha. unfold arr_get. destruct (a !! i) as [x|] eqn:E; [|exact H0].
  simpl. eapply Forall_lookup_1; eassumption.
Qed.

(** Filling an array cell by cell, left to right, with values that depend on
    the index only. *)
Lemma fill_prefix (g : nat -> Z) (a : list Z) (k : nat) :
  (k <= length a)%nat ->
  for_range k (fun next i => arr_set next i (g i)) a = (g <$> seq 0 k) ++ drop k a.
Proof.
  induction k as [|k IH]; intros Hk.
  - rewrite drop_0. reflexivity.
  - rewrite for_range_S, IH by lia.
    assert (Hlen : length (g <$> seq 0 k) = k) by (rewrite length_fmap, length_seq; reflexivity).
    destruct (lookup_lt_is_Some_2 a k) as [y Hy]; [lia|].
    rewrite (drop_S a y k Hy).
    rewrite arr_set_in_range by (rewrite length_app, Hlen; simpl; lia).
    rewrite insert_app_r_alt by lia. rewrite Hlen, Nat.sub_diag.
    change (<[0%nat:=g k]> (y :: drop (S k) a)) with (g k :: drop (S k) a).
    rewrite seq_S, fmap_app, <- app_assoc. reflexivity.
Qed.

Lemma fill_all (g : nat -> Z) (n : nat) :
  for_range n (fun next i => arr_set next i (g i)) (replicate n 0) = g <$> seq 0 n.
Proof.
  rewrite fill_prefix by (rewrite length_replicate; lia).
  rewrite drop_ge by (rewrite length_replicate; lia).
  apply app_nil_r.
Qed.

(** ** Comparisons with a draw *)

Lemma Qltb_true (x y : Q) : Qltb x y = true <-> (x < y)%Q.
Proof.
  unfold Qltb. rewrite negb_true_iff, <- not_true_iff_false, Qle_bool_iff.
  split; [apply Qnot_le_lt | apply Qlt_not_le].
Qed.

Lemma Qltb_false (x y : Q) : Qltb x y = false <-> (y <= x)%Q.
Proof.
  unfold Qltb. rewrite negb_false_iff. apply Qle_bool_iff.
Qed.

(** A draw of [Math.random] is never under a probability of zero. *)
Lemma no_draw_under_zero (x p : Q) : (0 <= x)%Q -> (p <= 0)%Q -> Qltb x p = false.
Proof.
  intros Hx Hp. apply Qltb_false. eapply Qle_trans; eassumption.
Qed.

(** ** Facts on the integer operators *)

Lemma toInt32_small z : - 2 ^ 31 <= z < 2 ^ 31 -> toInt32 z = z.
Proof.
  intros Hz. unfold toInt32.
  rewrite Z.mod_small; lia.
Qed.

Lemma land_1_testbit z : Z.land z 1 = Z.b2z (Z.testbit z 0).
Proof.
  change 1 with (Z.ones 1). rewrite Z.land_ones by lia.
  rewrite Z.bit0_mod. reflexivity.
Qed.

Lemma shiftr_byte_range rule k :
  0 <= rule <= 255 -> 0 <= k -> 0 <= Z.shiftr rule k <= 255.
Proof.
  intros Hr Hk. rewrite Z.shiftr_div_pow2 by lia.
  assert (0 < 2 ^ k) by (apply Z.pow_pos_nonneg; lia).
  split.
  - apply Z.div_pos; lia.
  - apply Z.le_trans with (rule / 1).
    + apply Z.div_le_compat_l; lia.
    + rewrite Z.div_1_r. lia.
Qed.

Lemma ruleFn_at_index rule k :
  0 <= rule <= 255 -> 0 <= k <= 7 ->
  js_band (js_sar rule k) 1 = Z.b2z (Z.testbit rule k).
Proof.
  intros Hr Hk. unfold js_band, js_sar.
  rewrite (toInt32_small rule) by lia.
  assert (Hk' : Z.land (toUint32 k) 31 = k).
  { unfold toUint32. rewrite Z.mod_small by lia.
    change 31 with (Z.ones 5). rewrite Z.land_ones by lia.
    apply Z.mod_small. lia. }
  rewrite Hk'.
  pose proof (shiftr_byte_range rule k Hr (proj1 Hk)) as Hs.
  rewrite (toInt32_small (Z.shiftr rule k)) by lia.
  rewrite (toInt32_small 1) by lia.
  rewrite land_1_testbit, Z.shiftr_spec by lia.
  reflexivity.
Qed.

(** C2. For a rule number in [0,255] and a neighbourhood of bits, [ruleFn]
    returns bit [l*4 + c*2 + r] of the rule number; being a function of its
    four arguments only, equal inputs give equal outputs. *)
Theorem ruleFn_is_rule_bit (rule l c r : Z) :
  0 <= rule <= 255 -> is_bit l -> is_bit c -> is_bit r ->
  ruleFn rule l c r = Z.b2z (Z.testbit rule (l * 4 + c * 2 + r))
  /\ (ruleFn rule l c r = 0 \/ ruleFn rule l c r = 1)
  /\ (forall rule' l' c' r',
        rule' = rule -> l' = l -> c' = c -> r' = r ->
        ruleFn rule' l' c' r' = ruleFn rule l c r).
Proof.
  intros Hr Hl Hc Hrr.
  assert (Hbit : ruleFn rule l c r = Z.b2z (Z.testbit rule (l * 4 + c * 2 + r))).
  { unfold ruleFn.
    destruct Hl as [-> | ->], Hc as [-> | ->], Hrr as [-> | ->];
      match goal with
      | |- js_band (js_sar _ ?i) 1 = Z.b2z (Z.testbit _ ?j) =>
          let i' := eval vm_compute in i in
          let j' := eval vm_compute in j in
          change i with i'; change j with j'
      end;
      apply ruleFn_at_index; lia. }
  split; [exact Hbit | split].
  - rewrite Hbit. destruct (Z.testbit rule (l * 4 + c * 2 + r)); [right | left]; reflexivity.
  - intros rule' l' c' r' -> -> -> ->. reflexivity.
Qed.

Lemma ruleFn_is_rule_bit_witness :
  ruleFn 110 1 1 0 = Z.b2z (Z.testbit 110 (1 * 4 + 1 * 2 + 0)).
Proof.
  apply (ruleFn_is_rule_bit 110 1 1 0); unfold is_bit; lia.
Defined.
(** ** The disabling law *)

Section Disabled.
Variable draws : nat -> Q.
Hypothesis draws_nonneg : forall k, (0 <= draws k)%Q.

(** *** Flat script *)

Lemma flat_phaseB_no_override (p : Flat.Preset) (prev : list Z) :
  Flat.phaseB p prev (replicate (Flat.size p) 0) (replicate (Flat.size p) 0)
  = Flat.ca_next (Flat.rule p) (Flat.size p) prev.
Proof.
  unfold Flat.phaseB, Flat.ca_next. apply for_range_ext.
  intros next i _. rewrite !arr_get_replicate. reflexivity.
Qed.

Lemma counters_within_start (k : Z) (consec : list Z) :
  0 <= k -> Forall (fun c => c <= k) consec -> counters_within k 0 consec.
Proof.
  intros Hk Hc. split.
  - eapply Forall_impl; [exact Hc|]. intros c Hle. simpl in Hle. lia.
  - intros j _. apply (Forall_arr_get (fun c => c <= k)); [lia | exact Hc].
Qed.

Lemma counters_within_step (k : Z) (i : nat) (consec : list Z) (b : bool) :
  0 <= k -> counters_within k i consec ->
  let count := if b then arr_get consec i + 1 else 0 in
  count <= k + 1 /\ counters_within k (S i) (arr_set consec i count).
Proof.
  intros Hk [Hall Hrest] count.
  assert (Hcount : count <= k + 1).
  { subst count. specialize (Hrest i (Nat.le_refl i)). destruct b; lia. }
  split; [exact Hcount|]. split.
  - apply Forall_arr_set; [lia | exact Hcount | exact Hall].
  - intros j Hj. rewrite arr_get_set_ne by lia. apply Hrest. lia.
Qed.

(** With the three sources disabled, phase A leaves both override arrays
    at zero; a counter grows by one at most. *)
Lemma flat_phaseA_disabled (p : Flat.Preset) (prev consec : list Z)
    (pos : nat) (k : Z) :
  Flat.cpiPatterns p = [] ->
  (Flat.injectProb p <= 0)%Q ->
  0 <= k -> k + 1 < Flat.reflectionHold p ->
  Forall (fun c => c <= k) consec ->
  let a := Flat.phaseA draws p prev consec pos in
  Flat.proposal a = replicate (Flat.size p) 0
  /\ Flat.reflection a = replicate (Flat.size p) 0
  /\ Forall (fun c => c <= k + 1) (Flat.consecOnes a).
Proof.
  intros Hpat Hprob Hk Hhold Hconsec. unfold Flat.phaseA.
  pose (I := fun (i : nat) (st : Flat.PhaseA) =>
              Flat.proposal st = replicate (Flat.size p) 0
              /\ Flat.reflection st = replicate (Flat.size p) 0
              /\ counters_within k i (Flat.consecOnes st)).
  enough (H : I (Flat.size p)
            (for_range (Flat.size p) (Flat.phaseA_cell draws p prev)
               {| Flat.proposal := replicate (Flat.size p) 0;
                  Flat.reflection := replicate (Flat.size p) 0;
                  Flat.consecOnes := consec; Flat.cursor := pos |})).
  { destruct H as (? & ? & [? _]). auto. }
  apply (for_range_invariant I); subst I; cbv beta.
  - split; [reflexivity | split; [reflexivity |]].
    apply counters_within_start; assumption.
  - intros i st _ (Hprop & Hrefl & Hcnt). unfold Flat.phaseA_cell.
    rewrite Hpat. cbn [Flat.cpiPropose length bool_decide decide_rel].
    rewrite (no_draw_under_zero _ _ (draws_nonneg _) Hprob).
    destruct (counters_within_step k i _ (truthy (arr_get prev i)) Hk Hcnt)
      as [Hcount Hnext].
    cbn zeta in Hcount, Hnext. cbn [Flat.proposal Flat.reflection Flat.consecOnes].
    repeat split; try apply Hnext.
    + simpl. exact Hprop.
    + destruct (Z.leb_spec (Flat.reflectionHold p)
                  (if truthy (arr_get prev i)
                   then arr_get (Flat.consecOnes st) i + 1 else 0)); [lia|].
      exact Hrefl.
Qed.

Lemma flat_is_rows_disabled (p : Flat.Preset) (n : nat) :
  Flat.cpiPatterns p = [] ->
  (Flat.injectProb p <= 0)%Q ->
  forall (prev consec : list Z) (pos : nat) (k : Z),
    0 <= k ->
    ((0 < n)%nat -> k + Z.of_nat n < Flat.reflectionHold p) ->
    Forall (fun c => c <= k) consec ->
    fst (Flat.is_rows draws p n prev consec pos)
    = Flat.ca_rows (Flat.rule p) (Flat.size p) n prev
    /\ Forall (fun a => Flat.proposal a = replicate (Flat.size p) 0
                        /\ Flat.reflection a = replicate (Flat.size p) 0)
         (snd (Flat.is_rows draws p n prev consec pos)).
Proof.
  intros Hpat Hprob. induction n as [|n IH]; intros prev consec pos k Hk Hhold Hc.
  - simpl. split; [reflexivity | constructor].
  - cbn [Flat.is_rows Flat.ca_rows].
    destruct (flat_phaseA_disabled p prev consec pos k Hpat Hprob Hk)
      as (Hprop & Hrefl & Hcnt); [lia | exact Hc |].
    cbn zeta in Hprop, Hrefl, Hcnt.
    set (a := Flat.phaseA draws p prev consec pos) in *.
    rewrite Hprop, Hrefl, flat_phaseB_no_override.
    set (next := Flat.ca_next (Flat.rule p) (Flat.size p) prev).
    destruct (IH next (Flat.consecOnes a) (Flat.cursor a) (k + 1))
      as [Hrows Htr]; [lia | lia | exact Hcnt |].
    destruct (Flat.is_rows draws p n next (Flat.consecOnes a) (Flat.cursor a))
      as [rows tr].
    simpl in Hrows, Htr. simpl. split.
    + rewrite Hrows. reflexivity.
    + constructor; [split; assumption | exact Htr].
Qed.


(** *** Ledger-based script *)

Lemma cpux_DN_CPI_disabled (dn : Cpux.DesignNodes) (pass : nat)
    (prev : list Z) (objectId : string) (incoming : list Cpux.Intention)
    (pos : nat) :
  Cpux.patternSet dn = ∅ ->
  (Cpux.injectProb dn <= 0)%Q ->
  Cpux.DN_CPI_emitIntentions draws dn pass prev objectId incoming pos
  = (incoming, (pos + length prev)%nat).
Proof.
  intros Hset Hprob. unfold Cpux.DN_CPI_emitIntentions.
  apply (for_range_invariant (fun i st => st = (incoming, (pos + i)%nat))).
  - rewrite Nat.add_0_r. reflexivity.
  - intros i st _ ->. unfold Cpux.DN_CPI_cell.
    destruct (Cpux.neighborhood3 prev i) as [[[l c] r] nb].
    rewrite Hset, size_empty.
    rewrite (no_draw_under_zero _ _ (draws_nonneg _) Hprob).
    cbn [bool_decide decide_rel andb]. simpl.
    f_equal. lia.
Qed.

Lemma cpux_DN_REFLECT_disabled (dn : Cpux.DesignNodes) (pass : nat)
    (prev : list Z) (objectId : string) (consec : option (list Z))
    (incoming : list Cpux.Intention) (k : Z) :
  0 <= k -> k + 1 < Cpux.reflectionHold dn ->
  (forall cs, consec = Some cs -> Forall (fun c => c <= k) cs) ->
  let out := Cpux.DN_REFLECT_emitIntentions dn pass prev objectId consec incoming in
  snd out = incoming /\ Forall (fun c => c <= k + 1) (fst out).
Proof.
  intros Hk Hhold Hconsec. unfold Cpux.DN_REFLECT_emitIntentions.
  set (counters := match consec with
                   | Some cs => cs
                   | None => replicate (length prev) 0
                   end).
  assert (Hstart : Forall (fun c => c <= k) counters).
  { subst counters. destruct consec as [cs|]; [apply Hconsec; reflexivity|].
    apply Forall_replicate. exact Hk. }
  pose (I := fun (i : nat) (st : list Z * list Cpux.Intention) =>
               snd st = incoming /\ counters_within k i (fst st)).
  enough (H : I (length prev)
                (for_range (length prev)
                   (Cpux.DN_REFLECT_cell dn pass prev objectId)
                   (counters, incoming))).
  { destruct H as [? [? _]]. auto. }
  apply (for_range_invariant I); subst I; cbv beta.
  - split; [reflexivity|]. apply counters_within_start; assumption.
  - intros i [cs inc] _ [Hinc Hcnt]. simpl in Hinc, Hcnt. subst inc.
    unfold Cpux.DN_REFLECT_cell.
    destruct (counters_within_step k i cs (truthy (arr_get prev i)) Hk Hcnt)
      as [Hcount Hnext].
    cbn zeta in Hcount, Hnext.
    destruct (Z.leb_spec (Cpux.reflectionHold dn)
                (if truthy (arr_get prev i) then arr_get cs i + 1 else 0));
      [lia|].
    split; [reflexivity | exact Hnext].
Qed.

Lemma cpux_mergeOverride_zeros (b : list Z) (n : nat) :
  Cpux.mergeOverride b (replicate n 0) = b.
Proof.
  unfold Cpux.mergeOverride.
  apply (for_range_invariant (fun _ st => st = b)); [reflexivity|].
  intros i st _ ->. rewrite arr_get_replicate. reflexivity.
Qed.

(** A pass with the three sources disabled: the row of the base rule, and
    a ledger that stays empty. *)
Lemma cpux_is_pass_disabled (cfg : Cpux.Config) (dn : Cpux.DesignNodes)
    (pass : nat) (prev : list Z) (st : Cpux.Loop) (k : Z) :
  Cpux.patternSet dn = ∅ ->
  (Cpux.injectProb dn <= 0)%Q ->
  0 <= k -> k + 1 < Cpux.reflectionHold dn ->
  Cpux.pulseLedger st = [] ->
  (forall cs, Cpux.consecOnes st = Some cs -> Forall (fun c => c <= k) cs) ->
  let out := Cpux.is_pass draws cfg dn pass prev st in
  fst out = Cpux.applyBaseRule (Cpux.ruleNumber cfg) prev
  /\ Cpux.pulseLedger (snd out) = []
  /\ (forall cs, Cpux.consecOnes (snd out) = Some cs ->
                 Forall (fun c => c <= k + 1) cs).
Proof.
  intros Hset Hprob Hk Hhold Hledger Hconsec. unfold Cpux.is_pass.
  rewrite cpux_DN_CPI_disabled by assumption.
  destruct (cpux_DN_REFLECT_disabled dn pass prev "O_IS" (Cpux.consecOnes st)
              [] k Hk Hhold Hconsec) as [Hinc Hcnt].
  cbn zeta in Hinc, Hcnt.
  destruct (Cpux.DN_REFLECT_emitIntentions dn pass prev "O_IS"
              (Cpux.consecOnes st) []) as [counters incoming2].
  simpl in Hinc, Hcnt. subst incoming2. rewrite Hledger.
  cbn [Cpux.absorbIntentionsIntoLedger foldl Cpux.buildOverrideMapForPass].
  rewrite cpux_mergeOverride_zeros. simpl.
  split; [reflexivity | split; [reflexivity|]].
  intros cs [= <-]. exact Hcnt.
Qed.

Lemma cpux_is_rows_disabled (cfg : Cpux.Config) (dn : Cpux.DesignNodes)
    (n : nat) :
  Cpux.patternSet dn = ∅ ->
  (Cpux.injectProb dn <= 0)%Q ->
  forall (pass : nat) (prev : list Z) (st : Cpux.Loop) (k : Z),
    0 <= k ->
    ((0 < n)%nat -> k + Z.of_nat n < Cpux.reflectionHold dn) ->
    Cpux.pulseLedger st = [] ->
    (forall cs, Cpux.consecOnes st = Some cs -> Forall (fun c => c <= k) cs) ->
    fst (Cpux.is_rows draws cfg dn n pass prev st)
    = Cpux.ca_rows (Cpux.ruleNumber cfg) n prev
    /\ Cpux.pulseLedger (snd (Cpux.is_rows draws cfg dn n pass prev st)) = [].
Proof.
  intros Hset Hprob. induction n as [|n IH];
    intros pass prev st k Hk Hhold Hledger Hconsec.
  - simpl. split; [reflexivity | exact Hledger].
  - cbn [Cpux.is_rows Cpux.ca_rows].
    destruct (cpux_is_pass_disabled cfg dn pass prev st k Hset Hprob Hk)
      as (Hnext & Hl & Hc); [lia | exact Hledger | exact Hconsec |].
    cbn zeta in Hnext, Hl, Hc.
    destruct (Cpux.is_pass draws cfg dn pass prev st) as [next st'].
    simpl in Hnext, Hl, Hc. subst next.
    destruct (IH (S pass) (Cpux.applyBaseRule (Cpux.ruleNumber cfg) prev)
                st' (k + 1)) as [Hrows Hfinal]; [lia | lia | exact Hl | exact Hc |].
    destruct (Cpux.is_rows draws cfg dn n (S pass)
                (Cpux.applyBaseRule (Cpux.ruleNumber cfg) prev) st')
      as [rows st''].
    simpl in Hrows, Hfinal. simpl. split; [rewrite Hrows; reflexivity | exact Hfinal].
Qed.

End Disabled.

(** C4. With an empty pattern set, injection probability 0 and a hold
    threshold at least the step count, the Intention-Space run gives the grid
    of the pure baseline run, row by row, from the same initial row (and from
    the same state of the random generator, which gives the same initial
    row), and no source proposes anything during the run: in the flat script
    the proposal and reflection arrays of every step stay at zero, in the
    ledger-based script the pulse ledger is empty at the end. *)
Theorem disabled_sources_give_baseline_grid (draws : nat -> Q)
    (p : Flat.Preset) (cfg : Cpux.Config) (row0 : list Z) (pos : nat) :
  unit_draws draws ->
  flat_sources_disabled p ->
  cpux_sources_disabled cfg ->
  (Flat.grid (Flat.runISVariant_from draws p row0 pos) = Flat.runCA_from p row0
   /\ Forall (flat_no_proposal (Flat.size p))
        (Flat.phases (Flat.runISVariant_from draws p row0 pos))
   /\ Flat.grid (Flat.runISVariant draws p pos) = fst (Flat.runCA draws p pos))
  /\ (fst (Cpux.runCPUX_ISVariant_from draws cfg row0 pos)
      = Cpux.runCPUX_CA_from cfg row0
      /\ Cpux.pulseLedger (snd (Cpux.runCPUX_ISVariant_from draws cfg row0 pos)) = []
      /\ fst (Cpux.runCPUX_ISVariant draws cfg pos)
         = fst (Cpux.runCPUX_CA draws cfg pos)
      /\ Cpux.pulseLedger (snd (Cpux.runCPUX_ISVariant draws cfg pos)) = []).
Proof.
  intros Hdraws (Hpat & Hprob & Hhold) (Hpat' & Hprob' & Hhold').
  assert (Hnonneg : forall k, (0 <= draws k)%Q) by (intros k; apply Hdraws).
  assert (Hp : (Flat.injectProb p <= 0)%Q) by (apply Qle_lteq; right; exact Hprob).
  assert (Hp' : (Cpux.cfg_injectProb cfg <= 0)%Q) by (apply Qle_lteq; right; exact Hprob').
  assert (Hflat : forall r q,
             Flat.grid (Flat.runISVariant_from draws p r q) = Flat.runCA_from p r
             /\ Forall (flat_no_proposal (Flat.size p))
                  (Flat.phases (Flat.runISVariant_from draws p r q))).
  { intros r q. unfold Flat.runISVariant_from, Flat.runCA_from.
    destruct (flat_is_rows_disabled draws Hnonneg p (Flat.steps p - 1) Hpat Hp
                r (replicate (Flat.size p) 0) q 0) as [Hrows Htr].
    - lia.
    - lia.
    - apply Forall_replicate. lia.
    - destruct (Flat.is_rows draws p (Flat.steps p - 1) r
                  (replicate (Flat.size p) 0) q) as [rows tr].
      simpl in *. split; [rewrite Hrows; reflexivity | exact Htr]. }
  assert (Hcpux : forall r q,
             fst (Cpux.runCPUX_ISVariant_from draws cfg r q)
             = Cpux.runCPUX_CA_from cfg r
             /\ Cpux.pulseLedger (snd (Cpux.runCPUX_ISVariant_from draws cfg r q)) = []).
  { intros r q. unfold Cpux.runCPUX_ISVariant_from, Cpux.runCPUX_CA_from.
    rewrite Hpat'.
    destruct (cpux_is_rows_disabled draws Hnonneg cfg
                (Cpux.makeDesignNodes [] (Cpux.cfg_injectProb cfg)
                   (Cpux.cfg_reflectionHold cfg))
                (Cpux.steps cfg - 1) eq_refl Hp' 1%nat r
                {| Cpux.pulseLedger := []; Cpux.consecOnes := None;
                   Cpux.cursor := q |} 0) as [Hrows Hl].
    - lia.
    - simpl. lia.
    - reflexivity.
    - simpl. discriminate.
    - destruct (Cpux.is_rows draws cfg _ (Cpux.steps cfg - 1) 1 r _) as [rows st].
      simpl in *. split; [rewrite Hrows; reflexivity | exact Hl]. }
  split.
  - destruct (Hflat row0 pos) as [Hg Hz]. split; [exact Hg | split; [exact Hz|]].
    unfold Flat.runISVariant, Flat.runCA.
    destruct (Flat.initRow draws (Flat.size p) (Flat.init p) pos) as [r q].
    simpl. apply Hflat.
  - destruct (Hcpux row0 pos) as [Hg Hz]. split; [exact Hg | split; [exact Hz|]].
    unfold Cpux.runCPUX_ISVariant, Cpux.runCPUX_CA.
    destruct (Cpux.initRow draws (Cpux.size cfg) (Cpux.initMode cfg) pos) as [r q].
    simpl. apply Hcpux.
Qed.

Lemma half_draws_unit : unit_draws half_draws.
Proof. intros k. unfold half_draws, Qle, Qlt. simpl. lia. Qed.

Lemma disabled_sources_give_baseline_grid_witness :
  let p := {| Flat.rule := 30; Flat.init := "single"; Flat.steps := 6;
              Flat.size := 7; Flat.cpiPatterns := [];
              Flat.injectProb := 0; Flat.reflectionHold := 6 |} in
  let cfg := {| Cpux.ruleNumber := 30; Cpux.size := 7; Cpux.steps := 6;
                Cpux.initMode := "single"; Cpux.cpiPatterns := [];
                Cpux.cfg_injectProb := 0; Cpux.cfg_reflectionHold := 6 |} in
  Flat.grid (Flat.runISVariant half_draws p 0) = fst (Flat.runCA half_draws p 0)
  /\ fst (Cpux.runCPUX_ISVariant half_draws cfg 0)
     = fst (Cpux.runCPUX_CA half_draws cfg 0).
Proof.
  intros p cfg.
  destruct (disabled_sources_give_baseline_grid half_draws p cfg [] 0%nat)
    as [(_ & _ & Hflat) (_ & _ & Hcpux & _)].
  - exact half_draws_unit.
  - unfold flat_sources_disabled, p. simpl. repeat split; try reflexivity; lia.
  - unfold cpux_sources_disabled, cfg. simpl. repeat split; try reflexivity; lia.
  - split; assumption.
Defined.
(** ** Merging overrides into the baseline row *)

Lemma arr_get_fmap_seq (g : nat -> Z) (n i : nat) :
  (i < n)%nat -> arr_get (g <$> seq 0 n) i = g i.
Proof.
  intros Hi. apply arr_get_lookup.
  rewrite list_lookup_fmap, lookup_seq_lt by exact Hi. reflexivity.
Qed.

Lemma ruleFn_bit (rule l c r : Z) : is_bit (ruleFn rule l c r).
Proof.
  unfold ruleFn, js_band. rewrite (toInt32_small 1) by lia.
  rewrite land_1_testbit.
  destruct (Z.testbit _ 0); [right | left]; reflexivity.
Qed.

Lemma cpux_applyBaseRule_fill (rule : Z) (prev : list Z) :
  Cpux.applyBaseRule rule prev
  = (fun i => ruleFn rule (arr_get prev (left_of i (length prev)))
                (arr_get prev i) (arr_get prev (right_of i (length prev))))
      <$> seq 0 (length prev).
Proof.
  unfold Cpux.applyBaseRule. rewrite <- fill_all.
  apply for_range_ext. intros next i _. reflexivity.
Qed.

(** Every row the base rule produces is a row of bits. *)
Lemma cpux_applyBaseRule_bits (rule : Z) (prev : list Z) :
  Forall is_bit (Cpux.applyBaseRule rule prev).
Proof.
  rewrite cpux_applyBaseRule_fill. apply Forall_fmap, Forall_forall.
  intros i _. apply ruleFn_bit.
Qed.

Lemma cpux_mergeOverride_cells (b o : list Z) :
  length (Cpux.mergeOverride b o) = length b
  /\ forall j, (j < length b)%nat ->
       arr_get (Cpux.mergeOverride b o) j
       = if truthy (arr_get o j) then 1 else arr_get b j.
Proof.
  unfold Cpux.mergeOverride.
  pose (I := fun (k : nat) (next : list Z) =>
               length next = length b
               /\ forall j, arr_get next j
                  = if bool_decide (j < k)%nat && truthy (arr_get o j)
                    then 1 else arr_get b j).
  enough (H : I (length b)
                (for_range (length b)
                   (fun next i =>
                      if truthy (arr_get o i) then arr_set next i 1 else next) b)).
  { destruct H as [Hlen Hget]. split; [exact Hlen|]. intros j Hj.
    rewrite Hget, bool_decide_true by exact Hj. reflexivity. }
  apply (for_range_invariant I); subst I; cbv beta.
  - split; [reflexivity|]. intros j.
    rewrite bool_decide_false by lia. reflexivity.
  - intros i next Hi [Hlen Hget].
    destruct (truthy (arr_get o i)) eqn:Ho.
    + split; [rewrite length_arr_set by lia; exact Hlen|].
      intros j. destruct (decide (i = j)) as [<- | Hne].
      * rewrite arr_get_set_eq, bool_decide_true, Ho by lia. reflexivity.
      * rewrite arr_get_set_ne, Hget by exact Hne.
        destruct (decide (j < i)%nat).
        -- rewrite !bool_decide_true by lia. reflexivity.
        -- rewrite !bool_decide_false by lia. reflexivity.
    + split; [exact Hlen|]. intros j. rewrite Hget.
      destruct (decide (i = j)) as [<- | Hne].
      * rewrite bool_decide_false, bool_decide_true, Ho by lia. reflexivity.
      * destruct (decide (j < i)%nat).
        -- rewrite !bool_decide_true by lia. reflexivity.
        -- rewrite !bool_decide_false by lia. reflexivity.
Qed.

Lemma flat_phaseB_fill (p : Flat.Preset) (prev proposal reflection : list Z) :
  Flat.phaseB p prev proposal reflection
  = (fun i => if truthy (arr_get proposal i) || truthy (arr_get reflection i)
              then 1
              else ruleFn (Flat.rule p) (arr_get prev (left_of i (Flat.size p)))
                     (arr_get prev i) (arr_get prev (right_of i (Flat.size p))))
      <$> seq 0 (Flat.size p).
Proof.
  unfold Flat.phaseB. rewrite <- fill_all.
  apply for_range_ext. intros next i _.
  destruct (truthy (arr_get proposal i) || truthy (arr_get reflection i));
    reflexivity.
Qed.

Lemma flat_ca_next_fill (rule : Z) (size : nat) (prev : list Z) :
  Flat.ca_next rule size prev
  = (fun i => ruleFn rule (arr_get prev (left_of i size)) (arr_get prev i)
                (arr_get prev (right_of i size)))
      <$> seq 0 size.
Proof. unfold Flat.ca_next. rewrite <- fill_all. reflexivity. Qed.

(** C10. Merging an override map into a baseline row of bits gives 1
    wherever the override is set and the baseline value everywhere else, so
    the merged row is pointwise at least the baseline: an override forces a
    cell to 1, never to 0. The same holds of phase B of the flat script,
    whose baseline is the row of the base rule. *)
Theorem mergeOverride_only_raises (b o : list Z) (p : Flat.Preset)
    (prev proposal reflection : list Z) (i : nat) :
  length o = length b ->
  Forall is_bit b ->
  (i < length b)%nat ->
  (i < Flat.size p)%nat ->
  let m := Cpux.mergeOverride b o in
  let m' := Flat.phaseB p prev proposal reflection in
  let b' := Flat.ca_next (Flat.rule p) (Flat.size p) prev in
  (length m = length b
   /\ (truthy (arr_get o i) = true -> arr_get m i = 1)
   /\ (truthy (arr_get o i) = false -> arr_get m i = arr_get b i)
   /\ arr_get b i <= arr_get m i)
  /\ ((truthy (arr_get proposal i) || truthy (arr_get reflection i) = true ->
       arr_get m' i = 1)
      /\ (truthy (arr_get proposal i) || truthy (arr_get reflection i) = false ->
          arr_get m' i = arr_get b' i)
      /\ arr_get b' i <= arr_get m' i).
Proof.
  intros Hlen Hbits Hi Hi' m m' b'. split.
  - destruct (cpux_mergeOverride_cells b o) as [Hl Hget].
    specialize (Hget i Hi). fold m in Hl, Hget.
    assert (Hb : is_bit (arr_get b i)) by (apply Forall_arr_get; [left; reflexivity | exact Hbits]).
    split; [exact Hl|]. rewrite Hget.
    destruct (truthy (arr_get o i)); repeat split; try discriminate; try reflexivity.
    destruct Hb as [-> | ->]; lia.
  - subst m' b'. rewrite flat_phaseB_fill, flat_ca_next_fill.
    rewrite !arr_get_fmap_seq by exact Hi'.
    pose proof (ruleFn_bit (Flat.rule p) (arr_get prev (left_of i (Flat.size p)))
                  (arr_get prev i) (arr_get prev (right_of i (Flat.size p)))) as Hb.
    destruct (truthy (arr_get proposal i) || truthy (arr_get reflection i));
      repeat split; try discriminate; try reflexivity.
    destruct Hb as [-> | ->]; lia.
Qed.

Lemma mergeOverride_only_raises_witness :
  let p := {| Flat.rule := 0; Flat.init := "single"; Flat.steps := 2;
              Flat.size := 3; Flat.cpiPatterns := [];
              Flat.injectProb := 0; Flat.reflectionHold := 9 |} in
  Cpux.mergeOverride [0; 1; 0] [1; 0; 0] = [1; 1; 0]
  /\ arr_get [0; 1; 0] 0 <= arr_get (Cpux.mergeOverride [0; 1; 0] [1; 0; 0]) 0
  /\ arr_get (Flat.phaseB p [0; 1; 0] [0; 0; 0] [1; 0; 0]) 0 = 1.
Proof.
  intros p.
  destruct (mergeOverride_only_raises [0; 1; 0] [1; 0; 0] p [0; 1; 0] [0; 0; 0]
              [1; 0; 0] 0%nat) as [(_ & _ & _ & Hle) (Hone & _)].
  - reflexivity.
  - repeat constructor; unfold is_bit; lia.
  - simpl; lia.
  - simpl; lia.
  - split; [reflexivity | split; [exact Hle | apply Hone; reflexivity]].
Defined.
(** ** Resolution by precedence (class-based script) *)

Lemma cell_id_inj (i j : nat) : Classy.cell_id i = Classy.cell_id j -> i = j.
Proof.
  unfold Classy.cell_id. intros H.
  apply (inj (String.app "cell:")) in H. apply (inj pretty) in H. exact H.
Qed.

Lemma last_with_id_Some (pid : string) (ps : list Classy.Pulse) (p : Classy.Pulse) :
  last_with_id pid ps = Some p -> p ∈ ps /\ Classy.id p = pid.
Proof.
  unfold last_with_id. intros H. apply last_Some_elem_of in H.
  apply list_elem_of_filter in H. tauto.
Qed.

Lemma last_with_id_None (pid : string) (ps : list Classy.Pulse) :
  last_with_id pid ps = None -> forall p, p ∈ ps -> Classy.id p <> pid.
Proof.
  unfold last_with_id. intros H p Hp Hid. apply last_None in H.
  assert (Hin : p ∈ filter (fun p => Classy.id p = pid) ps)
    by (apply list_elem_of_filter; tauto).
  rewrite H in Hin. inversion Hin.
Qed.

(** The bucket of a kind after its pulses were set one by one. *)
Lemma bucket_lookup (ps : list Classy.Pulse) (m0 : gmap string Classy.Pulse)
    (pid : string) :
  foldl (fun m p => <[Classy.id p := p]> m) m0 ps !! pid
  = match last_with_id pid ps with
    | Some p => Some p
    | None => m0 !! pid
    end.
Proof.
  induction ps as [|p ps IH] using rev_ind; [reflexivity|].
  rewrite foldl_app. cbn [foldl]. unfold last_with_id.
  rewrite filter_app. destruct (decide (Classy.id p = pid)) as [Hid|Hid].
  - rewrite filter_cons_True, filter_nil, last_snoc by exact Hid. subst pid.
    apply lookup_insert_eq.
  - rewrite filter_cons_False, filter_nil, app_nil_r by exact Hid.
    rewrite lookup_insert_ne by exact Hid. apply IH.
Qed.

Lemma init_byKind_lookup (precedence : list string) (k : string) :
  Classy.init_byKind precedence !! k
  = if decide (k ∈ precedence) then Some ∅ else None.
Proof.
  unfold Classy.init_byKind.
  induction precedence as [|x l IH] using rev_ind.
  - rewrite decide_False by (apply not_elem_of_nil). reflexivity.
  - rewrite foldl_app. cbn [foldl]. destruct (decide (x = k)) as [->|Hne].
    + rewrite lookup_insert_eq, decide_True by (apply elem_of_app; right; left).
      reflexivity.
    + rewrite lookup_insert_ne, IH by exact Hne.
      destruct (decide (k ∈ l)) as [Hin|Hin].
      * rewrite decide_True by (apply elem_of_app; left; exact Hin). reflexivity.
      * rewrite decide_False; [reflexivity|].
        rewrite elem_of_app, list_elem_of_singleton. intros [?|?]; congruence.
Qed.

Lemma pulses_of_kind_app (k : string) (l1 l2 : list (string * Classy.Pulse)) :
  pulses_of_kind k (l1 ++ l2) = pulses_of_kind k l1 ++ pulses_of_kind k l2.
Proof. unfold pulses_of_kind. rewrite filter_app, fmap_app. reflexivity. Qed.

Lemma pulses_of_kind_tagged (k k' : string) (ps : list Classy.Pulse) :
  pulses_of_kind k ((fun p => (k', p)) <$> ps) = if decide (k' = k) then ps else [].
Proof.
  unfold pulses_of_kind. induction ps as [|p ps IH]; [destruct (decide _); reflexivity|].
  rewrite fmap_cons. destruct (decide (k' = k)) as [Hk|Hk].
  - rewrite filter_cons_True by exact Hk. rewrite fmap_cons, IH. reflexivity.
  - rewrite filter_cons_False by exact Hk. exact IH.
Qed.

Lemma elem_of_pulses_of_kind (k : string) (props : list (string * Classy.Pulse))
    (p : Classy.Pulse) :
  p ∈ pulses_of_kind k props <-> (k, p) ∈ props.
Proof.
  unfold pulses_of_kind. rewrite list_elem_of_fmap. split.
  - intros [[k' q] [-> Hin]]. apply list_elem_of_filter in Hin.
    destruct Hin as [Hk Hin]. simpl in *. subst k'. exact Hin.
  - intros Hin. exists (k, p). split; [reflexivity|].
    apply list_elem_of_filter. split; [reflexivity | exact Hin].
Qed.

(** The buckets after all intentions were absorbed: a kind of the precedence
    list holds, for each id, the last pulse of that kind with the id. *)
Lemma build_byKind_lookup (o : Classy.ObjectField) (its : list Classy.Intention)
    (byKind0 : gmap string (gmap string Classy.Pulse)) (k : string) :
  foldl (Classy.bucket_intention (Classy.objectId o)) byKind0 its !! k
  = (fun m0 => foldl (fun m p => <[Classy.id p := p]> m) m0
                 (pulses_of_kind k (proposals o its)))
      <$> byKind0 !! k.
Proof.
  revert byKind0. induction its as [|it its IH]; intros byKind0.
  - simpl. destruct (byKind0 !! k); reflexivity.
  - cbn [foldl]. rewrite IH. unfold proposals at 2. rewrite bind_cons.
    fold (proposals o its). rewrite pulses_of_kind_app.
    unfold Classy.bucket_intention.
    destruct (decide (Classy.toObject it = Classy.objectId o)) as [Hto|Hto].
    + rewrite bool_decide_false by (intros Hne; apply Hne, Hto).
      rewrite pulses_of_kind_tagged.
      destruct (byKind0 !! Classy.kind it) as [m|] eqn:Hm.
      * destruct (decide (Classy.kind it = k)) as [<-|Hk].
        -- rewrite lookup_insert_eq, Hm. simpl. rewrite foldl_app. reflexivity.
        -- rewrite lookup_insert_ne by exact Hk. reflexivity.
      * destruct (decide (Classy.kind it = k)) as [<-|Hk]; [|reflexivity].
        rewrite Hm. reflexivity.
    + rewrite bool_decide_true by exact Hto. reflexivity.
Qed.

Lemma choose_top_proposal (o : Classy.ObjectField) (its : list Classy.Intention)
    (l : list string) (pid : string) :
  (forall k, k ∈ l -> k ∈ Classy.precedence o) ->
  Classy.choose l (Classy.build_byKind o its) pid
  = top_proposal l (proposals o its) pid.
Proof.
  intros Hl. induction l as [|k rest IH]; [reflexivity|].
  cbn [Classy.choose top_proposal]. unfold Classy.build_byKind at 1.
  rewrite build_byKind_lookup, init_byKind_lookup.
  rewrite decide_True by (apply Hl; left). cbn [fmap option_fmap option_map].
  rewrite bucket_lookup, lookup_empty.
  rewrite IH by (intros k' Hk'; apply Hl; right; exact Hk').
  destruct (last_with_id pid (pulses_of_kind k (proposals o its))); reflexivity.
Qed.

Lemma next_map_lookup (g : nat -> Classy.Pulse) (n i : nat) :
  for_range n (fun (next : gmap string Classy.Pulse) j =>
                 <[Classy.cell_id j := g j]> next) ∅ !! Classy.cell_id i
  = if decide (i < n)%nat then Some (g i) else None.
Proof.
  induction n as [|n IH].
  - rewrite decide_False by lia. apply lookup_empty.
  - rewrite for_range_S. destruct (decide (n = i)) as [->|Hne].
    + rewrite lookup_insert_eq, decide_True by lia. reflexivity.
    + rewrite lookup_insert_ne by (intros H; apply Hne, cell_id_inj, H).
      rewrite IH. destruct (decide (i < n)%nat).
      * rewrite decide_True by lia. reflexivity.
      * rewrite decide_False by lia. reflexivity.
Qed.

(** The value a cell takes after [absorbIntentionsAndAdvance]. *)
Lemma readCell_absorb (o : Classy.ObjectField) (f : Classy.Field)
    (its : list Classy.Intention) (i : nat) :
  (i < Classy.size f)%nat ->
  Classy.readCell (Classy.absorbIntentionsAndAdvance o f its) i
  = match top_proposal (Classy.precedence o) (proposals o its) (Classy.cell_id i) with
    | Some p => Classy.value p
    | None => 0
    end.
Proof.
  intros Hi. unfold Classy.readCell, Classy.absorbIntentionsAndAdvance.
  cbn [Classy.setNextState Classy.current].
  rewrite (next_map_lookup
             (fun j => match Classy.choose (Classy.precedence o)
                               (Classy.build_byKind o its) (Classy.cell_id j) with
                       | Some p => p
                       | None => {| Classy.id := Classy.cell_id j; Classy.value := 0 |}
                       end)).
  rewrite decide_True by exact Hi.
  rewrite choose_top_proposal by auto.
  destruct (top_proposal _ _ _); reflexivity.
Qed.

Lemma last_with_id_is_Some (pid : string) (ps : list Classy.Pulse) (p : Classy.Pulse) :
  p ∈ ps -> Classy.id p = pid -> is_Some (last_with_id pid ps).
Proof.
  intros Hp Hid. destruct (last_with_id pid ps) as [q|] eqn:E; [eauto|].
  exfalso. exact (last_with_id_None pid ps E p Hp Hid).
Qed.

(** The resolution picks a proposal of the highest-ranked kind that has one
    for the cell. *)
Lemma top_proposal_highest (precedence : list string)
    (props : list (string * Classy.Pulse)) (k : string) (i : nat) :
  is_Some (rank precedence k) ->
  targets props k i ->
  (forall k', ranked_above precedence k' k -> ~ targets props k' i) ->
  exists q, top_proposal precedence props (Classy.cell_id i) = Some q
            /\ (k, q) ∈ props /\ Classy.id q = Classy.cell_id i.
Proof.
  intros Hrank (p & Hp & Hid). induction precedence as [|x rest IH]; intros Htop.
  - destruct Hrank as [r Hr]. discriminate.
  - cbn [top_proposal]. cbn [rank] in Hrank.
    destruct (decide (x = k)) as [->|Hne].
    + destruct (last_with_id_is_Some (Classy.cell_id i)
                  (pulses_of_kind k props) p) as [q Hq];
        [apply elem_of_pulses_of_kind; exact Hp | exact Hid |].
      rewrite Hq. exists q. apply last_with_id_Some in Hq.
      rewrite elem_of_pulses_of_kind in Hq. tauto.
    + destruct Hrank as [r Hr]. destruct (rank rest k) as [r'|] eqn:Hr'; [|discriminate].
      destruct (last_with_id (Classy.cell_id i) (pulses_of_kind x props))
        as [q|] eqn:Hq.
      * exfalso. apply (Htop x).
        -- unfold ranked_above. cbn [rank].
           rewrite decide_True by reflexivity. rewrite decide_False by exact Hne.
           rewrite Hr'. simpl. lia.
        -- apply last_with_id_Some in Hq. rewrite elem_of_pulses_of_kind in Hq.
           exists q. exact Hq.
      * apply IH; [eauto|]. intros k' Hk' Hk't.
        destruct (decide (x = k')) as [->|Hxk'].
        -- apply (Htop k'); [|exact Hk't].
           unfold ranked_above. cbn [rank].
           rewrite decide_True by reflexivity. rewrite decide_False by exact Hne.
           rewrite Hr'. simpl. lia.
        -- apply (Htop k'); [|exact Hk't].
           unfold ranked_above in *. cbn [rank].
           rewrite decide_False by exact Hxk'. rewrite decide_False by exact Hne.
           destruct (rank rest k') as [s|]; [|contradiction].
           rewrite Hr' in *. simpl. lia.
Qed.

(** More exactly, it picks the last proposal appended for the cell among
    those of that kind. *)
Lemma top_proposal_is_last (precedence : list string)
    (props : list (string * Classy.Pulse)) (k : string) (i : nat) :
  is_Some (rank precedence k) ->
  targets props k i ->
  (forall k', ranked_above precedence k' k -> ~ targets props k' i) ->
  top_proposal precedence props (Classy.cell_id i)
  = last_with_id (Classy.cell_id i) (pulses_of_kind k props).
Proof.
  intros Hrank (p & Hp & Hid). induction precedence as [|x rest IH]; intros Htop.
  - destruct Hrank as [r Hr]. discriminate.
  - cbn [top_proposal]. cbn [rank] in Hrank.
    destruct (decide (x = k)) as [->|Hne].
    + destruct (last_with_id_is_Some (Classy.cell_id i)
                  (pulses_of_kind k props) p) as [q Hq];
        [apply elem_of_pulses_of_kind; exact Hp | exact Hid |].
      rewrite Hq. reflexivity.
    + destruct Hrank as [r Hr]. destruct (rank rest k) as [r'|] eqn:Hr'; [|discriminate].
      destruct (last_with_id (Classy.cell_id i) (pulses_of_kind x props))
        as [q|] eqn:Hq.
      * exfalso. apply (Htop x).
        -- unfold ranked_above. cbn [rank].
           rewrite decide_True by reflexivity. rewrite decide_False by exact Hne.
           rewrite Hr'. simpl. lia.
        -- apply last_with_id_Some in Hq. rewrite elem_of_pulses_of_kind in Hq.
           exists q. exact Hq.
      * apply IH; [eauto|]. intros k' Hk' Hk't.
        destruct (decide (x = k')) as [->|Hxk'].
        -- apply (Htop k'); [|exact Hk't].
           unfold ranked_above. cbn [rank].
           rewrite decide_True by reflexivity. rewrite decide_False by exact Hne.
           rewrite Hr'. simpl. lia.
        -- apply (Htop k'); [|exact Hk't].
           unfold ranked_above in *. cbn [rank].
           rewrite decide_False by exact Hxk'. rewrite decide_False by exact Hne.
           destruct (rank rest k') as [s|]; [|contradiction].
           rewrite Hr' in *. simpl. lia.
Qed.

(** *** Overrides of the ledger-based script *)

Lemma buildOverrideMapForPass_set (ledger : list Cpux.Pulse) (pass size j : nat) :
  truthy (arr_get (Cpux.buildOverrideMapForPass ledger pass size) j) = true
  <-> exists p, p ∈ ledger /\ Cpux.passIndex p = pass /\ Cpux.targetIndex p = j.
Proof.
  unfold Cpux.buildOverrideMapForPass.
  induction ledger as [|p ledger IH] using rev_ind.
  - cbn [foldl]. rewrite arr_get_replicate. split; [discriminate|].
    intros (p & Hp & _). inversion Hp.
  - rewrite foldl_app. cbn [foldl].
    destruct (decide (Cpux.passIndex p = pass)) as [Hpass|Hpass].
    + rewrite bool_decide_false by (intros Hne; apply Hne, Hpass).
      destruct (decide (Cpux.targetIndex p = j)) as [Hj|Hj].
      * rewrite Hj, arr_get_set_eq. split; [|reflexivity].
        intros _. exists p. rewrite elem_of_app, list_elem_of_singleton. tauto.
      * rewrite arr_get_set_ne, IH by exact Hj. split.
        -- intros (q & Hq & Hq'). exists q. rewrite elem_of_app. tauto.
        -- intros (q & Hq & Hqp & Hqj). exists q.
           rewrite elem_of_app, list_elem_of_singleton in Hq.
           destruct Hq as [Hq | ->]; [tauto | contradiction].
    + rewrite bool_decide_true by exact Hpass. rewrite IH. split.
      * intros (q & Hq & Hq'). exists q. rewrite elem_of_app. tauto.
      * intros (q & Hq & Hqp & Hqj). exists q.
        rewrite elem_of_app, list_elem_of_singleton in Hq.
        destruct Hq as [Hq | ->]; [tauto | contradiction].
Qed.

(** C1. In the class-based script, when the proposals for a cell include a
    baseline proposal and a proposal of a kind ranked above baseline in the
    configured precedence list, the cell resolves to the value of the
    proposal appended last for that cell among those of the highest-ranked
    kind present for it. Reordering the proposals keeps the result inside
    the values proposed by that kind for the cell, and keeps it unchanged
    when the last proposal of that kind for the cell stays the same, or when
    all the proposals of that kind for the cell carry one value. In the flat
    script a cell marked in the proposal or in the reflection array is set
    to 1 by phase B, and in the ledger-based script a cell targeted by a
    pulse of the pass resolves to 1 over the baseline row [b], in whatever
    order the ledger holds its pulses. *)
Theorem precedence_law (o : Classy.ObjectField) (f : Classy.Field)
    (its : list Classy.Intention) (i : nat) (k : string)
    (p pb : Classy.Pulse) :
  (i < Classy.size f)%nat ->
  ("baseline", pb) ∈ proposals o its -> Classy.id pb = Classy.cell_id i ->
  (k, p) ∈ proposals o its -> Classy.id p = Classy.cell_id i ->
  ranked_above (Classy.precedence o) k "baseline" ->
  (forall k', ranked_above (Classy.precedence o) k' k ->
              ~ targets (proposals o its) k' i) ->
  let v := fun its0 =>
             Classy.readCell (Classy.absorbIntentionsAndAdvance o f its0) i in
  let last_of := fun its0 =>
                   last_with_id (Classy.cell_id i)
                     (pulses_of_kind k (proposals o its0)) in
  (exists q, last_of its = Some q /\ v its = Classy.value q)
  /\ (forall its', proposals o its' ≡ₚ proposals o its ->
        (exists q, (k, q) ∈ proposals o its /\ Classy.id q = Classy.cell_id i
                   /\ v its' = Classy.value q)
        /\ (last_of its' = last_of its -> v its' = v its)
        /\ ((forall q, (k, q) ∈ proposals o its -> Classy.id q = Classy.cell_id i ->
                       Classy.value q = Classy.value p) ->
            v its' = Classy.value p))
  /\ (forall (fp : Flat.Preset) (prev proposal reflection : list Z),
        (i < Flat.size fp)%nat ->
        truthy (arr_get proposal i) || truthy (arr_get reflection i) = true ->
        arr_get (Flat.phaseB fp prev proposal reflection) i = 1)
  /\ (forall (ledger ledger' : list Cpux.Pulse) (u : Cpux.Pulse) (b : list Z)
             (size : nat),
        ledger' ≡ₚ ledger ->
        u ∈ ledger -> Cpux.targetIndex u = i -> (i < length b)%nat ->
        arr_get (Cpux.mergeOverride b
                   (Cpux.buildOverrideMapForPass ledger' (Cpux.passIndex u) size)) i
        = 1).
Proof.
  intros Hi Hpb Hpbid Hp Hpid Habove Htop v last_of.
  assert (Hrank : is_Some (rank (Classy.precedence o) k)).
  { unfold ranked_above in Habove.
    destruct (rank (Classy.precedence o) k); [eauto | contradiction]. }
  assert (Hlast : forall its', proposals o its' ≡ₚ proposals o its ->
            exists q, last_of its' = Some q /\ v its' = Classy.value q
                      /\ (k, q) ∈ proposals o its
                      /\ Classy.id q = Classy.cell_id i).
  { intros its' Hperm. subst v last_of. cbv beta.
    rewrite readCell_absorb by exact Hi.
    rewrite (top_proposal_is_last (Classy.precedence o) (proposals o its') k i Hrank).
    - destruct (last_with_id_is_Some (Classy.cell_id i)
                  (pulses_of_kind k (proposals o its')) p) as [q Hq];
        [apply elem_of_pulses_of_kind; rewrite Hperm; exact Hp | exact Hpid |].
      rewrite Hq. exists q. split; [reflexivity|]. split; [reflexivity|].
      apply last_with_id_Some in Hq. rewrite elem_of_pulses_of_kind in Hq.
      rewrite Hperm in Hq. exact Hq.
    - exists p. rewrite Hperm. split; assumption.
    - intros k' Hk' (q & Hq & Hqid). apply (Htop k' Hk').
      exists q. rewrite <- Hperm. split; assumption. }
  split; [|split; [|split]].
  - destruct (Hlast its (reflexivity _)) as (q & Hq & Hv & _).
    exists q. split; assumption.
  - intros its' Hperm.
    destruct (Hlast its' Hperm) as (q & Hq & Hv & Hqin & Hqid).
    split; [|split].
    + exists q. split; [exact Hqin|]. split; [exact Hqid | exact Hv].
    + intros Hsame. destruct (Hlast its (reflexivity _)) as (q0 & Hq0 & Hv0 & _).
      rewrite Hv, Hv0. rewrite Hsame, Hq0 in Hq. injection Hq as ->. reflexivity.
    + intros Hagree. rewrite Hv. apply Hagree; assumption.
  - intros fp prev proposal reflection Hif Hmark.
    rewrite flat_phaseB_fill, arr_get_fmap_seq by exact Hif.
    rewrite Hmark. reflexivity.
  - intros ledger ledger' u b size Hperm' Hu Hui Hib.
    destruct (cpux_mergeOverride_cells b
                (Cpux.buildOverrideMapForPass ledger' (Cpux.passIndex u) size))
      as [_ Hget].
    rewrite Hget by exact Hib.
    assert (Hset : truthy (arr_get (Cpux.buildOverrideMapForPass ledger'
                                      (Cpux.passIndex u) size) i) = true).
    { apply buildOverrideMapForPass_set. exists u. rewrite Hperm'. auto. }
    rewrite Hset. reflexivity.
Qed.

Lemma precedence_law_witness :
  Classy.readCell
    (Classy.absorbIntentionsAndAdvance demo_object (Classy.new_Field 2)
       [demo_baseline; demo_proposal]) 0 = 1
  /\ Classy.readCell
       (Classy.absorbIntentionsAndAdvance demo_object (Classy.new_Field 2)
          [demo_proposal; demo_baseline]) 0 = 1
  /\ arr_get (Flat.phaseB (scenario_101 2) [1; 0; 1; 0; 0] [0; 1; 0; 0; 0]
                [0; 0; 0; 0; 0]) 1 = 1
  /\ arr_get (Cpux.mergeOverride [0; 0]
                (Cpux.buildOverrideMapForPass [demo_pulse] 1 2)) 0 = 1.
Proof.
  pose (p := {| Classy.id := "cell:0"; Classy.value := 1 |}).
  pose (pb := {| Classy.id := "cell:0"; Classy.value := 0 |}).
  assert (Hin : ("proposal", p) ∈ proposals demo_object [demo_proposal; demo_baseline]
                /\ ("baseline", pb) ∈ proposals demo_object [demo_proposal; demo_baseline]).
  { vm_compute. split; repeat constructor. }
  assert (Htop : forall k', ranked_above (Classy.precedence demo_object) k' "proposal" ->
                            ~ targets (proposals demo_object [demo_proposal; demo_baseline]) k' 0).
  { intros k'. unfold ranked_above.
    destruct (rank (Classy.precedence demo_object) k'); [|contradiction].
    vm_compute. lia. }
  assert (Hsingle : forall q,
             ("proposal", q) ∈ proposals demo_object [demo_proposal; demo_baseline] ->
             Classy.id q = Classy.cell_id 0 -> Classy.value q = Classy.value p).
  { intros q Hq _. vm_compute in Hq.
    repeat (apply elem_of_cons in Hq; destruct Hq as [Hq|Hq]; [inversion Hq; subst|]);
      try discriminate; try reflexivity.
    inversion Hq. }
  assert (Hl : demo_pulse ∈ [demo_pulse]) by (left).
  assert (Hrank : ranked_above (Classy.precedence demo_object) "proposal" "baseline")
    by (vm_compute; lia).
  assert (Hswap : proposals demo_object [demo_baseline; demo_proposal]
                  ≡ₚ proposals demo_object [demo_proposal; demo_baseline])
    by (vm_compute; solve_Permutation).
  assert (Hsize : (0 < Classy.size (Classy.new_Field 2))%nat) by (simpl; lia).
  pose proof (precedence_law demo_object (Classy.new_Field 2)
                [demo_proposal; demo_baseline] 0%nat "proposal" p pb
                Hsize (proj2 Hin) eq_refl (proj1 Hin) eq_refl Hrank Htop) as Hlaw.
  cbv zeta in Hlaw. destruct Hlaw as (_ & Hperm & Hflat & Hledger).
  split; [|split; [|split]].
  - exact (proj2 (proj2 (Hperm [demo_baseline; demo_proposal] Hswap)) Hsingle).
  - exact (proj2 (proj2 (Hperm [demo_proposal; demo_baseline] (reflexivity _))) Hsingle).
  - pose proof (precedence_law demo_object (Classy.new_Field 2)
                  [{| Classy.fromDN := "DN_cpi"; Classy.toObject := "O_field";
                      Classy.kind := "proposal";
                      Classy.pulses := [{| Classy.id := "cell:1"; Classy.value := 1 |}] |};
                   demo_baseline] 1%nat "proposal"
                  {| Classy.id := "cell:1"; Classy.value := 1 |}
                  {| Classy.id := "cell:1"; Classy.value := 0 |}) as Hlaw1.
    cbv zeta in Hlaw1.
    refine (proj1 (proj2 (proj2 (Hlaw1 _ _ _ _ _ _ _)))
              (scenario_101 2) [1; 0; 1; 0; 0] [0; 1; 0; 0; 0] [0; 0; 0; 0; 0] _ _).
    + simpl; lia.
    + vm_compute. repeat constructor.
    + reflexivity.
    + vm_compute. repeat constructor.
    + reflexivity.
    + vm_compute; lia.
    + intros k'. unfold ranked_above.
      destruct (rank (Classy.precedence demo_object) k'); [|contradiction].
      vm_compute. lia.
    + simpl; lia.
    + reflexivity.
  - refine (Hledger [demo_pulse] [demo_pulse] demo_pulse [0; 0] 2%nat
              (reflexivity _) Hl eq_refl _).
    simpl; lia.
Defined.

(** The same proposals in two orders: two proposals of the highest-ranked
    kind for cell 0, one of value 1 and one of value 0, over a baseline. The
    cell takes the value of the one appended last, so the two orders give
    two rows. *)
Lemma precedence_depends_on_order :
  let other := {| Classy.fromDN := "DN_other"; Classy.toObject := "O_field";
                  Classy.kind := "proposal";
                  Classy.pulses := [{| Classy.id := "cell:0"; Classy.value := 0 |}] |} in
  proposals demo_object [other; demo_proposal; demo_baseline]
  ≡ₚ proposals demo_object [demo_proposal; other; demo_baseline]
  /\ Classy.readCell
       (Classy.absorbIntentionsAndAdvance demo_object (Classy.new_Field 2)
          [demo_proposal; other; demo_baseline]) 0 = 0
  /\ Classy.readCell
       (Classy.absorbIntentionsAndAdvance demo_object (Classy.new_Field 2)
          [other; demo_proposal; demo_baseline]) 0 = 1.
Proof.
  intros other. split; [|split].
  - vm_compute. solve_Permutation.
  - vm_compute. reflexivity.
  - vm_compute. reflexivity.
Qed.
(** ** A cell no proposal targets *)

Lemma top_proposal_none (precedence : list string)
    (props : list (string * Classy.Pulse)) (i : nat) :
  (forall k, k ∈ precedence -> ~ targets props k i) ->
  top_proposal precedence props (Classy.cell_id i) = None.
Proof.
  induction precedence as [|k rest IH]; intros Hnone; [reflexivity|].
  cbn [top_proposal].
  destruct (last_with_id (Classy.cell_id i) (pulses_of_kind k props)) as [q|] eqn:Hq.
  - exfalso. apply (Hnone k); [left|].
    apply last_with_id_Some in Hq. rewrite elem_of_pulses_of_kind in Hq.
    exists q. exact Hq.
  - apply IH. intros k' Hk'. apply Hnone. right. exact Hk'.
Qed.

(** C3, as the code has it. When no proposal of a configured kind targets a
    cell, [absorbIntentionsAndAdvance] does not fail: the cell gets a fresh
    pulse of value 0, and reads as 0 in the next state. *)
Theorem missing_cell_defaults_to_zero (o : Classy.ObjectField) (f : Classy.Field)
    (its : list Classy.Intention) (i : nat) :
  (i < Classy.size f)%nat ->
  (forall k, k ∈ Classy.precedence o -> ~ targets (proposals o its) k i) ->
  Classy.current (Classy.absorbIntentionsAndAdvance o f its) !! Classy.cell_id i
  = Some {| Classy.id := Classy.cell_id i; Classy.value := 0 |}
  /\ Classy.readCell (Classy.absorbIntentionsAndAdvance o f its) i = 0.
Proof.
  intros Hi Hnone.
  pose proof (top_proposal_none _ _ _ Hnone) as Htop. split.
  - unfold Classy.absorbIntentionsAndAdvance.
    cbn [Classy.setNextState Classy.current].
    rewrite (next_map_lookup
               (fun j => match Classy.choose (Classy.precedence o)
                                 (Classy.build_byKind o its) (Classy.cell_id j) with
                         | Some p => p
                         | None => {| Classy.id := Classy.cell_id j; Classy.value := 0 |}
                         end)).
    rewrite decide_True by exact Hi.
    rewrite choose_top_proposal, Htop by auto. reflexivity.
  - rewrite readCell_absorb, Htop by exact Hi. reflexivity.
Qed.

Lemma missing_cell_defaults_to_zero_witness :
  Classy.readCell
    (Classy.absorbIntentionsAndAdvance demo_object (Classy.new_Field 2)
       [demo_proposal]) 1 = 0.
Proof.
  refine (proj2 (missing_cell_defaults_to_zero demo_object (Classy.new_Field 2)
                   [demo_proposal] 1%nat _ _)).
  - simpl; lia.
  - intros k _ (q & Hq & Hid). vm_compute in Hq.
    apply list_elem_of_singleton in Hq. inversion Hq; subst q. discriminate Hid.
Defined.

(** C3 as stated fails: with no intention at all, resolution returns
    normally and cell 0 holds a default pulse of value 0. *)
Lemma missing_cell_is_not_an_error :
  let f' := Classy.absorbIntentionsAndAdvance demo_object (Classy.new_Field 1) [] in
  proposals demo_object [] = []
  /\ Classy.current f' !! "cell:0"
     = Some {| Classy.id := "cell:0"; Classy.value := 0 |}
  /\ Classy.snapshotRow f' = [0].
Proof. vm_compute. repeat split. Qed.

(** ** Replacing the state of the field *)

Lemma snapshotRow_fill (f : Classy.Field) :
  Classy.snapshotRow f = Classy.readCell f <$> seq 0 (Classy.size f).
Proof. unfold Classy.snapshotRow. apply fill_all. Qed.

(** C9, as the code has it. [setNextState] checks nothing and never fails:
    whatever the size of the new pulse map, the current state becomes exactly
    that map and the size of the field is kept; a snapshot then reads every
    cell of the field from the new map, a cell the map lacks as 0. *)
Theorem setNextState_replaces_unchecked (f : Classy.Field)
    (nextPulseMap : gmap string Classy.Pulse) :
  Classy.current (Classy.setNextState f nextPulseMap) = nextPulseMap
  /\ Classy.size (Classy.setNextState f nextPulseMap) = Classy.size f
  /\ Classy.snapshotRow (Classy.setNextState f nextPulseMap)
     = (fun i => match nextPulseMap !! Classy.cell_id i with
                 | Some p => Classy.value p
                 | None => 0
                 end) <$> seq 0 (Classy.size f).
Proof.
  split; [reflexivity | split; [reflexivity|]].
  rewrite snapshotRow_fill. reflexivity.
Qed.

(** C9 as stated fails: a field of two cells accepts a map of one pulse, and
    its current state changes. *)
Lemma setNextState_accepts_wrong_size :
  let f := Classy.setNextState (Classy.new_Field 2)
             (fst (Classy.initRow half_draws 2 "zero" 0)) in
  let m : gmap string Classy.Pulse :=
    {[ "cell:0" := {| Classy.id := "cell:0"; Classy.value := 1 |} ]} in
  Classy.snapshotRow f = [0; 0]
  /\ size m = 1%nat /\ Classy.size f = 2%nat
  /\ Classy.current (Classy.setNextState f m) = m
  /\ Classy.current (Classy.setNextState f m) <> Classy.current f
  /\ Classy.snapshotRow (Classy.setNextState f m) = [1; 0].
Proof.
  intros f m. repeat split; try (vm_compute; reflexivity).
  intros H. apply (f_equal (fun c => c !! "cell:1")) in H.
  vm_compute in H. discriminate H.
Qed.
(** ** The persistence reflector *)

Lemma counters_upto_step (row : nat -> Z) (cs : list Z) (k : nat) :
  (k < length cs)%nat ->
  arr_get (counters_upto row cs k) k = arr_get cs k
  /\ arr_set (counters_upto row cs k) k (new_count (row k) (arr_get cs k))
     = counters_upto row cs (S k).
Proof.
  intros Hk. unfold counters_upto.
  set (g := fun i => new_count (row i) (arr_get cs i)).
  assert (Hlen : length (g <$> seq 0 k) = k)
    by (rewrite length_fmap, length_seq; reflexivity).
  destruct (lookup_lt_is_Some_2 cs k Hk) as [y Hy].
  rewrite (drop_S cs y k Hy). split.
  - unfold arr_get. rewrite lookup_app_r by lia.
    rewrite Hlen, Nat.sub_diag, Hy. reflexivity.
  - rewrite arr_set_in_range by (rewrite length_app, Hlen; simpl; lia).
    rewrite insert_app_r_alt by lia. rewrite Hlen, Nat.sub_diag.
    change (<[0%nat:=new_count (row k) (arr_get cs k)]> (y :: drop (S k) cs))
      with (g k :: drop (S k) cs).
    rewrite seq_S, fmap_app, <- app_assoc. reflexivity.
Qed.

Lemma counters_upto_all (row : nat -> Z) (cs : list Z) (n : nat) :
  length cs = n -> counters_upto row cs n = next_counters row cs n.
Proof.
  intros Hn. unfold counters_upto, next_counters.
  rewrite drop_ge by lia. apply app_nil_r.
Qed.

Lemma reflecting_S (hold : Z) (row : nat -> Z) (cs : list Z) (k : nat) :
  reflecting hold row cs (S k)
  = reflecting hold row cs k
    ++ (if decide (hold <= new_count (row k) (arr_get cs k)) then [k] else []).
Proof.
  unfold reflecting. rewrite seq_S, filter_app. reflexivity.
Qed.

(** The loop of the reflector, whatever it pushes: counters first, then one
    emission for every cell whose new counter reaches the threshold. *)
Lemma reflect_loop {E : Type} (emit : nat -> E) (row : nat -> Z) (hold : Z)
    (cs : list Z) (acc : list E) (n : nat)
    (body : list Z * list E -> nat -> list Z * list E) :
  length cs = n ->
  (forall cs' acc' i,
      body (cs', acc') i
      = let count := new_count (row i) (arr_get cs' i) in
        if hold <=? count then (arr_set cs' i count, acc' ++ [emit i])
        else (arr_set cs' i count, acc')) ->
  for_range n body (cs, acc)
  = (next_counters row cs n, acc ++ (emit <$> reflecting hold row cs n)).
Proof.
  intros Hn Hbody. rewrite <- (counters_upto_all row cs n Hn).
  assert (H : forall k, (k <= n)%nat ->
            for_range k body (cs, acc)
            = (counters_upto row cs k, acc ++ (emit <$> reflecting hold row cs k))).
  { induction k as [|k IH]; intros Hk.
    - unfold counters_upto, reflecting. simpl. rewrite drop_0, app_nil_r. reflexivity.
    - rewrite for_range_S, IH, Hbody by lia. cbv zeta.
      destruct (counters_upto_step row cs k) as [Hget Hset]; [lia|].
      rewrite Hget, Hset, reflecting_S.
      destruct (Z.leb_spec hold (new_count (row k) (arr_get cs k))) as [Hle|Hlt].
      + rewrite decide_True by exact Hle.
        rewrite fmap_app, app_assoc. reflexivity.
      + rewrite decide_False by lia. rewrite app_nil_r. reflexivity. }
  apply H. lia.
Qed.

Lemma reflect_target_neighbour (i n : nat) :
  (i < n)%nat -> reflect_target i n = neighbour_of i n.
Proof.
  intros Hi. unfold reflect_target, reflect_dir, neighbour_of.
  assert (Hpar : (Z.rem (Z.of_nat i) 2 =? 0) = Nat.even i).
  { rewrite Z.rem_mod_nonneg by lia.
    change 2 with (Z.of_nat 2). rewrite <- Nat2Z.inj_mod.
    destruct (Nat.even i) eqn:He.
    - apply Nat.even_spec in He. destruct He as [m ->].
      rewrite Nat.mul_comm, Nat.Div0.mod_mul. reflexivity.
    - assert (Ho : Nat.odd i = true) by (rewrite <- Nat.negb_even, He; reflexivity).
      apply Nat.odd_spec in Ho. destruct Ho as [m ->].
      replace (2 * m + 1)%nat with (1 + m * 2)%nat by lia.
      rewrite Nat.Div0.mod_add. reflexivity. }
  rewrite Hpar. destruct (Nat.even i) eqn:He.
  - rewrite Z.rem_mod_nonneg by lia.
    replace (Z.of_nat i + 1 + Z.of_nat n) with (Z.of_nat (i + 1) + 1 * Z.of_nat n) by lia.
    rewrite Z_mod_plus_full, <- Nat2Z.inj_mod. apply Nat2Z.id.
  - assert (0 < i)%nat by (destruct i; [discriminate He | lia]).
    rewrite Z.rem_mod_nonneg by lia.
    replace (Z.of_nat i + -1 + Z.of_nat n) with (Z.of_nat (i - 1) + 1 * Z.of_nat n) by lia.
    rewrite Z_mod_plus_full, <- Nat2Z.inj_mod. apply Nat2Z.id.
Qed.

Lemma cpux_DN_REFLECT_counts_then_emits (dn : Cpux.DesignNodes) (pass : nat)
    (prev : list Z) (objectId : string) (consec : option (list Z))
    (incoming : list Cpux.Intention) :
  let n := length prev in
  let cs := default (replicate n 0) consec in
  length cs = n ->
  Cpux.DN_REFLECT_emitIntentions dn pass prev objectId consec incoming
  = (next_counters (arr_get prev) cs n,
     incoming ++ (cpux_reflection pass objectId n
                    <$> reflecting (Cpux.reflectionHold dn) (arr_get prev) cs n)).
Proof.
  intros n cs Hlen. unfold Cpux.DN_REFLECT_emitIntentions.
  apply (reflect_loop (cpux_reflection pass objectId n)); [exact Hlen|].
  intros cs' acc' i. unfold Cpux.DN_REFLECT_cell, new_count, cpux_reflection.
  reflexivity.
Qed.

Lemma classy_DN_reflect_loop (hold : Z) (f : Classy.Field) (cs : list Z) :
  length cs = Classy.size f ->
  for_range (Classy.size f) (Classy.DN_reflect_cell hold f) (cs, [])
  = (next_counters (Classy.readCell f) cs (Classy.size f),
     classy_reflection (Classy.size f)
       <$> reflecting hold (Classy.readCell f) cs (Classy.size f)).
Proof.
  intros Hlen.
  rewrite (reflect_loop (classy_reflection (Classy.size f)) (Classy.readCell f)
             hold cs [] (Classy.size f)); [reflexivity | exact Hlen |].
  intros cs' acc' i. unfold Classy.DN_reflect_cell, new_count, classy_reflection.
  reflexivity.
Qed.

(** An array of marks: 1 at the targets of the listed cells, 0 elsewhere. *)
Lemma marks_get (t : nat -> nat) (l : list nat) (n j : nat) :
  let r := foldl (fun r i => arr_set r (t i) 1) (replicate n 0) l in
  (arr_get r j = 1 <-> exists i, i ∈ l /\ t i = j) /\ is_bit (arr_get r j).
Proof.
  induction l as [|x l IH] using rev_ind; cbv zeta.
  - cbn [foldl]. rewrite arr_get_replicate. split; [|left; reflexivity].
    split; [discriminate|]. intros (i & Hi & _). inversion Hi.
  - rewrite foldl_app. cbn [foldl]. cbv zeta in IH. destruct IH as [IH Hbit].
    destruct (decide (t x = j)) as [Hx|Hx].
    + rewrite Hx, arr_get_set_eq. split; [|right; reflexivity].
      split; [|reflexivity]. intros _. exists x.
      rewrite elem_of_app, list_elem_of_singleton. tauto.
    + rewrite arr_get_set_ne by exact Hx. split; [|exact Hbit].
      rewrite IH. split.
      * intros (i & Hi & Hti). exists i. rewrite elem_of_app. tauto.
      * intros (i & Hi & Hti). exists i.
        rewrite elem_of_app, list_elem_of_singleton in Hi.
        destruct Hi as [Hi | ->]; [tauto | contradiction].
Qed.

Lemma flat_phaseA_counts_then_reflects (draws : nat -> Q) (p : Flat.Preset)
    (prev cs : list Z) (pos : nat) :
  length cs = Flat.size p ->
  let a := Flat.phaseA draws p prev cs pos in
  Flat.consecOnes a = next_counters (arr_get prev) cs (Flat.size p)
  /\ Flat.reflection a
     = foldl (fun r i => arr_set r (reflect_target i (Flat.size p)) 1)
         (replicate (Flat.size p) 0)
         (reflecting (Flat.reflectionHold p) (arr_get prev) cs (Flat.size p)).
Proof.
  intros Hlen a. subst a. unfold Flat.phaseA.
  rewrite <- (counters_upto_all (arr_get prev) cs (Flat.size p) Hlen).
  pose (I := fun (k : nat) (st : Flat.PhaseA) =>
               Flat.consecOnes st = counters_upto (arr_get prev) cs k
               /\ Flat.reflection st
                  = foldl (fun r i => arr_set r (reflect_target i (Flat.size p)) 1)
                      (replicate (Flat.size p) 0)
                      (reflecting (Flat.reflectionHold p) (arr_get prev) cs k)).
  apply (for_range_invariant I); subst I; cbv beta.
  - cbn [Flat.consecOnes Flat.reflection]. unfold counters_upto.
    simpl. rewrite drop_0. split; reflexivity.
  - intros k st Hk [Hc Hr]. unfold Flat.phaseA_cell.
    cbn [Flat.consecOnes Flat.reflection]. rewrite Hc, Hr.
    destruct (counters_upto_step (arr_get prev) cs k) as [Hget Hset]; [lia|].
    rewrite Hget. fold (new_count (arr_get prev k) (arr_get cs k)).
    rewrite Hset, reflecting_S, foldl_app. split; [reflexivity|].
    destruct (Z.leb_spec (Flat.reflectionHold p)
                (new_count (arr_get prev k) (arr_get cs k))) as [Hle|Hlt].
    + rewrite decide_True by exact Hle. reflexivity.
    + rewrite decide_False by lia. reflexivity.
Qed.

Lemma reflecting_spec (hold : Z) (row : nat -> Z) (cs : list Z) (n i : nat) :
  i ∈ reflecting hold row cs n
  <-> (i < n)%nat /\ hold <= new_count (row i) (arr_get cs i).
Proof.
  unfold reflecting. rewrite list_elem_of_filter, elem_of_seq. split.
  - intros [H1 H2]. split; [lia | exact H1].
  - intros [H1 H2]. split; [exact H2 | lia].
Qed.

Lemma reflecting_NoDup (hold : Z) (row : nat -> Z) (cs : list Z) (n : nat) :
  NoDup (reflecting hold row cs n).
Proof. unfold reflecting. apply NoDup_filter, NoDup_seq. Qed.

(** C5, as the code has it. The reflector keeps one counter per cell; on
    observing a row it first sets each counter to one more than before when
    the cell is set and to 0 when it is not ([next_counters]), and pushes
    exactly one reflection for every cell whose new counter reaches the hold
    threshold ([reflecting], a list without repetition), aimed at the next
    cell around the ring for an even index and at the previous one for an odd
    index. The ledger-based node pushes one intention per such cell, the flat
    script marks the target in its reflection array, and the class-based node
    pushes one pulse of value 1 per such cell — when its threshold is below
    10^9; from 10^9 on it returns at once, its counters untouched. The
    ledger-based node starts from counters at zero on its first call. *)
Theorem reflector_counts_then_emits (draws : nat -> Q) (n : nat)
    (prev cs : list Z)
    (dn : Cpux.DesignNodes) (pass : nat) (objectId : string)
    (incoming : list Cpux.Intention)
    (p : Flat.Preset) (pos : nat)
    (f : Classy.Field) (dnId : string) (hold hold' : Z) (passIndex : nat) :
  length prev = n -> length cs = n ->
  Flat.size p = n -> Classy.size f = n ->
  hold < 1000000000 -> 1000000000 <= hold' ->
  (Cpux.DN_REFLECT_emitIntentions dn pass prev objectId (Some cs) incoming
   = (next_counters (arr_get prev) cs n,
      incoming ++ (cpux_reflection pass objectId n
                     <$> reflecting (Cpux.reflectionHold dn) (arr_get prev) cs n)))
  /\ (Cpux.DN_REFLECT_emitIntentions dn pass prev objectId None incoming
      = (next_counters (arr_get prev) (replicate n 0) n,
         incoming ++ (cpux_reflection pass objectId n
                        <$> reflecting (Cpux.reflectionHold dn) (arr_get prev)
                              (replicate n 0) n)))
  /\ (Flat.consecOnes (Flat.phaseA draws p prev cs pos)
      = next_counters (arr_get prev) cs n
      /\ forall j,
           (arr_get (Flat.reflection (Flat.phaseA draws p prev cs pos)) j = 1
            <-> exists i, i ∈ reflecting (Flat.reflectionHold p) (arr_get prev) cs n
                          /\ reflect_target i n = j)
           /\ is_bit (arr_get (Flat.reflection (Flat.phaseA draws p prev cs pos)) j))
  /\ (Classy.emitIntentions draws (Classy.DN_reflect dnId objectId hold cs)
        passIndex f pos
      = (Classy.intention_of dnId objectId "reflection"
           (classy_reflection n <$> reflecting hold (Classy.readCell f) cs n),
         Classy.DN_reflect dnId objectId hold (next_counters (Classy.readCell f) cs n),
         pos))
  /\ (Classy.emitIntentions draws (Classy.DN_reflect dnId objectId hold' cs)
        passIndex f pos
      = ([], Classy.DN_reflect dnId objectId hold' cs, pos))
  /\ (forall (h : Z) (row : nat -> Z),
        NoDup (reflecting h row cs n)
        /\ forall i, i ∈ reflecting h row cs n
                     <-> (i < n)%nat /\ h <= new_count (row i) (arr_get cs i))
  /\ (forall i, (i < n)%nat -> reflect_target i n = neighbour_of i n).
Proof.
  intros Hprev Hcs Hp Hf Hhold Hhold'.
  repeat apply conj.
  - pose proof (cpux_DN_REFLECT_counts_then_emits dn pass prev objectId
                  (Some cs) incoming) as H.
    cbv zeta in H. cbn [default] in H. rewrite Hprev in H. apply H, Hcs.
  - pose proof (cpux_DN_REFLECT_counts_then_emits dn pass prev objectId
                  None incoming) as H.
    cbv zeta in H. cbn [default] in H. rewrite Hprev in H.
    apply H, length_replicate.
  - rewrite <- Hp.
    apply (flat_phaseA_counts_then_reflects draws p prev cs pos). lia.
  - intros j. rewrite <- Hp.
    destruct (flat_phaseA_counts_then_reflects draws p prev cs pos) as [_ Hr]; [lia|].
    cbv zeta in Hr. rewrite Hr. apply marks_get.
  - cbn [Classy.emitIntentions].
    destruct (Z.leb_spec 1000000000 hold) as [Hge|_]; [lia|].
    rewrite <- Hf, classy_DN_reflect_loop by lia. reflexivity.
  - cbn [Classy.emitIntentions].
    destruct (Z.leb_spec 1000000000 hold') as [_|Hlt]; [reflexivity | lia].
  - intros h row. split; [apply reflecting_NoDup|]. intros i. apply reflecting_spec.
  - intros i Hi. apply reflect_target_neighbour, Hi.
Qed.

Lemma reflector_counts_then_emits_witness :
  Cpux.DN_REFLECT_emitIntentions
    {| Cpux.patternSet := ∅; Cpux.injectProb := 0; Cpux.reflectionHold := 2 |}
    3 [1; 1; 0] "O_IS" (Some [1; 0; 5]) []
  = ([2; 1; 0], [cpux_reflection 3 "O_IS" 3 0]).
Proof.
  pose (p := {| Flat.rule := 0; Flat.init := "single"; Flat.steps := 2;
                Flat.size := 3; Flat.cpiPatterns := [];
                Flat.injectProb := 0; Flat.reflectionHold := 2 |}).
  refine (proj1 (reflector_counts_then_emits half_draws 3 [1; 1; 0] [1; 0; 5]
                   {| Cpux.patternSet := ∅; Cpux.injectProb := 0;
                      Cpux.reflectionHold := 2 |}
                   3 "O_IS" [] p 0 (Classy.new_Field 3) "DN_reflect" 2 1000000000 3
                   _ _ _ _ _ _));
    try reflexivity; lia.
Defined.

(** C5 as stated fails in the class-based script: with a threshold of 10^9
    the node leaves the counter of a set cell at 0, where counting gives 1. *)
Lemma reflector_guard_skips_counting :
  let f := Classy.setNextState (Classy.new_Field 1)
             (fst (Classy.initRow half_draws 1 "single" 0)) in
  let dn := Classy.new_DN_reflect "DN_reflect" "O_field" f 1000000000 in
  Classy.readCell f 0 = 1
  /\ dn = Classy.DN_reflect "DN_reflect" "O_field" 1000000000 [0]
  /\ Classy.emitIntentions half_draws dn 1 f 0 = ([], dn, 0%nat)
  /\ next_counters (Classy.readCell f) [0] 1 = [1].
Proof. vm_compute. repeat split. Qed.
(** ** The scenario of the pattern ["101"] *)

(** A run of the flat script depends on the draws only through their
    comparisons with the injection probability. *)
Lemma flat_phaseA_draws_ext (draws draws' : nat -> Q) (p : Flat.Preset)
    (prev cs : list Z) (pos : nat) :
  (forall k, Qltb (draws k) (Flat.injectProb p) = Qltb (draws' k) (Flat.injectProb p)) ->
  Flat.phaseA draws p prev cs pos = Flat.phaseA draws' p prev cs pos.
Proof.
  intros Hext. unfold Flat.phaseA. apply for_range_ext.
  intros st i _. unfold Flat.phaseA_cell. rewrite Hext. reflexivity.
Qed.

(** Phase A depends on the hold threshold only through its comparisons with
    the updated counters. *)
Lemma flat_phaseA_hold_ext (draws : nat -> Q) (p p' : Flat.Preset)
    (prev cs : list Z) (pos : nat) :
  Flat.size p' = Flat.size p ->
  Flat.cpiPatterns p' = Flat.cpiPatterns p ->
  Flat.injectProb p' = Flat.injectProb p ->
  length cs = Flat.size p ->
  (forall i, (i < Flat.size p)%nat ->
     (Flat.reflectionHold p <=? new_count (arr_get prev i) (arr_get cs i))
     = (Flat.reflectionHold p' <=? new_count (arr_get prev i) (arr_get cs i))) ->
  Flat.phaseA draws p prev cs pos = Flat.phaseA draws p' prev cs pos.
Proof.
  intros Hsize Hpat Hprob Hlen Hhold. unfold Flat.phaseA. rewrite Hsize.
  set (init := {| Flat.proposal := replicate (Flat.size p) 0;
                  Flat.reflection := replicate (Flat.size p) 0;
                  Flat.consecOnes := cs; Flat.cursor := pos |}).
  pose (I := fun (k : nat) (st : Flat.PhaseA) =>
               st = for_range k (Flat.phaseA_cell draws p' prev) init
               /\ Flat.consecOnes st = counters_upto (arr_get prev) cs k).
  enough (H : I (Flat.size p)
                (for_range (Flat.size p) (Flat.phaseA_cell draws p prev) init))
    by apply H.
  apply (for_range_invariant I); subst I; cbv beta.
  - split; [reflexivity|]. unfold counters_upto. simpl. rewrite drop_0. reflexivity.
  - intros k st Hk [Hst Hc]. rewrite for_range_S, <- Hst.
    destruct (counters_upto_step (arr_get prev) cs k) as [Hget Hset]; [lia|].
    unfold Flat.phaseA_cell. rewrite Hsize, Hpat, Hprob, Hc, Hget.
    fold (new_count (arr_get prev k) (arr_get cs k)).
    rewrite (Hhold k Hk), Hset. split; reflexivity.
Qed.

(** With every updated counter under the threshold, the class-based
    reflector pushes nothing, and draws nothing. *)
Lemma classy_reflect_silent (draws : nat -> Q) (dnId objectId : string)
    (hold : Z) (cs : list Z) (passIndex : nat) (f : Classy.Field) (pos : nat) :
  length cs = Classy.size f ->
  reflecting hold (Classy.readCell f) cs (Classy.size f) = [] ->
  exists dn', Classy.emitIntentions draws
                (Classy.DN_reflect dnId objectId hold cs) passIndex f pos
              = ([], dn', pos).
Proof.
  intros Hlen Hnone. cbn [Classy.emitIntentions].
  destruct (1000000000 <=? hold); [eauto|].
  rewrite classy_DN_reflect_loop, Hnone by exact Hlen. eauto.
Qed.

(** C6. Rule 0 on five cells from the row 1,0,1,0,0, with the pattern
    ["101"] ranked above baseline, injection probability 0 and a hold
    threshold of 2 or more: the next row is 1 at cell 1 and 0 at every other
    cell, in the flat script (whatever the draws) and in the class-based
    script. *)
Theorem pattern_101_overrides_rule_0 (draws : nat -> Q) (hold : Z) (pos : nat) :
  unit_draws draws ->
  2 <= hold ->
  Flat.grid (Flat.runISVariant_from draws (scenario_101 hold) [1; 0; 1; 0; 0] pos)
  = [[1; 0; 1; 0; 0]; [0; 1; 0; 0; 0]]
  /\ (let f := field_of_row [1; 0; 1; 0; 0] in
      Classy.snapshotRow f = [1; 0; 1; 0; 0]
      /\ Classy.snapshotRow
           (fst (fst (Classy.pass draws (scenario_101_nodes f hold)
                        {| Classy.objectId := "O_field";
                           Classy.precedence := ["proposal"; "reflection"; "baseline"] |}
                        1 f pos)))
         = [0; 1; 0; 0; 0]).
Proof.
  intros Hdraws Hhold.
  assert (Hcount : forall (row : nat -> Z) i,
             new_count (row i) (arr_get (replicate 5 0) i) <= 1).
  { intros row i. unfold new_count. rewrite arr_get_replicate.
    destruct (truthy (row i)); lia. }
  split.
  - unfold Flat.runISVariant_from. cbn [scenario_101 Flat.steps Flat.size].
    change (2 - 1)%nat with 1%nat. cbn [Flat.is_rows].
    rewrite (flat_phaseA_hold_ext draws (scenario_101 hold) (scenario_101 2));
      try reflexivity.
    + rewrite (flat_phaseA_draws_ext draws half_draws).
      * vm_compute. reflexivity.
      * intros k. cbn [scenario_101 Flat.injectProb].
        rewrite !no_draw_under_zero; try reflexivity; try apply Qle_refl.
        -- apply half_draws_unit.
        -- apply Hdraws.
    + intros i _. cbn [scenario_101 Flat.reflectionHold].
      specialize (Hcount (arr_get [1; 0; 1; 0; 0]) i).
      rewrite !(proj2 (Z.leb_gt _ _)) by lia. reflexivity.
  - cbv zeta. split; [vm_compute; reflexivity|].
    set (f := field_of_row [1; 0; 1; 0; 0]).
    unfold Classy.pass, scenario_101_nodes, Classy.new_DN_reflect.
    cbn [Classy.visit].
    destruct (classy_reflect_silent draws "DN_reflect" "O_field" hold
                (replicate (Classy.size f) 0) 1 f pos) as [dn' Hdn'].
    + reflexivity.
    + apply elem_of_nil_inv. intros i Hi. apply reflecting_spec in Hi.
      destruct Hi as [_ Hi].
      specialize (Hcount (Classy.readCell f) i).
      change (Classy.size f) with 5%nat in Hi. lia.
    + assert (Hcpi : Classy.emitIntentions draws
                       (Classy.new_DN_cpi "DN_cpi" "O_field" ["101"]) 1 f pos
                     = (Classy.intention_of "DN_cpi" "O_field" "proposal"
                          (Classy.DN_cpi_pulses (list_to_set ["101"]) f),
                        Classy.new_DN_cpi "DN_cpi" "O_field" ["101"], pos))
        by reflexivity.
      assert (Hinj : Classy.emitIntentions draws
                       (Classy.DN_inject "DN_inject" "O_field" 0) 1 f pos
                     = ([], Classy.DN_inject "DN_inject" "O_field" 0, pos))
        by reflexivity.
      rewrite Hcpi. cbv beta iota. rewrite Hinj. cbv beta iota.
      rewrite Hdn'. cbv beta iota.
      vm_compute. reflexivity.
Qed.

Lemma pattern_101_overrides_rule_0_witness :
  Flat.grid (Flat.runISVariant_from half_draws (scenario_101 999) [1; 0; 1; 0; 0] 0)
  = [[1; 0; 1; 0; 0]; [0; 1; 0; 0; 0]].
Proof.
  refine (proj1 (pattern_101_overrides_rule_0 half_draws 999 0 half_draws_unit _)).
  lia.
Defined.
(** ** Draws at injection probability 0 *)

Lemma cpux_DN_CPI_draws_every_cell (draws : nat -> Q) (dn : Cpux.DesignNodes)
    (pass : nat) (prev : list Z) (objectId : string)
    (incoming : list Cpux.Intention) (pos : nat) :
  snd (Cpux.DN_CPI_emitIntentions draws dn pass prev objectId incoming pos)
  = (pos + length prev)%nat.
Proof.
  unfold Cpux.DN_CPI_emitIntentions.
  apply (for_range_invariant (fun i st => snd st = (pos + i)%nat)).
  - simpl. lia.
  - intros i [inc q] _ Hq. simpl in Hq. subst q. unfold Cpux.DN_CPI_cell.
    destruct (Cpux.neighborhood3 prev i) as [[[l c] r] nb].
    destruct (if Qltb (draws (pos + i)%nat) (Cpux.injectProb dn)
              then Some "novelty"
              else if bool_decide (0 < size (Cpux.patternSet dn))%nat
                      && bool_decide (nb ∈ Cpux.patternSet dn)
                   then Some "proposal" else None); simpl; lia.
Qed.

Lemma flat_phaseA_draws_every_cell (draws : nat -> Q) (p : Flat.Preset)
    (prev cs : list Z) (pos : nat) :
  Flat.cursor (Flat.phaseA draws p prev cs pos) = (pos + Flat.size p)%nat.
Proof.
  unfold Flat.phaseA.
  apply (for_range_invariant (fun i st => Flat.cursor st = (pos + i)%nat)).
  - simpl. lia.
  - intros i st _ Hst. unfold Flat.phaseA_cell. simpl. lia.
Qed.

Lemma classy_inject_short_circuits (draws : nat -> Q) (dnId objectId : string)
    (injectProb : Q) (passIndex : nat) (f : Classy.Field) (pos : nat) :
  (injectProb <= 0)%Q ->
  Classy.emitIntentions draws (Classy.DN_inject dnId objectId injectProb)
    passIndex f pos
  = ([], Classy.DN_inject dnId objectId injectProb, pos).
Proof.
  intros Hp. cbn [Classy.emitIntentions].
  rewrite (proj2 (Qle_bool_iff injectProb 0) Hp). reflexivity.
Qed.

(** C7, on the code. At injection probability 0 the class-based
    [DN_inject] returns at once: no intention, the random generator where it
    was. The ledger-based [DN_CPI] and phase A of the flat script draw once
    per cell whatever the probability, 0 included: the generator moves on by
    the number of cells. *)
Theorem zero_probability_draws (draws : nat -> Q)
    (dnId objectId : string) (passIndex : nat) (f : Classy.Field)
    (dn : Cpux.DesignNodes) (pass : nat) (prev : list Z)
    (incoming : list Cpux.Intention)
    (p : Flat.Preset) (cs : list Z) (pos : nat) :
  Classy.emitIntentions draws (Classy.DN_inject dnId objectId 0) passIndex f pos
  = ([], Classy.DN_inject dnId objectId 0, pos)
  /\ snd (Cpux.DN_CPI_emitIntentions draws dn pass prev objectId incoming pos)
     = (pos + length prev)%nat
  /\ Flat.cursor (Flat.phaseA draws p prev cs pos) = (pos + Flat.size p)%nat.
Proof.
  split; [|split].
  - apply classy_inject_short_circuits, Qle_refl.
  - apply cpux_DN_CPI_draws_every_cell.
  - apply flat_phaseA_draws_every_cell.
Qed.

(** ** Seeding *)

Lemma random_row_loop (draws : nat -> Q) (size pos : nat) :
  for_range size
    (fun '(row, pos) i => (arr_set row i (draw_bit (draws pos) js_0_1), S pos))
    (replicate size 0, pos)
  = ((fun i => draw_bit (draws (pos + i)%nat) js_0_1) <$> seq 0 size,
     (pos + size)%nat).
Proof.
  rewrite <- fill_all.
  assert (H : forall k,
            for_range k
              (fun '(row, pos) i =>
                 (arr_set row i (draw_bit (draws pos) js_0_1), S pos))
              (replicate size 0, pos)
            = (for_range k
                 (fun row i => arr_set row i (draw_bit (draws (pos + i)%nat) js_0_1))
                 (replicate size 0),
               (pos + k)%nat)).
  { induction k as [|k IH].
    - simpl. rewrite Nat.add_0_r. reflexivity.
    - rewrite !for_range_S, IH. f_equal. lia. }
  apply H.
Qed.

Lemma fmap_seq_zero (g : nat -> Z) (n : nat) :
  (forall i, (i < n)%nat -> g i = 0) -> g <$> seq 0 n = replicate n 0.
Proof.
  intros Hg. apply list_eq. intros i. rewrite list_lookup_fmap.
  destruct (decide (i < n)%nat) as [Hi|Hi].
  - rewrite lookup_seq_lt, lookup_replicate_2 by exact Hi. simpl.
    rewrite Hg by exact Hi. reflexivity.
  - rewrite lookup_seq_ge by lia. symmetry. apply lookup_replicate_None. lia.
Qed.

(** C8, on the code. In the ledger-based and the class-based script a mode
    that is neither ["single"] nor ["random"] seeds the all-zero row (and
    draws nothing); ["random"] seeds the sparse random row. In the flat
    script every mode other than ["single"] seeds the sparse random row: no
    mode selects the all-zero row there. *)
Theorem seeding_modes (draws : nat -> Q) (size : nat) (mode : string) (pos : nat) :
  mode <> "single" -> mode <> "random" ->
  Cpux.initRow draws size mode pos = (replicate size 0, pos)
  /\ (Classy.snapshotRow
        (Classy.setNextState (Classy.new_Field size)
           (fst (Classy.initRow draws size mode pos)))
      = replicate size 0
      /\ snd (Classy.initRow draws size mode pos) = pos)
  /\ Cpux.initRow draws size "random" pos
     = ((fun i => draw_bit (draws (pos + i)%nat) js_0_1) <$> seq 0 size,
        (pos + size)%nat)
  /\ Flat.initRow draws size mode pos
     = ((fun i => draw_bit (draws (pos + i)%nat) js_0_1) <$> seq 0 size,
        (pos + size)%nat).
Proof.
  intros Hs Hr.
  apply String.eqb_neq in Hs. apply String.eqb_neq in Hr.
  repeat apply conj.
  - unfold Cpux.initRow. rewrite Hs, Hr. reflexivity.
  - unfold Classy.initRow. rewrite Hs, Hr. cbn [fst].
    rewrite snapshotRow_fill. cbn [Classy.setNextState Classy.new_Field Classy.size].
    apply fmap_seq_zero. intros i Hi. unfold Classy.readCell, Classy.setNextState.
    cbn [Classy.current].
    rewrite (next_map_lookup
               (fun j => {| Classy.id := Classy.cell_id j; Classy.value := 0 |})).
    rewrite decide_True by exact Hi. reflexivity.
  - unfold Classy.initRow. rewrite Hs, Hr. reflexivity.
  - unfold Cpux.initRow. cbn [String.eqb Ascii.eqb Bool.eqb]. apply random_row_loop.
  - unfold Flat.initRow. rewrite Hs. apply random_row_loop.
Qed.

Lemma seeding_modes_witness :
  Cpux.initRow half_draws 3 "zero" 0 = ([0; 0; 0], 0%nat)
  /\ Flat.initRow (fun _ => 0%Q) 3 "zero" 0 = ([1; 1; 1], 3%nat).
Proof.
  split.
  - refine (proj1 (seeding_modes half_draws 3 "zero" 0 _ _)); discriminate.
  - refine (proj2 (proj2 (proj2
             (seeding_modes (fun _ => 0%Q) 3 "zero" 0 _ _)))); discriminate.
Defined.
(** * Further properties of the code *)

(** ** The rule table on any integer *)

Lemma toInt32_mod (z : Z) : toInt32 z mod 2 ^ 32 = z mod 2 ^ 32.
Proof.
  unfold toInt32. rewrite Zminus_mod_idemp_l. f_equal. lia.
Qed.

Lemma testbit_toInt32 (z k : Z) :
  0 <= k < 32 -> Z.testbit (toInt32 z) k = Z.testbit z k.
Proof.
  intros Hk.
  rewrite <- (Z.mod_pow2_bits_low (toInt32 z) 32 k) by lia.
  rewrite <- (Z.mod_pow2_bits_low z 32 k) by lia.
  rewrite toInt32_mod. reflexivity.
Qed.

Lemma ruleFn_at_index_any (rule k : Z) :
  0 <= k <= 7 -> js_band (js_sar rule k) 1 = Z.b2z (Z.testbit rule k).
Proof.
  intros Hk. unfold js_band, js_sar.
  assert (Hk' : Z.land (toUint32 k) 31 = k).
  { unfold toUint32. rewrite Z.mod_small by lia.
    change 31 with (Z.ones 5). rewrite Z.land_ones by lia.
    apply Z.mod_small. lia. }
  rewrite Hk', (toInt32_small 1) by lia.
  rewrite land_1_testbit, testbit_toInt32 by lia.
  rewrite Z.shiftr_spec by lia. rewrite testbit_toInt32 by lia.
  reflexivity.
Qed.

(** X1. [ruleFn] checks no range: for any integer rule number and a
    neighbourhood of bits it returns bit [l*4 + c*2 + r] of the number, so
    only the low eight bits of the rule number matter. *)
Theorem ruleFn_reads_low_byte (rule l c r : Z) :
  is_bit l -> is_bit c -> is_bit r ->
  ruleFn rule l c r = Z.b2z (Z.testbit rule (l * 4 + c * 2 + r))
  /\ ruleFn rule l c r = ruleFn (rule mod 256) l c r.
Proof.
  intros Hl Hc Hr.
  assert (Hbit : forall n, ruleFn n l c r = Z.b2z (Z.testbit n (l * 4 + c * 2 + r))).
  { intros n. unfold ruleFn.
    destruct Hl as [-> | ->], Hc as [-> | ->], Hr as [-> | ->];
      match goal with
      | |- js_band (js_sar _ ?i) 1 = Z.b2z (Z.testbit _ ?j) =>
          let i' := eval vm_compute in i in
          let j' := eval vm_compute in j in
          change i with i'; change j with j'
      end;
      apply ruleFn_at_index_any; lia. }
  split; [apply Hbit|]. rewrite !Hbit.
  change 256 with (2 ^ 8). f_equal. symmetry.
  apply Z.mod_pow2_bits_low.
  destruct Hl as [-> | ->], Hc as [-> | ->], Hr as [-> | ->]; lia.
Qed.

Lemma ruleFn_reads_low_byte_witness :
  ruleFn 286 1 0 0 = 1 /\ ruleFn 286 1 0 0 = ruleFn 30 1 0 0.
Proof.
  destruct (ruleFn_reads_low_byte 286 1 0 0) as [H1 H2];
    [right; reflexivity | left; reflexivity | left; reflexivity |].
  split; [exact H1 | exact H2].
Defined.

(** ** The shape of the grids *)

Lemma flat_ca_next_bit_row (rule : Z) (size : nat) (prev : list Z) :
  bit_row size (Flat.ca_next rule size prev).
Proof.
  rewrite flat_ca_next_fill. split.
  - rewrite length_fmap, length_seq. reflexivity.
  - apply Forall_fmap, Forall_forall. intros i _. apply ruleFn_bit.
Qed.

Lemma flat_phaseB_bit_row (p : Flat.Preset) (prev proposal reflection : list Z) :
  bit_row (Flat.size p) (Flat.phaseB p prev proposal reflection).
Proof.
  rewrite flat_phaseB_fill. split.
  - rewrite length_fmap, length_seq. reflexivity.
  - apply Forall_fmap, Forall_forall. intros i _. simpl.
    destruct (truthy (arr_get proposal i) || truthy (arr_get reflection i));
      [right; reflexivity | apply ruleFn_bit].
Qed.

Lemma flat_ca_rows_shape (rule : Z) (size n : nat) (prev : list Z) :
  length (Flat.ca_rows rule size n prev) = n
  /\ Forall (bit_row size) (Flat.ca_rows rule size n prev).
Proof.
  revert prev. induction n as [|n IH]; intros prev.
  - split; [reflexivity | constructor].
  - cbn [Flat.ca_rows]. destruct (IH (Flat.ca_next rule size prev)) as [Hl Hr].
    split; [simpl; rewrite Hl; reflexivity|].
    constructor; [apply flat_ca_next_bit_row | exact Hr].
Qed.

Lemma flat_is_rows_shape (draws : nat -> Q) (p : Flat.Preset) (n : nat)
    (prev consec : list Z) (pos : nat) :
  length (fst (Flat.is_rows draws p n prev consec pos)) = n
  /\ Forall (bit_row (Flat.size p)) (fst (Flat.is_rows draws p n prev consec pos)).
Proof.
  revert prev consec pos. induction n as [|n IH]; intros prev consec pos.
  - split; [reflexivity | constructor].
  - cbn [Flat.is_rows].
    set (a := Flat.phaseA draws p prev consec pos).
    set (next := Flat.phaseB p prev (Flat.proposal a) (Flat.reflection a)).
    destruct (IH next (Flat.consecOnes a) (Flat.cursor a)) as [Hl Hr].
    destruct (Flat.is_rows draws p n next (Flat.consecOnes a) (Flat.cursor a))
      as [rows tr].
    simpl in *. split; [rewrite Hl; reflexivity|].
    constructor; [apply flat_phaseB_bit_row | exact Hr].
Qed.

(** X2. A grid of the flat script, classical or Intention-Space, has one
    row per step and at least the seed row (a run asked with no step still
    returns row 0); every row after the seed row has exactly [size] cells,
    each 0 or 1, whatever the seed row held. *)
Theorem flat_grid_shape (draws : nat -> Q) (p : Flat.Preset) (row0 : list Z)
    (pos : nat) :
  let ca := Flat.runCA_from p row0 in
  let isv := Flat.grid (Flat.runISVariant_from draws p row0 pos) in
  (length ca = Nat.max (Flat.steps p) 1 /\ head ca = Some row0
   /\ Forall (bit_row (Flat.size p)) (tail ca))
  /\ (length isv = Nat.max (Flat.steps p) 1 /\ head isv = Some row0
      /\ Forall (bit_row (Flat.size p)) (tail isv)).
Proof.
  cbv zeta. split.
  - unfold Flat.runCA_from.
    destruct (flat_ca_rows_shape (Flat.rule p) (Flat.size p) (Flat.steps p - 1) row0)
      as [Hl Hr].
    simpl. rewrite Hl. repeat split; [lia | exact Hr].
  - unfold Flat.runISVariant_from.
    destruct (flat_is_rows_shape draws p (Flat.steps p - 1) row0
                (replicate (Flat.size p) 0) pos) as [Hl Hr].
    destruct (Flat.is_rows draws p (Flat.steps p - 1) row0
                (replicate (Flat.size p) 0) pos) as [rows tr].
    simpl in *. rewrite Hl. repeat split; [lia | exact Hr].
Qed.

(** ** The classical run of the ledger-based script *)

Lemma cpux_applyBaseRule_is_ca_next (rule : Z) (prev : list Z) :
  Cpux.applyBaseRule rule prev = Flat.ca_next rule (length prev) prev.
Proof. rewrite cpux_applyBaseRule_fill, flat_ca_next_fill. reflexivity. Qed.

Lemma cpux_ca_rows_flat (rule : Z) (n : nat) (prev : list Z) :
  Cpux.ca_rows rule n prev = Flat.ca_rows rule (length prev) n prev.
Proof.
  revert prev. induction n as [|n IH]; intros prev; [reflexivity|].
  cbn [Cpux.ca_rows Flat.ca_rows].
  rewrite cpux_applyBaseRule_is_ca_next, IH.
  destruct (flat_ca_next_bit_row rule (length prev) prev) as [-> _].
  reflexivity.
Qed.

Lemma initRow_single_length (size : nat) :
  (0 < size)%nat -> length (arr_set (replicate size 0) (size / 2) 1) = size.
Proof.
  intros Hs. rewrite length_arr_set; rewrite length_replicate; [reflexivity|].
  apply Nat.div_lt; lia.
Qed.

(** X3. The classical run of the ledger-based script, which takes the width
    from the previous row, gives the grid of the flat script, which takes it
    from the configuration, whenever the seed row has [size] cells; the two
    full runs agree (grid and state of the random generator) for the modes
    ["random"] and, on a grid of positive width, ["single"]. *)
Theorem cpux_ca_is_flat_ca (draws : nat -> Q) (cfg : Cpux.Config)
    (row0 : list Z) (pos : nat) :
  length row0 = Cpux.size cfg ->
  Cpux.runCPUX_CA_from cfg row0 = Flat.runCA_from (flat_of_cpux cfg) row0
  /\ (Cpux.initMode cfg = "random"
      \/ (Cpux.initMode cfg = "single" /\ (0 < Cpux.size cfg)%nat) ->
      Cpux.runCPUX_CA draws cfg pos = Flat.runCA draws (flat_of_cpux cfg) pos).
Proof.
  intros Hlen.
  assert (Hfrom : forall r, length r = Cpux.size cfg ->
            Cpux.runCPUX_CA_from cfg r = Flat.runCA_from (flat_of_cpux cfg) r).
  { intros r Hr. unfold Cpux.runCPUX_CA_from, Flat.runCA_from.
    rewrite cpux_ca_rows_flat, Hr. reflexivity. }
  split; [apply Hfrom, Hlen|].
  intros Hmode. unfold Cpux.runCPUX_CA, Flat.runCA.
  cbn [flat_of_cpux Flat.size Flat.init].
  assert (Hinit : Cpux.initRow draws (Cpux.size cfg) (Cpux.initMode cfg) pos
                  = Flat.initRow draws (Cpux.size cfg) (Cpux.initMode cfg) pos
                  /\ length (fst (Flat.initRow draws (Cpux.size cfg)
                                    (Cpux.initMode cfg) pos)) = Cpux.size cfg).
  { unfold Cpux.initRow, Flat.initRow.
    destruct Hmode as [-> | [-> Hpos]].
    - cbn [String.eqb Ascii.eqb Bool.eqb]. split; [reflexivity|].
      rewrite random_row_loop. cbn [fst].
      rewrite length_fmap, length_seq. reflexivity.
    - cbn [String.eqb Ascii.eqb Bool.eqb]. split; [reflexivity|].
      apply initRow_single_length, Hpos. }
  destruct Hinit as [-> Hl].
  destruct (Flat.initRow draws (Cpux.size cfg) (Cpux.initMode cfg) pos) as [r q].
  rewrite (Hfrom r Hl). reflexivity.
Qed.

Lemma cpux_ca_is_flat_ca_witness :
  let cfg := {| Cpux.ruleNumber := 30; Cpux.size := 7; Cpux.steps := 5;
                Cpux.initMode := "single"; Cpux.cpiPatterns := [];
                Cpux.cfg_injectProb := 0; Cpux.cfg_reflectionHold := 9 |} in
  Cpux.runCPUX_CA half_draws cfg 0 = Flat.runCA half_draws (flat_of_cpux cfg) 0.
Proof.
  intros cfg.
  refine (proj2 (cpux_ca_is_flat_ca half_draws cfg [0; 0; 0; 1; 0; 0; 0] 0%nat _) _).
  - reflexivity.
  - right. split; [reflexivity | simpl; lia].
Defined.
(** ** The class-based script: baseline, seeding, absorption *)

Lemma append_loop {A : Type} (g : nat -> A) (n : nat) (acc : list A) :
  for_range n (fun acc i => acc ++ [g i]) acc = acc ++ (g <$> seq 0 n).
Proof.
  induction n as [|n IH].
  - simpl. rewrite app_nil_r. reflexivity.
  - rewrite for_range_S, IH, seq_S, fmap_app, app_assoc. reflexivity.
Qed.

Lemma left_of_lt (i n : nat) : (i < n)%nat -> (left_of i n < n)%nat.
Proof.
  intros Hi. unfold left_of. rewrite Z.rem_mod_nonneg by lia.
  pose proof (Z.mod_pos_bound (Z.of_nat i - 1 + Z.of_nat n) (Z.of_nat n)). lia.
Qed.

Lemma right_of_lt (i n : nat) : (i < n)%nat -> (right_of i n < n)%nat.
Proof.
  intros Hi. unfold right_of. rewrite Z.rem_mod_nonneg by lia.
  pose proof (Z.mod_pos_bound (Z.of_nat i + 1) (Z.of_nat n)). lia.
Qed.

Lemma readCell_snapshot (f : Classy.Field) (i : nat) :
  (i < Classy.size f)%nat -> arr_get (Classy.snapshotRow f) i = Classy.readCell f i.
Proof. intros Hi. rewrite snapshotRow_fill. apply arr_get_fmap_seq, Hi. Qed.

Lemma DN_rule_pulses_fill (rule : Z) (f : Classy.Field) :
  Classy.DN_rule_pulses rule f = baseline_pulse rule f <$> seq 0 (Classy.size f).
Proof. unfold Classy.DN_rule_pulses. rewrite append_loop. reflexivity. Qed.

(** X11. [DN_rule] emits, at every pass and whatever the field holds, one
    baseline intention that carries exactly one pulse per cell, in the order
    of the cells, each under the id of its cell and with a value 0 or 1; it
    keeps no state and draws nothing. *)
Theorem DN_rule_covers_every_cell (draws : nat -> Q) (dnId objectId : string)
    (rule : Z) (passIndex : nat) (f : Classy.Field) (pos : nat) :
  exists pulses,
    Classy.emitIntentions draws (Classy.DN_rule dnId objectId rule) passIndex f pos
    = ([{| Classy.fromDN := dnId; Classy.toObject := objectId;
           Classy.kind := "baseline"; Classy.pulses := pulses |}],
       Classy.DN_rule dnId objectId rule, pos)
    /\ length pulses = Classy.size f
    /\ Classy.id <$> pulses = Classy.cell_id <$> seq 0 (Classy.size f)
    /\ NoDup (Classy.id <$> pulses)
    /\ Forall (fun p => is_bit (Classy.value p)) pulses.
Proof.
  exists (Classy.DN_rule_pulses rule f). rewrite DN_rule_pulses_fill.
  assert (Hids : Classy.id <$> (baseline_pulse rule f <$> seq 0 (Classy.size f))
                 = Classy.cell_id <$> seq 0 (Classy.size f)).
  { rewrite <- list_fmap_compose. reflexivity. }
  repeat split.
  - cbn [Classy.emitIntentions]. rewrite DN_rule_pulses_fill. reflexivity.
  - rewrite length_fmap, length_seq. reflexivity.
  - exact Hids.
  - rewrite Hids. apply NoDup_fmap_2; [|apply NoDup_seq].
    intros i j. apply cell_id_inj.
  - apply Forall_fmap, Forall_forall. intros i _. apply ruleFn_bit.
Qed.

Lemma rank_is_Some (precedence : list string) (k : string) :
  k ∈ precedence -> is_Some (rank precedence k).
Proof.
  induction precedence as [|x rest IH]; intros Hk; [inversion Hk|].
  cbn [rank]. destruct (decide (x = k)) as [|Hne]; [eauto|].
  apply elem_of_cons in Hk. destruct Hk as [->|Hk]; [congruence|].
  destruct (IH Hk) as [r ->]. simpl. eauto.
Qed.

Lemma ranked_above_ne (precedence : list string) (k k' : string) :
  ranked_above precedence k k' -> k <> k'.
Proof.
  unfold ranked_above. intros H ->.
  destruct (rank precedence k'); [lia | exact H].
Qed.

(** The value a cell takes when the batch is the intention of [DN_rule]. *)
Lemma readCell_absorb_baseline (o : Classy.ObjectField) (f : Classy.Field)
    (dnId : string) (rule : Z) (i : nat) :
  "baseline" ∈ Classy.precedence o ->
  (i < Classy.size f)%nat ->
  Classy.readCell
    (Classy.absorbIntentionsAndAdvance o f
       [{| Classy.fromDN := dnId; Classy.toObject := Classy.objectId o;
           Classy.kind := "baseline";
           Classy.pulses := Classy.DN_rule_pulses rule f |}]) i
  = Classy.value (baseline_pulse rule f i).
Proof.
  intros Hprec Hi. rewrite readCell_absorb by exact Hi.
  set (its := [{| Classy.fromDN := dnId; Classy.toObject := Classy.objectId o;
                  Classy.kind := "baseline";
                  Classy.pulses := Classy.DN_rule_pulses rule f |}]).
  assert (Hprops : proposals o its
                   = (fun p => ("baseline", p))
                       <$> (baseline_pulse rule f <$> seq 0 (Classy.size f))).
  { unfold proposals, its. rewrite bind_cons. cbn [mbind list_bind].
    rewrite app_nil_r. cbn [Classy.toObject Classy.kind Classy.pulses].
    rewrite decide_True by reflexivity. rewrite DN_rule_pulses_fill. reflexivity. }
  assert (Hmem : forall k q, (k, q) ∈ proposals o its ->
                   k = "baseline" /\ exists j, (j < Classy.size f)%nat
                                              /\ q = baseline_pulse rule f j).
  { intros k q. rewrite Hprops, !list_elem_of_fmap.
    intros (q' & [= -> ->] & Hq'). split; [reflexivity|].
    apply list_elem_of_fmap in Hq'. destruct Hq' as (j & -> & Hj).
    apply elem_of_seq in Hj. exists j. split; [lia | reflexivity]. }
  destruct (top_proposal_highest (Classy.precedence o) (proposals o its)
              "baseline" i) as (q & Hq & Hqin & Hqid).
  - apply rank_is_Some, Hprec.
  - exists (baseline_pulse rule f i). split; [|reflexivity].
    rewrite Hprops. apply list_elem_of_fmap. eexists. split; [reflexivity|].
    apply list_elem_of_fmap. exists i. split; [reflexivity|].
    apply elem_of_seq. lia.
  - intros k' Hk' (q & Hq & _). apply Hmem in Hq. destruct Hq as [-> _].
    exact (ranked_above_ne _ _ _ Hk' eq_refl).
  - rewrite Hq. apply Hmem in Hqin. destruct Hqin as [_ (j & Hj & ->)].
    cbn [baseline_pulse Classy.id] in Hqid. apply cell_id_inj in Hqid.
    subst j. reflexivity.
Qed.

Lemma classy_baseline_row (o : Classy.ObjectField) (f : Classy.Field)
    (dnId : string) (rule : Z) :
  "baseline" ∈ Classy.precedence o ->
  Classy.snapshotRow
    (Classy.absorbIntentionsAndAdvance o f
       [{| Classy.fromDN := dnId; Classy.toObject := Classy.objectId o;
           Classy.kind := "baseline";
           Classy.pulses := Classy.DN_rule_pulses rule f |}])
  = Flat.ca_next rule (Classy.size f) (Classy.snapshotRow f).
Proof.
  intros Hprec. rewrite snapshotRow_fill, flat_ca_next_fill.
  cbn [Classy.absorbIntentionsAndAdvance Classy.setNextState Classy.size].
  apply list_eq. intros i. rewrite !list_lookup_fmap.
  destruct (decide (i < Classy.size f)%nat) as [Hi|Hi].
  - rewrite lookup_seq_lt by exact Hi. cbn [fmap option_fmap option_map]. f_equal.
    rewrite readCell_absorb_baseline by assumption.
    cbn [baseline_pulse Classy.value].
    rewrite !readCell_snapshot;
      [reflexivity | apply right_of_lt, Hi | exact Hi | apply left_of_lt, Hi].
  - rewrite lookup_seq_ge by lia. reflexivity.
Qed.

(** X4. One pass of the class-based script with [DN_rule] as its only node,
    under any precedence list that names ["baseline"], is one step of the
    classical automaton on the snapshot of the field: the next snapshot is
    the row the flat [runCA] computes; the node and the random generator are
    left as they were; and a whole run of such passes gives the grid of
    [runCA] from the same seed row. *)
Theorem classy_baseline_run_is_flat_ca (draws : nat -> Q) (dnId : string)
    (o : Classy.ObjectField) (rule : Z) (steps passIndex : nat)
    (f : Classy.Field) (pos : nat) :
  "baseline" ∈ Classy.precedence o ->
  let dns := [Classy.DN_rule dnId (Classy.objectId o) rule] in
  (exists f', Classy.pass draws dns o passIndex f pos = (f', dns, pos)
              /\ Classy.size f' = Classy.size f
              /\ Classy.snapshotRow f'
                 = Flat.ca_next rule (Classy.size f) (Classy.snapshotRow f))
  /\ (exists f', Classy.run_grid draws dns o steps f pos
                 = (Flat.runCA_from (flat_preset rule (Classy.size f) steps)
                      (Classy.snapshotRow f), f', dns, pos)).
Proof.
  intros Hprec dns.
  assert (Hpass : forall t g,
            Classy.pass draws dns o t g pos
            = (Classy.absorbIntentionsAndAdvance o g
                 [{| Classy.fromDN := dnId; Classy.toObject := Classy.objectId o;
                     Classy.kind := "baseline";
                     Classy.pulses := Classy.DN_rule_pulses rule g |}], dns, pos))
    by reflexivity.
  split.
  - eexists. split; [apply Hpass|]. split; [reflexivity|].
    apply classy_baseline_row, Hprec.
  - unfold Classy.run_grid, Flat.runCA_from.
    cbn [flat_preset Flat.rule Flat.size Flat.steps].
    assert (Hrun : forall n t g,
              exists g', Classy.run_passes draws dns o n t g pos
                         = (Flat.ca_rows rule (Classy.size g) n (Classy.snapshotRow g),
                            g', dns, pos)).
    { induction n as [|n IH]; intros t g.
      - exists g. reflexivity.
      - cbn [Classy.run_passes Flat.ca_rows]. rewrite Hpass.
        set (g1 := Classy.absorbIntentionsAndAdvance o g _).
        destruct (IH (S t) g1) as [g' Hg']. rewrite Hg'. exists g'.
        unfold g1. rewrite classy_baseline_row by exact Hprec. reflexivity. }
    destruct (Hrun (steps - 1)%nat 1%nat f) as [f' ->]. exists f'. reflexivity.
Qed.

Lemma classy_baseline_run_is_flat_ca_witness :
  fst (fst (fst (Classy.run_grid half_draws [Classy.DN_rule "DN_rule33" "O_field" 33]
                   {| Classy.objectId := "O_field"; Classy.precedence := ["baseline"] |}
                   3 (field_of_row [0; 1; 0]) 0)))
  = Flat.runCA_from (flat_preset 33 3 3) [0; 1; 0].
Proof.
  destruct (classy_baseline_run_is_flat_ca half_draws "DN_rule33"
              {| Classy.objectId := "O_field"; Classy.precedence := ["baseline"] |}
              33 3 1 (field_of_row [0; 1; 0]) 0%nat) as [_ [f' Hrun]].
  - cbn. left.
  - cbv zeta in Hrun. cbn [Classy.objectId] in Hrun. rewrite Hrun. reflexivity.
Defined.
(** ** Seeding *)

Lemma snapshot_of_map (size : nat) (g : nat -> Classy.Pulse) :
  Classy.snapshotRow
    (Classy.setNextState (Classy.new_Field size)
       (for_range size
          (fun (m : gmap string Classy.Pulse) i => <[Classy.cell_id i := g i]> m) ∅))
  = (fun i => Classy.value (g i)) <$> seq 0 size.
Proof.
  rewrite snapshotRow_fill.
  cbn [Classy.setNextState Classy.new_Field Classy.size].
  apply list_eq. intros i. rewrite !list_lookup_fmap.
  destruct (decide (i < size)%nat) as [Hi|Hi].
  - rewrite lookup_seq_lt by exact Hi. cbn [fmap option_fmap option_map]. f_equal.
    unfold Classy.readCell, Classy.setNextState. cbn [Classy.current].
    rewrite (next_map_lookup g), decide_True by exact Hi. reflexivity.
  - rewrite lookup_seq_ge by lia. reflexivity.
Qed.

Lemma one_hot_fill (size : nat) :
  (fun i => if bool_decide (i = (size / 2)%nat) then 1 else 0) <$> seq 0 size
  = one_hot size.
Proof.
  unfold one_hot. apply list_eq. intros i. rewrite list_lookup_fmap.
  destruct (decide (i < size)%nat) as [Hi|Hi].
  - rewrite lookup_seq_lt by exact Hi. cbn [fmap option_fmap option_map].
    destruct (decide ((size / 2)%nat = i)) as [Heq|Hne].
    + rewrite bool_decide_true by (symmetry; exact Heq). rewrite Heq.
      rewrite list_lookup_insert_eq by (rewrite length_replicate; exact Hi).
      reflexivity.
    + rewrite bool_decide_false by (intros H; apply Hne; symmetry; exact H).
      rewrite list_lookup_insert_ne by exact Hne.
      rewrite lookup_replicate_2 by exact Hi. reflexivity.
  - rewrite lookup_seq_ge by lia. symmetry. apply lookup_ge_None.
    rewrite length_insert, length_replicate. lia.
Qed.

(** X5. The mode ["single"] draws nothing and, on a positive width, seeds
    the same row in the three scripts: [size] cells, all 0 but the cell at
    [floor(size/2)]. On width 0 the class-based script seeds the empty row,
    while the flat and the ledger-based [initRow] write cell 0 of an empty
    array and return the one-cell row [1]. *)
Theorem initRow_single (draws : nat -> Q) (size pos : nat) :
  Flat.initRow draws size "single" pos
  = (if decide (size = 0%nat) then [1] else one_hot size, pos)
  /\ Cpux.initRow draws size "single" pos = Flat.initRow draws size "single" pos
  /\ Classy.snapshotRow
       (Classy.setNextState (Classy.new_Field size)
          (fst (Classy.initRow draws size "single" pos)))
     = one_hot size
  /\ snd (Classy.initRow draws size "single" pos) = pos
  /\ length (one_hot size) = size
  /\ (forall i, (i < size)%nat ->
        arr_get (one_hot size) i = if decide (i = (size / 2)%nat) then 1 else 0).
Proof.
  repeat apply conj.
  - unfold Flat.initRow. cbn [String.eqb Ascii.eqb Bool.eqb]. f_equal.
    destruct (decide (size = 0%nat)) as [->|Hs]; [reflexivity|].
    apply arr_set_in_range. rewrite length_replicate. apply Nat.div_lt; lia.
  - reflexivity.
  - unfold Classy.initRow. cbn [String.eqb Ascii.eqb Bool.eqb fst].
    rewrite (snapshot_of_map size
               (fun i => {| Classy.id := Classy.cell_id i;
                            Classy.value := if bool_decide (i = (size / 2)%nat)
                                            then 1 else 0 |})).
    apply one_hot_fill.
  - reflexivity.
  - unfold one_hot. rewrite length_insert, length_replicate. reflexivity.
  - intros i Hi. rewrite <- one_hot_fill, arr_get_fmap_seq by exact Hi.
    destruct (decide (i = (size / 2)%nat)) as [->|Hne].
    + rewrite bool_decide_true by reflexivity. reflexivity.
    + rewrite bool_decide_false by exact Hne. reflexivity.
Qed.

Lemma random_map_loop (draws : nat -> Q) (size pos : nat) :
  for_range size
    (fun '(map, pos) i =>
       (<[Classy.cell_id i := {| Classy.id := Classy.cell_id i;
                                 Classy.value := draw_bit (draws pos) js_0_1 |}]> map,
        S pos))
    ((∅ : gmap string Classy.Pulse), pos)
  = (for_range size
       (fun (map : gmap string Classy.Pulse) i =>
          <[Classy.cell_id i := {| Classy.id := Classy.cell_id i;
                                   Classy.value := draw_bit (draws (pos + i)%nat) js_0_1 |}]>
            map) ∅,
     (pos + size)%nat).
Proof.
  induction size as [|k IH].
  - simpl. rewrite Nat.add_0_r. reflexivity.
  - rewrite !for_range_S, IH. f_equal. lia.
Qed.

(** X6. The mode ["random"] seeds the same row in the three scripts from the
    same state of the random generator: cell [i] is 1 exactly when draw
    number [i] from there is under the double 0.1; each script makes [size]
    draws, one per cell, in the order of the cells. *)
Theorem initRow_random (draws : nat -> Q) (size pos : nat) :
  Flat.initRow draws size "random" pos = (random_row draws size pos, (pos + size)%nat)
  /\ Cpux.initRow draws size "random" pos
     = (random_row draws size pos, (pos + size)%nat)
  /\ Classy.snapshotRow
       (Classy.setNextState (Classy.new_Field size)
          (fst (Classy.initRow draws size "random" pos)))
     = random_row draws size pos
  /\ snd (Classy.initRow draws size "random" pos) = (pos + size)%nat
  /\ bit_row size (random_row draws size pos)
  /\ (forall i, (i < size)%nat ->
        (arr_get (random_row draws size pos) i = 1
         <-> (draws (pos + i)%nat < js_0_1)%Q)).
Proof.
  repeat apply conj.
  - unfold Flat.initRow. cbn [String.eqb Ascii.eqb Bool.eqb]. apply random_row_loop.
  - unfold Cpux.initRow. cbn [String.eqb Ascii.eqb Bool.eqb]. apply random_row_loop.
  - unfold Classy.initRow. cbn [String.eqb Ascii.eqb Bool.eqb].
    rewrite random_map_loop. cbn [fst].
    rewrite (snapshot_of_map size
               (fun i => {| Classy.id := Classy.cell_id i;
                            Classy.value := draw_bit (draws (pos + i)%nat) js_0_1 |})).
    reflexivity.
  - unfold Classy.initRow. cbn [String.eqb Ascii.eqb Bool.eqb].
    rewrite random_map_loop. reflexivity.
  - unfold random_row. rewrite length_fmap, length_seq. reflexivity.
  - unfold random_row. apply Forall_fmap, Forall_forall. intros i _. simpl.
    unfold draw_bit. destruct (Qltb _ _); [right | left]; reflexivity.
  - intros i Hi. unfold random_row. rewrite arr_get_fmap_seq by exact Hi.
    unfold draw_bit. rewrite <- Qltb_true.
    destruct (Qltb (draws (pos + i)%nat) js_0_1); split; intros H;
      try reflexivity; try discriminate; lia.
Qed.

(** ** What absorption keeps and what it drops *)

Lemma build_byKind_skips (o : Classy.ObjectField) (its1 its2 : list Classy.Intention)
    (it : Classy.Intention) :
  Classy.toObject it <> Classy.objectId o
  \/ Classy.kind it ∉ Classy.precedence o ->
  Classy.build_byKind o (its1 ++ it :: its2) = Classy.build_byKind o (its1 ++ its2).
Proof.
  intros Hskip. unfold Classy.build_byKind. rewrite !foldl_app. cbn [foldl].
  f_equal.
  assert (Hlook : Classy.kind it ∉ Classy.precedence o ->
            foldl (Classy.bucket_intention (Classy.objectId o))
              (Classy.init_byKind (Classy.precedence o)) its1 !! Classy.kind it
            = None).
  { intros Hkind. rewrite build_byKind_lookup, init_byKind_lookup.
    rewrite decide_False by exact Hkind. reflexivity. }
  set (byKind1 := foldl (Classy.bucket_intention (Classy.objectId o))
                    (Classy.init_byKind (Classy.precedence o)) its1) in *.
  unfold Classy.bucket_intention.
  destruct (decide (Classy.toObject it = Classy.objectId o)) as [Hto|Hto].
  - destruct Hskip as [Hne|Hkind]; [contradiction|].
    rewrite bool_decide_false by (intros Hne; apply Hne, Hto).
    rewrite (Hlook Hkind). reflexivity.
  - rewrite bool_decide_true by exact Hto. reflexivity.
Qed.

(** X9. [absorbIntentionsAndAdvance] skips an intention addressed to another
    object and an intention whose kind is not in the precedence list:
    wherever it stands in the batch, whatever pulses it carries, the next
    state is the one the batch gives without it. *)
Theorem absorb_skips_foreign_intentions (o : Classy.ObjectField) (f : Classy.Field)
    (its1 its2 : list Classy.Intention) (it : Classy.Intention) :
  Classy.toObject it <> Classy.objectId o
  \/ Classy.kind it ∉ Classy.precedence o ->
  Classy.absorbIntentionsAndAdvance o f (its1 ++ it :: its2)
  = Classy.absorbIntentionsAndAdvance o f (its1 ++ its2).
Proof.
  intros Hskip. unfold Classy.absorbIntentionsAndAdvance.
  rewrite (build_byKind_skips o its1 its2 it Hskip). reflexivity.
Qed.

Lemma absorb_skips_foreign_intentions_witness :
  Classy.absorbIntentionsAndAdvance demo_object (Classy.new_Field 2)
    ([demo_baseline]
       ++ {| Classy.fromDN := "DN_x"; Classy.toObject := "O_field";
             Classy.kind := "novelty";
             Classy.pulses := [{| Classy.id := "cell:1"; Classy.value := 1 |}] |}
       :: [demo_proposal])
  = Classy.absorbIntentionsAndAdvance demo_object (Classy.new_Field 2)
      ([demo_baseline] ++ [demo_proposal]).
Proof.
  apply absorb_skips_foreign_intentions. right.
  cbn [Classy.kind demo_object Classy.precedence].
  intros Hin. repeat (apply elem_of_cons in Hin; destruct Hin as [Hin|Hin];
                      [discriminate Hin|]).
  inversion Hin.
Defined.

Lemma top_proposal_Some (precedence : list string)
    (props : list (string * Classy.Pulse)) (pid : string) (q : Classy.Pulse) :
  top_proposal precedence props pid = Some q ->
  Classy.id q = pid /\ exists k, k ∈ precedence /\ (k, q) ∈ props.
Proof.
  induction precedence as [|k rest IH]; [discriminate|].
  cbn [top_proposal].
  destruct (last_with_id pid (pulses_of_kind k props)) as [q'|] eqn:Hq.
  - intros [= ->]. apply last_with_id_Some in Hq.
    rewrite elem_of_pulses_of_kind in Hq. destruct Hq as [Hin Hid].
    split; [exact Hid|]. exists k. split; [left | exact Hin].
  - intros H. destruct (IH H) as [Hid (k' & Hk' & Hin)].
    split; [exact Hid|]. exists k'. split; [right; exact Hk' | exact Hin].
Qed.

Lemma next_map_entries (g : nat -> Classy.Pulse) (n : nat) (key : string)
    (p : Classy.Pulse) :
  for_range n (fun (next : gmap string Classy.Pulse) j =>
                 <[Classy.cell_id j := g j]> next) ∅ !! key = Some p ->
  exists i, (i < n)%nat /\ key = Classy.cell_id i /\ p = g i.
Proof.
  induction n as [|n IH].
  - unfold for_range. simpl. rewrite lookup_empty. discriminate.
  - rewrite for_range_S. destruct (decide (Classy.cell_id n = key)) as [<-|Hne].
    + rewrite lookup_insert_eq. intros [= <-]. exists n. split; [lia | tauto].
    + rewrite lookup_insert_ne by exact Hne. intros H.
      destruct (IH H) as (i & Hi & Hk & Hp). exists i. split; [lia | tauto].
Qed.

Lemma next_map_size (g : nat -> Classy.Pulse) (n : nat) :
  size (for_range n (fun (next : gmap string Classy.Pulse) j =>
                       <[Classy.cell_id j := g j]> next) ∅) = n.
Proof.
  induction n as [|n IH]; [apply map_size_empty|].
  rewrite for_range_S, map_size_insert_None, IH; [reflexivity|].
  rewrite next_map_lookup, decide_False by lia. reflexivity.
Qed.

(** X10. The state [absorbIntentionsAndAdvance] builds does not depend on
    the pulses of the previous state and has exactly one pulse per cell of
    the field: its keys are the ids of the cells, every pulse is stored under
    its own id, and every pulse is either one that an intention addressed to
    the object carried under a kind of the precedence list, or the default
    pulse of value 0. *)
Theorem absorb_next_state_shape (o : Classy.ObjectField) (f : Classy.Field)
    (its : list Classy.Intention) :
  let f' := Classy.absorbIntentionsAndAdvance o f its in
  Classy.size f' = Classy.size f
  /\ size (Classy.current f') = Classy.size f
  /\ (forall i, (i < Classy.size f)%nat ->
        is_Some (Classy.current f' !! Classy.cell_id i))
  /\ (forall key p, Classy.current f' !! key = Some p ->
        Classy.id p = key
        /\ (exists i, (i < Classy.size f)%nat /\ key = Classy.cell_id i)
        /\ ((exists k, k ∈ Classy.precedence o /\ (k, p) ∈ proposals o its)
            \/ p = {| Classy.id := key; Classy.value := 0 |}))
  /\ (forall m, Classy.absorbIntentionsAndAdvance o (Classy.setNextState f m) its
                = f').
Proof.
  cbv zeta. unfold Classy.absorbIntentionsAndAdvance.
  cbn [Classy.setNextState Classy.size Classy.current].
  set (g := fun j => match Classy.choose (Classy.precedence o)
                             (Classy.build_byKind o its) (Classy.cell_id j) with
                     | Some p => p
                     | None => {| Classy.id := Classy.cell_id j; Classy.value := 0 |}
                     end).
  repeat apply conj.
  - reflexivity.
  - apply (next_map_size g).
  - intros i Hi. rewrite (next_map_lookup g), decide_True by exact Hi. eauto.
  - intros key p Hp. apply (next_map_entries g) in Hp.
    destruct Hp as (i & Hi & -> & ->). subst g. cbv beta.
    rewrite choose_top_proposal by auto.
    destruct (top_proposal (Classy.precedence o) (proposals o its) (Classy.cell_id i))
      as [q|] eqn:Hq.
    + apply top_proposal_Some in Hq. destruct Hq as [Hid Hk].
      split; [exact Hid | split; [eauto | left; exact Hk]].
    + split; [reflexivity | split; [eauto | right; reflexivity]].
  - reflexivity.
Qed.
(** ** The ledger-based Intention-Space run *)

Lemma cpi_emitted_S (draws : nat -> Q) (dn : Cpux.DesignNodes) (pass : nat)
    (prev : list Z) (objectId : string) (pos k : nat) :
  omap (fun i => cpi_intention pass objectId i <$> cpi_kind draws dn prev pos i)
    (seq 0 (S k))
  = omap (fun i => cpi_intention pass objectId i <$> cpi_kind draws dn prev pos i)
      (seq 0 k)
    ++ match cpi_kind draws dn prev pos k with
       | Some kind => [cpi_intention pass objectId k kind]
       | None => []
       end.
Proof.
  rewrite seq_S, omap_app. f_equal. simpl.
  destruct (cpi_kind draws dn prev pos k); reflexivity.
Qed.

(** What [DN_CPI.emitIntentions] pushes: at most one intention per cell, in
    the order of the cells; one draw per cell. *)
Lemma cpux_DN_CPI_emits (draws : nat -> Q) (dn : Cpux.DesignNodes) (pass : nat)
    (prev : list Z) (objectId : string) (incoming : list Cpux.Intention)
    (pos : nat) :
  Cpux.DN_CPI_emitIntentions draws dn pass prev objectId incoming pos
  = (incoming ++ cpi_emitted draws dn pass prev objectId pos,
     (pos + length prev)%nat).
Proof.
  unfold Cpux.DN_CPI_emitIntentions, cpi_emitted.
  generalize (length prev). intros n.
  induction n as [|k IH].
  - simpl. rewrite app_nil_r, Nat.add_0_r. reflexivity.
  - rewrite for_range_S, IH, cpi_emitted_S.
    unfold Cpux.DN_CPI_cell, cpi_kind.
    destruct (Cpux.neighborhood3 prev k) as [[[l c] r] nb].
    destruct (Qltb (draws (pos + k)%nat) (Cpux.injectProb dn)).
    + rewrite app_assoc. unfold cpi_intention. f_equal. lia.
    + destruct (bool_decide (0 < size (Cpux.patternSet dn))%nat
                && bool_decide (nb ∈ Cpux.patternSet dn)).
      * rewrite app_assoc. unfold cpi_intention. f_equal. lia.
      * rewrite app_nil_r. f_equal. lia.
Qed.

Lemma cpux_absorb_appends (incoming : list Cpux.Intention)
    (ledger : list Cpux.Pulse) :
  Cpux.absorbIntentionsIntoLedger incoming ledger
  = (ledger ++ (Cpux.pulse <$> incoming), []).
Proof.
  unfold Cpux.absorbIntentionsIntoLedger. f_equal.
  revert ledger. induction incoming as [|I rest IH]; intros ledger.
  - simpl. rewrite app_nil_r. reflexivity.
  - cbn [foldl]. rewrite IH, fmap_cons, <- app_assoc. reflexivity.
Qed.

(** The ledger after a pass, the counters and the cursor: one equation for
    the body of the loop of [runCPUX_ISVariant]. *)
Lemma cpux_is_pass_unfold (draws : nat -> Q) (cfg : Cpux.Config)
    (dn : Cpux.DesignNodes) (pass : nat) (prev : list Z) (st : Cpux.Loop) :
  let n := length prev in
  let cs := default (replicate n 0) (Cpux.consecOnes st) in
  let emitted :=
    cpi_emitted draws dn pass prev "O_IS" (Cpux.cursor st)
    ++ (cpux_reflection pass "O_IS" n
          <$> reflecting (Cpux.reflectionHold dn) (arr_get prev) cs n) in
  let ledger := Cpux.pulseLedger st ++ (Cpux.pulse <$> emitted) in
  length cs = n ->
  Cpux.is_pass draws cfg dn pass prev st
  = (Cpux.mergeOverride (Cpux.applyBaseRule (Cpux.ruleNumber cfg) prev)
       (Cpux.buildOverrideMapForPass ledger pass (Cpux.size cfg)),
     {| Cpux.pulseLedger := ledger;
        Cpux.consecOnes := Some (next_counters (arr_get prev) cs n);
        Cpux.cursor := (Cpux.cursor st + n)%nat |}).
Proof.
  intros n cs emitted ledger Hlen. unfold Cpux.is_pass.
  rewrite cpux_DN_CPI_emits.
  rewrite (cpux_DN_REFLECT_counts_then_emits dn pass prev "O_IS"
             (Cpux.consecOnes st)) by exact Hlen.
  rewrite cpux_absorb_appends. reflexivity.
Qed.

(** *** The override map *)

Lemma buildOverrideMapForPass_snoc (ledger : list Cpux.Pulse) (u : Cpux.Pulse)
    (pass size : nat) :
  Cpux.buildOverrideMapForPass (ledger ++ [u]) pass size
  = if decide (Cpux.passIndex u = pass)
    then arr_set (Cpux.buildOverrideMapForPass ledger pass size)
           (Cpux.targetIndex u) 1
    else Cpux.buildOverrideMapForPass ledger pass size.
Proof.
  unfold Cpux.buildOverrideMapForPass. rewrite foldl_app. cbn [foldl].
  destruct (decide (Cpux.passIndex u = pass)) as [H|H].
  - rewrite bool_decide_false by (intros Hne; apply Hne, H). reflexivity.
  - rewrite bool_decide_true by exact H. reflexivity.
Qed.

Lemma buildOverrideMapForPass_bits (ledger : list Cpux.Pulse) (pass size : nat) :
  Forall is_bit (Cpux.buildOverrideMapForPass ledger pass size).
Proof.
  induction ledger as [|u ledger IH] using rev_ind.
  - apply Forall_replicate. left. reflexivity.
  - rewrite buildOverrideMapForPass_snoc. destruct (decide _); [|exact IH].
    apply Forall_arr_set; [left | right | exact IH]; reflexivity.
Qed.

Lemma buildOverrideMapForPass_length (ledger : list Cpux.Pulse) (pass size : nat) :
  Forall (fun u => Cpux.passIndex u = pass -> (Cpux.targetIndex u < size)%nat) ledger ->
  length (Cpux.buildOverrideMapForPass ledger pass size) = size.
Proof.
  induction ledger as [|u ledger IH] using rev_ind; intros Hin.
  - apply length_replicate.
  - apply Forall_app in Hin. destruct Hin as [Hl Hu].
    apply Forall_inv in Hu.
    rewrite buildOverrideMapForPass_snoc.
    destruct (decide (Cpux.passIndex u = pass)) as [Hp|Hp]; [|apply IH, Hl].
    rewrite length_arr_set; rewrite (IH Hl); [reflexivity | apply Hu, Hp].
Qed.

Lemma bit_is_one (z : Z) : is_bit z -> (z = 1 <-> truthy z = true).
Proof. intros [-> | ->]; unfold truthy; simpl; split; congruence. Qed.

Lemma list_eq_arr_get (a b : list Z) :
  length a = length b ->
  (forall j, (j < length a)%nat -> arr_get a j = arr_get b j) ->
  a = b.
Proof.
  intros Hlen Hget. apply list_eq. intros j.
  destruct (decide (j < length a)%nat) as [Hj|Hj].
  - specialize (Hget j Hj). unfold arr_get in Hget.
    destruct (lookup_lt_is_Some_2 a j Hj) as [x Hx].
    destruct (lookup_lt_is_Some_2 b j) as [y Hy]; [lia|].
    rewrite Hx, Hy in *. simpl in Hget. congruence.
  - rewrite !lookup_ge_None_2 by lia. reflexivity.
Qed.

(** X8. The override map of a pass holds 1 at the cells that a pulse of the
    ledger written for that pass targets and 0 at every other cell; pulses
    written for other passes never show in it, so the whole ledger can be
    scanned at every pass; when the targets are inside the grid the map has
    [size] cells and does not depend on the order of the ledger. *)
Theorem buildOverrideMapForPass_reads_its_pass (ledger : list Cpux.Pulse)
    (pass size : nat) :
  let o := Cpux.buildOverrideMapForPass ledger pass size in
  (forall j,
      is_bit (arr_get o j)
      /\ (arr_get o j = 1
          <-> exists u, u ∈ ledger /\ Cpux.passIndex u = pass
                        /\ Cpux.targetIndex u = j))
  /\ o = Cpux.buildOverrideMapForPass
           (filter (fun u => Cpux.passIndex u = pass) ledger) pass size
  /\ (Forall (fun u => Cpux.passIndex u = pass -> (Cpux.targetIndex u < size)%nat)
        ledger ->
      length o = size
      /\ forall ledger', ledger' ≡ₚ ledger ->
           Cpux.buildOverrideMapForPass ledger' pass size = o).
Proof.
  cbv zeta.
  assert (Hbit : forall l j, is_bit (arr_get (Cpux.buildOverrideMapForPass l pass size) j)).
  { intros l j. apply Forall_arr_get;
      [left; reflexivity | apply buildOverrideMapForPass_bits]. }
  assert (Hone : forall l j,
            arr_get (Cpux.buildOverrideMapForPass l pass size) j = 1
            <-> exists u, u ∈ l /\ Cpux.passIndex u = pass /\ Cpux.targetIndex u = j).
  { intros l j. rewrite (bit_is_one _ (Hbit l j)).
    apply buildOverrideMapForPass_set. }
  split; [|split].
  - intros j. split; [apply Hbit | apply Hone].
  - induction ledger as [|u ledger IH] using rev_ind; [reflexivity|].
    rewrite filter_app, buildOverrideMapForPass_snoc.
    destruct (decide (Cpux.passIndex u = pass)) as [Hp|Hp].
    + rewrite filter_cons_True, filter_nil by exact Hp.
      rewrite buildOverrideMapForPass_snoc, decide_True by exact Hp.
      rewrite <- IH. reflexivity.
    + rewrite filter_cons_False, filter_nil, app_nil_r by exact Hp. exact IH.
  - intros Hin. split; [apply buildOverrideMapForPass_length, Hin|].
    intros ledger' Hperm. apply list_eq_arr_get.
    + rewrite !buildOverrideMapForPass_length; [reflexivity | exact Hin |].
      rewrite Hperm. exact Hin.
    + intros j _.
      destruct (Hbit ledger' j) as [H0|H1], (Hbit ledger j) as [H0'|H1'];
        try congruence.
      * apply Hone in H1'. destruct H1' as (u & Hu & Hrest).
        rewrite <- Hperm in Hu.
        assert (H1 : arr_get (Cpux.buildOverrideMapForPass ledger' pass size) j = 1)
          by (apply Hone; eauto).
        congruence.
      * apply Hone in H1. destruct H1 as (u & Hu & Hrest).
        rewrite Hperm in Hu.
        assert (H1' : arr_get (Cpux.buildOverrideMapForPass ledger pass size) j = 1)
          by (apply Hone; eauto).
        congruence.
Qed.

(** *** The ledger over a run *)

Lemma reflect_target_lt (i n : nat) : (i < n)%nat -> (reflect_target i n < n)%nat.
Proof.
  intros Hi. rewrite reflect_target_neighbour by exact Hi. unfold neighbour_of.
  destruct (Nat.even i); apply Nat.mod_upper_bound; lia.
Qed.

Lemma length_omap_le {A B : Type} (f : A -> option B) (l : list A) :
  (length (omap f l) <= length l)%nat.
Proof.
  induction l as [|x l IH]; [reflexivity|].
  cbn [omap list_omap]. destruct (f x); simpl; lia.
Qed.

Lemma pass_pulses_facts (draws : nat -> Q) (dn : Cpux.DesignNodes) (pass : nat)
    (prev : list Z) (st : Cpux.Loop) :
  Forall (pulse_of_pass pass (length prev)) (pass_pulses draws dn pass prev st)
  /\ (length (pass_pulses draws dn pass prev st) <= 2 * length prev)%nat.
Proof.
  unfold pass_pulses. rewrite fmap_app, Forall_app, length_app, !length_fmap.
  repeat split.
  - apply Forall_fmap, Forall_forall. intros I HI.
    unfold cpi_emitted in HI. apply list_elem_of_omap in HI.
    destruct HI as (i & Hi & HI). apply elem_of_seq in Hi.
    unfold cpi_kind in HI.
    destruct (Cpux.neighborhood3 prev i) as [[[l c] r] nb].
    destruct (Qltb _ _); [|destruct (_ && _)]; simpl in HI;
      try discriminate; injection HI as <-;
      (split; [reflexivity | split; [simpl; lia | simpl; tauto]]).
  - rewrite <- list_fmap_compose. apply Forall_fmap, Forall_forall. intros i Hi.
    apply reflecting_spec in Hi. destruct Hi as [Hi _].
    split; [reflexivity | split; [apply reflect_target_lt, Hi | simpl; tauto]].
  - pose proof (length_omap_le
                  (fun i => cpi_intention pass "O_IS" i
                              <$> cpi_kind draws dn prev (Cpux.cursor st) i)
                  (seq 0 (length prev))) as H1.
    rewrite length_seq in H1. unfold cpi_emitted.
    pose proof (length_filter
                  (fun i => Cpux.reflectionHold dn
                            <= new_count (arr_get prev i)
                                 (arr_get (default (replicate (length prev) 0)
                                             (Cpux.consecOnes st)) i))
                  (seq 0 (length prev))) as H2.
    rewrite length_seq in H2. unfold reflecting. lia.
Qed.

Lemma cpux_merge_bit_row (rule : Z) (prev o : list Z) :
  bit_row (length prev) (Cpux.mergeOverride (Cpux.applyBaseRule rule prev) o).
Proof.
  destruct (cpux_mergeOverride_cells (Cpux.applyBaseRule rule prev) o) as [Hl Hget].
  assert (Hb : length (Cpux.applyBaseRule rule prev) = length prev).
  { rewrite cpux_applyBaseRule_fill, length_fmap, length_seq. reflexivity. }
  split; [rewrite Hl; exact Hb|].
  apply Forall_lookup. intros j x Hx.
  assert (Hj : (j < length (Cpux.applyBaseRule rule prev))%nat).
  { rewrite <- Hl. eapply lookup_lt_Some, Hx. }
  specialize (Hget j Hj). rewrite (arr_get_lookup _ _ _ Hx) in Hget. subst x.
  destruct (truthy (arr_get o j)); [right; reflexivity|].
  apply Forall_arr_get; [left; reflexivity | apply cpux_applyBaseRule_bits].
Qed.





(** ** The ledger-based run against the flat run *)

Lemma arr_set_mid (pre rest : list Z) (y x : Z) (k : nat) :
  length pre = k -> arr_set (pre ++ y :: rest) k x = pre ++ x :: rest.
Proof.
  intros <-. rewrite arr_set_in_range by (rewrite length_app; simpl; lia).
  rewrite insert_app_r_alt by lia. rewrite Nat.sub_diag. reflexivity.
Qed.

(** The proposal array after phase A: 1 at the cells where the pattern
    matched or the draw fell under the probability. *)
Lemma flat_phaseA_proposal (draws : nat -> Q) (p : Flat.Preset)
    (prev cs : list Z) (pos : nat) :
  Flat.proposal (Flat.phaseA draws p prev cs pos)
  = (fun i => if flat_proposes draws p prev pos i then 1 else 0)
      <$> seq 0 (Flat.size p).
Proof.
  set (g := fun i => if flat_proposes draws p prev pos i then 1 else 0).
  unfold Flat.phaseA.
  pose (I := fun (k : nat) (st : Flat.PhaseA) =>
               Flat.proposal st = (g <$> seq 0 k) ++ replicate (Flat.size p - k) 0
               /\ Flat.cursor st = (pos + k)%nat).
  enough (H : I (Flat.size p)
                (for_range (Flat.size p) (Flat.phaseA_cell draws p prev)
                   {| Flat.proposal := replicate (Flat.size p) 0;
                      Flat.reflection := replicate (Flat.size p) 0;
                      Flat.consecOnes := cs; Flat.cursor := pos |})).
  { destruct H as [H _]. rewrite H, Nat.sub_diag. apply app_nil_r. }
  apply (for_range_invariant I); subst I; cbv beta.
  - cbn [Flat.proposal Flat.cursor]. rewrite Nat.sub_0_r, Nat.add_0_r.
    split; reflexivity.
  - intros k st Hk [Hprop Hcur]. unfold Flat.phaseA_cell.
    cbn [Flat.proposal Flat.cursor]. split; [|lia].
    rewrite Hprop, Hcur.
    assert (Hlen : length (g <$> seq 0 k) = k)
      by (rewrite length_fmap, length_seq; reflexivity).
    replace (Flat.size p - k)%nat with (S (Flat.size p - S k)) by lia.
    cbn [replicate]. rewrite seq_S, fmap_app, <- app_assoc. cbn [fmap list_fmap app].
    change (0 + k)%nat with k.
    set (b1 := truthy (Flat.cpiPropose (arr_get prev (left_of k (Flat.size p)))
                         (arr_get prev k) (arr_get prev (right_of k (Flat.size p)))
                         (Flat.cpiPatterns p))).
    set (b2 := Qltb (draws (pos + k)%nat) (Flat.injectProb p)).
    assert (Hg : g k = if b1 || b2 then 1 else 0) by reflexivity.
    rewrite Hg. clearbody b1 b2.
    destruct b1, b2; cbn [orb];
      rewrite ?(arr_set_mid _ _ _ _ k Hlen); reflexivity.
Qed.

Lemma make_patternSet_trimmed (pats : list string) (s : string) :
  Forall trimmed pats -> s ∈ Cpux.make_patternSet pats <-> s ∈ pats.
Proof.
  intros Hpats. unfold Cpux.make_patternSet.
  rewrite elem_of_list_to_set, list_elem_of_filter, list_elem_of_fmap.
  rewrite Forall_forall in Hpats. split.
  - intros [_ (y & -> & Hy)]. destruct (Hpats y Hy) as [-> _]. exact Hy.
  - intros Hs. destruct (Hpats s Hs) as [Htrim Hne].
    split; [exact Hne|]. exists s. split; [symmetry; exact Htrim | exact Hs].
Qed.

(** On trimmed patterns the two scripts take the same decision at a cell. *)
Lemma cpi_kind_flat_proposes (draws : nat -> Q) (cfg : Cpux.Config)
    (prev : list Z) (pos i : nat) :
  Forall trimmed (Cpux.cpiPatterns cfg) ->
  length prev = Cpux.size cfg ->
  is_Some (cpi_kind draws
             (Cpux.makeDesignNodes (Cpux.cpiPatterns cfg) (Cpux.cfg_injectProb cfg)
                (Cpux.cfg_reflectionHold cfg)) prev pos i)
  <-> flat_proposes draws (flat_of_cpux cfg) prev pos i = true.
Proof.
  intros Hpats Hlen. unfold cpi_kind, flat_proposes, Cpux.neighborhood3.
  cbn [Cpux.makeDesignNodes Cpux.injectProb Cpux.patternSet flat_of_cpux
       Flat.size Flat.cpiPatterns Flat.injectProb].
  rewrite Hlen.
  set (l := arr_get prev (left_of i (Cpux.size cfg))).
  set (c := arr_get prev i).
  set (r := arr_get prev (right_of i (Cpux.size cfg))).
  assert (Hpat : (bool_decide (0 < size (Cpux.make_patternSet (Cpux.cpiPatterns cfg)))%nat
                  && bool_decide (nb_string l c r
                                    ∈ Cpux.make_patternSet (Cpux.cpiPatterns cfg)))
                 = truthy (Flat.cpiPropose l c r (Cpux.cpiPatterns cfg))).
  { unfold Flat.cpiPropose.
    destruct (decide (nb_string l c r ∈ Cpux.cpiPatterns cfg)) as [Hin|Hin].
    - assert (Hin' : nb_string l c r ∈ Cpux.make_patternSet (Cpux.cpiPatterns cfg))
        by (apply make_patternSet_trimmed; assumption).
      rewrite (bool_decide_true _ Hin'), (bool_decide_true _ Hin).
      rewrite bool_decide_true.
      + rewrite bool_decide_false; [reflexivity|].
        intros H0. destruct (Cpux.cpiPatterns cfg); [inversion Hin | discriminate H0].
      + destruct (decide (size (Cpux.make_patternSet (Cpux.cpiPatterns cfg)) = 0%nat))
          as [H0|H0]; [|lia].
        apply size_empty_inv in H0. rewrite H0 in Hin'. inversion Hin'.
    - assert (Hin' : nb_string l c r ∉ Cpux.make_patternSet (Cpux.cpiPatterns cfg))
        by (rewrite make_patternSet_trimmed; assumption).
      rewrite (bool_decide_false _ Hin'), (bool_decide_false _ Hin), andb_false_r.
      destruct (bool_decide _); reflexivity. }
  rewrite Hpat.
  destruct (Qltb (draws (pos + i)%nat) (Cpux.cfg_injectProb cfg));
    destruct (truthy (Flat.cpiPropose l c r (Cpux.cpiPatterns cfg))); cbn [orb];
    split; intros H; try reflexivity; try eauto; try discriminate;
    destruct H as [? H]; discriminate H.
Qed.

(** The cells that the pulses of a pass target. *)
Lemma pass_pulses_target (draws : nat -> Q) (dn : Cpux.DesignNodes) (pass : nat)
    (prev : list Z) (st : Cpux.Loop) (j : nat) :
  (exists u, u ∈ pass_pulses draws dn pass prev st /\ Cpux.targetIndex u = j)
  <-> ((j < length prev)%nat /\ is_Some (cpi_kind draws dn prev (Cpux.cursor st) j))
      \/ (exists i, i ∈ reflecting (Cpux.reflectionHold dn) (arr_get prev)
                          (default (replicate (length prev) 0) (Cpux.consecOnes st))
                          (length prev)
                    /\ reflect_target i (length prev) = j).
Proof.
  unfold pass_pulses. split.
  - intros (u & Hu & Hj). apply list_elem_of_fmap in Hu.
    destruct Hu as (I & -> & HI). apply elem_of_app in HI. destruct HI as [HI|HI].
    + left. unfold cpi_emitted in HI. apply list_elem_of_omap in HI.
      destruct HI as (i & Hi & HI). apply elem_of_seq in Hi.
      destruct (cpi_kind draws dn prev (Cpux.cursor st) i) as [kind|] eqn:Hk;
        [|discriminate]. injection HI as <-. simpl in Hj. subst j.
      split; [lia | rewrite Hk; eauto].
    + right. apply list_elem_of_fmap in HI. destruct HI as (i & -> & Hi).
      exists i. split; [exact Hi | exact Hj].
  - intros [[Hj [kind Hk]] | (i & Hi & Hj)].
    + exists (Cpux.pulse (cpi_intention pass "O_IS" j kind)). split; [|reflexivity].
      apply list_elem_of_fmap. eexists. split; [reflexivity|].
      apply elem_of_app. left. unfold cpi_emitted. apply list_elem_of_omap.
      exists j. split; [apply elem_of_seq; lia | rewrite Hk; reflexivity].
    + exists (Cpux.pulse (cpux_reflection pass "O_IS" (length prev) i)).
      split; [|exact Hj].
      apply list_elem_of_fmap. eexists. split; [reflexivity|].
      apply elem_of_app. right. apply list_elem_of_fmap. eauto.
Qed.

Lemma bool_eq_iff (b1 b2 : bool) : (b1 = true <-> b2 = true) -> b1 = b2.
Proof. destruct b1, b2; intros [H1 H2]; try reflexivity; [symmetry|]; auto. Qed.

Lemma truthy_bit_of_bool (b : bool) : truthy (if b then 1 else 0) = b.
Proof. destruct b; reflexivity. Qed.

(** One pass of the ledger-based script computes the row of one step of the
    flat script, from the same row, counters and state of the generator. *)
Lemma cpux_pass_is_flat_step (draws : nat -> Q) (cfg : Cpux.Config)
    (t : nat) (prev cs : list Z) (st : Cpux.Loop) :
  Forall trimmed (Cpux.cpiPatterns cfg) ->
  length prev = Cpux.size cfg ->
  length cs = Cpux.size cfg ->
  default (replicate (Cpux.size cfg) 0) (Cpux.consecOnes st) = cs ->
  Forall (fun u => (Cpux.passIndex u < t)%nat) (Cpux.pulseLedger st) ->
  let dn := Cpux.makeDesignNodes (Cpux.cpiPatterns cfg) (Cpux.cfg_injectProb cfg)
              (Cpux.cfg_reflectionHold cfg) in
  let a := Flat.phaseA draws (flat_of_cpux cfg) prev cs (Cpux.cursor st) in
  Cpux.is_pass draws cfg dn t prev st
  = (Flat.phaseB (flat_of_cpux cfg) prev (Flat.proposal a) (Flat.reflection a),
     {| Cpux.pulseLedger := Cpux.pulseLedger st ++ pass_pulses draws dn t prev st;
        Cpux.consecOnes := Some (Flat.consecOnes a);
        Cpux.cursor := Flat.cursor a |}).
Proof.
  intros Hpats Hprev Hcs Hdef Hold dn a.
  rewrite cpux_is_pass_unfold by (rewrite Hprev, Hdef; exact Hcs).
  fold (pass_pulses draws dn t prev st).
  destruct (flat_phaseA_counts_then_reflects draws (flat_of_cpux cfg) prev cs
              (Cpux.cursor st) Hcs) as [Hcount Hrefl].
  cbv zeta in Hcount, Hrefl. fold a in Hcount, Hrefl.
  cbn [flat_of_cpux Flat.size Flat.reflectionHold] in Hcount, Hrefl.
  f_equal.
  - apply list_eq_arr_get.
    + destruct (cpux_merge_bit_row (Cpux.ruleNumber cfg) prev
                  (Cpux.buildOverrideMapForPass
                     (Cpux.pulseLedger st ++ pass_pulses draws dn t prev st) t
                     (Cpux.size cfg))) as [-> _].
      destruct (flat_phaseB_bit_row (flat_of_cpux cfg) prev (Flat.proposal a)
                  (Flat.reflection a)) as [-> _].
      exact Hprev.
    + intros j Hj.
      destruct (cpux_merge_bit_row (Cpux.ruleNumber cfg) prev
                  (Cpux.buildOverrideMapForPass
                     (Cpux.pulseLedger st ++ pass_pulses draws dn t prev st) t
                     (Cpux.size cfg))) as [Hl _].
      rewrite Hl, Hprev in Hj.
      destruct (cpux_mergeOverride_cells
                  (Cpux.applyBaseRule (Cpux.ruleNumber cfg) prev)
                  (Cpux.buildOverrideMapForPass
                     (Cpux.pulseLedger st ++ pass_pulses draws dn t prev st) t
                     (Cpux.size cfg))) as [_ Hget].
      rewrite Hget
        by (rewrite cpux_applyBaseRule_fill, length_fmap, length_seq, Hprev; exact Hj).
      rewrite cpux_applyBaseRule_fill, flat_phaseB_fill, Hprev.
      rewrite !arr_get_fmap_seq by exact Hj.
      cbn [flat_of_cpux Flat.size Flat.rule].
      assert (Hover : truthy (arr_get (Cpux.buildOverrideMapForPass
                                         (Cpux.pulseLedger st
                                          ++ pass_pulses draws dn t prev st) t
                                         (Cpux.size cfg)) j)
                      = truthy (arr_get (Flat.proposal a) j)
                        || truthy (arr_get (Flat.reflection a) j)).
      { apply bool_eq_iff.
        rewrite buildOverrideMapForPass_set, orb_true_iff.
        unfold a at 1. rewrite flat_phaseA_proposal.
        cbn [flat_of_cpux Flat.size].
        rewrite arr_get_fmap_seq, truthy_bit_of_bool by exact Hj.
        rewrite <- (cpi_kind_flat_proposes draws cfg prev (Cpux.cursor st) j Hpats Hprev).
        fold dn.
        assert (Hr : truthy (arr_get (Flat.reflection a) j) = true
                     <-> exists i,
                           i ∈ reflecting (Cpux.cfg_reflectionHold cfg) (arr_get prev)
                                 cs (Cpux.size cfg)
                           /\ reflect_target i (Cpux.size cfg) = j).
        { rewrite Hrefl.
          destruct (marks_get (fun i => reflect_target i (Cpux.size cfg))
                      (reflecting (Cpux.cfg_reflectionHold cfg) (arr_get prev) cs
                         (Cpux.size cfg)) (Cpux.size cfg) j) as [Hone Hbit].
          cbv zeta in Hone, Hbit. rewrite <- (bit_is_one _ Hbit). exact Hone. }
        rewrite Hr.
        pose proof (pass_pulses_target draws dn t prev st j) as Htar.
        rewrite Hprev, Hdef in Htar.
        cbn [dn Cpux.makeDesignNodes Cpux.reflectionHold] in Htar.
        fold dn in Htar.
        destruct (pass_pulses_facts draws dn t prev st) as [Hfacts _].
        rewrite Forall_forall in Hfacts. rewrite Forall_forall in Hold. split.
        - intros (u & Hu & Hut & Huj). apply elem_of_app in Hu.
          destruct Hu as [Hu|Hu]; [specialize (Hold u Hu); lia|].
          destruct (proj1 Htar (ex_intro _ u (conj Hu Huj))) as [[_ Hs]|Hr'];
            [left; exact Hs | right; exact Hr'].
        - intros Hcase.
          assert (Hcase' : (j < Cpux.size cfg)%nat
                           /\ is_Some (cpi_kind draws dn prev (Cpux.cursor st) j)
                           \/ (exists i,
                                  i ∈ reflecting (Cpux.cfg_reflectionHold cfg)
                                        (arr_get prev) cs (Cpux.size cfg)
                                  /\ reflect_target i (Cpux.size cfg) = j))
            by (destruct Hcase as [Hs|Hr']; [left; split; assumption | right; exact Hr']).
          destruct (proj2 Htar Hcase') as (u & Hu & Huj). exists u.
          split; [apply elem_of_app; right; exact Hu|]. split; [|exact Huj].
          apply (Hfacts u Hu). }
      rewrite Hover. reflexivity.
  - rewrite Hprev, Hdef. cbn [dn Cpux.makeDesignNodes]. f_equal.
    + rewrite Hcount. reflexivity.
    + unfold a. rewrite flat_phaseA_draws_every_cell.
      cbn [flat_of_cpux Flat.size]. reflexivity.
Qed.

Lemma cpux_is_rows_flat (draws : nat -> Q) (cfg : Cpux.Config) (n : nat) :
  Forall trimmed (Cpux.cpiPatterns cfg) ->
  forall (t : nat) (prev cs : list Z) (st : Cpux.Loop),
    length prev = Cpux.size cfg ->
    length cs = Cpux.size cfg ->
    default (replicate (Cpux.size cfg) 0) (Cpux.consecOnes st) = cs ->
    Forall (fun u => (Cpux.passIndex u < t)%nat) (Cpux.pulseLedger st) ->
    fst (Cpux.is_rows draws cfg
           (Cpux.makeDesignNodes (Cpux.cpiPatterns cfg) (Cpux.cfg_injectProb cfg)
              (Cpux.cfg_reflectionHold cfg)) n t prev st)
    = fst (Flat.is_rows draws (flat_of_cpux cfg) n prev cs (Cpux.cursor st)).
Proof.
  intros Hpats. induction n as [|n IH]; intros t prev cs st Hprev Hcs Hdef Hold;
    [reflexivity|].
  cbn [Cpux.is_rows Flat.is_rows].
  rewrite (cpux_pass_is_flat_step draws cfg t prev cs st Hpats Hprev Hcs Hdef Hold).
  set (dn := Cpux.makeDesignNodes _ _ _).
  set (a := Flat.phaseA draws (flat_of_cpux cfg) prev cs (Cpux.cursor st)).
  set (next := Flat.phaseB (flat_of_cpux cfg) prev (Flat.proposal a) (Flat.reflection a)).
  set (st1 := {| Cpux.pulseLedger := Cpux.pulseLedger st ++ pass_pulses draws dn t prev st;
                 Cpux.consecOnes := Some (Flat.consecOnes a);
                 Cpux.cursor := Flat.cursor a |}).
  assert (Hrec : fst (Cpux.is_rows draws cfg dn n (S t) next st1)
                 = fst (Flat.is_rows draws (flat_of_cpux cfg) n next
                          (Flat.consecOnes a) (Flat.cursor a))).
  { apply (IH (S t) next (Flat.consecOnes a) st1).
    - apply (flat_phaseB_bit_row (flat_of_cpux cfg)).
    - destruct (flat_phaseA_counts_then_reflects draws (flat_of_cpux cfg) prev cs
                  (Cpux.cursor st) Hcs) as [Hc _].
      cbv zeta in Hc. fold a in Hc. rewrite Hc. unfold next_counters.
      rewrite length_fmap, length_seq. reflexivity.
    - reflexivity.
    - cbn [st1 Cpux.pulseLedger]. apply Forall_app. split.
      + eapply Forall_impl; [exact Hold|]. intros u Hu. simpl in Hu. lia.
      + destruct (pass_pulses_facts draws dn t prev st) as [Hfacts _].
        eapply Forall_impl; [exact Hfacts|]. intros u (Hu & _). lia. }
  destruct (Cpux.is_rows draws cfg dn n (S t) next st1) as [rows st2].
  destruct (Flat.is_rows draws (flat_of_cpux cfg) n next (Flat.consecOnes a)
              (Flat.cursor a)) as [rows' tr].
  cbn [fst] in *. rewrite Hrec. reflexivity.
Qed.

(** X12. On patterns of ASCII characters written without surrounding white
    space, none empty, and a seed row of [size] cells, the ledger-based [runCPUX_ISVariant] returns the grid
    of the flat [runISVariant]: with its pulses kept in a ledger tagged by
    pass, it sets the same cells as the two override arrays of the flat
    script, from the same draws. The two full runs agree for the modes
    ["random"] and, on a positive width, ["single"]. *)
Theorem cpux_is_run_is_flat_is_run (draws : nat -> Q) (cfg : Cpux.Config)
    (row0 : list Z) (pos : nat) :
  Forall plain (Cpux.cpiPatterns cfg) ->
  length row0 = Cpux.size cfg ->
  fst (Cpux.runCPUX_ISVariant_from draws cfg row0 pos)
  = Flat.grid (Flat.runISVariant_from draws (flat_of_cpux cfg) row0 pos)
  /\ (Cpux.initMode cfg = "random"
      \/ (Cpux.initMode cfg = "single" /\ (0 < Cpux.size cfg)%nat) ->
      fst (Cpux.runCPUX_ISVariant draws cfg pos)
      = Flat.grid (Flat.runISVariant draws (flat_of_cpux cfg) pos)).
Proof.
  intros Hplain Hlen.
  assert (Hpats : Forall trimmed (Cpux.cpiPatterns cfg))
    by (apply (Forall_impl _ _ _ Hplain); intros s Hs; exact (proj2 Hs)).
  assert (Hfrom : forall r q, length r = Cpux.size cfg ->
            fst (Cpux.runCPUX_ISVariant_from draws cfg r q)
            = Flat.grid (Flat.runISVariant_from draws (flat_of_cpux cfg) r q)).
  { intros r q Hr. unfold Cpux.runCPUX_ISVariant_from, Flat.runISVariant_from.
    pose proof (cpux_is_rows_flat draws cfg (Cpux.steps cfg - 1) Hpats 1 r
                  (replicate (Cpux.size cfg) 0)
                  {| Cpux.pulseLedger := []; Cpux.consecOnes := None;
                     Cpux.cursor := q |} Hr (length_replicate _ _) eq_refl
                  (Forall_nil_2 _)) as Hrows.
    cbn [Cpux.cursor flat_of_cpux Flat.steps Flat.size] in *.
    destruct (Cpux.is_rows draws cfg _ (Cpux.steps cfg - 1) 1 r _) as [rows st].
    destruct (Flat.is_rows draws (flat_of_cpux cfg) (Cpux.steps cfg - 1) r
                (replicate (Cpux.size cfg) 0) q) as [rows' tr].
    cbn [fst Flat.grid] in *. rewrite Hrows. reflexivity. }
  split; [apply Hfrom, Hlen|].
  intros Hmode. unfold Cpux.runCPUX_ISVariant, Flat.runISVariant.
  cbn [flat_of_cpux Flat.size Flat.init].
  assert (Hinit : Cpux.initRow draws (Cpux.size cfg) (Cpux.initMode cfg) pos
                  = Flat.initRow draws (Cpux.size cfg) (Cpux.initMode cfg) pos
                  /\ length (fst (Flat.initRow draws (Cpux.size cfg)
                                    (Cpux.initMode cfg) pos)) = Cpux.size cfg).
  { unfold Cpux.initRow, Flat.initRow.
    destruct Hmode as [-> | [-> Hpos]].
    - cbn [String.eqb Ascii.eqb Bool.eqb]. split; [reflexivity|].
      rewrite random_row_loop. cbn [fst].
      rewrite length_fmap, length_seq. reflexivity.
    - cbn [String.eqb Ascii.eqb Bool.eqb]. split; [reflexivity|].
      apply initRow_single_length, Hpos. }
  destruct Hinit as [-> Hl].
  destruct (Flat.initRow draws (Cpux.size cfg) (Cpux.initMode cfg) pos) as [r q].
  apply (Hfrom r q Hl).
Qed.

Lemma cpux_is_run_is_flat_is_run_witness :
  let cfg := {| Cpux.ruleNumber := 30; Cpux.size := 5; Cpux.steps := 4;
                Cpux.initMode := "single"; Cpux.cpiPatterns := ["101"];
                Cpux.cfg_injectProb := 3 # 4; Cpux.cfg_reflectionHold := 2 |} in
  fst (Cpux.runCPUX_ISVariant half_draws cfg 0)
  = Flat.grid (Flat.runISVariant half_draws (flat_of_cpux cfg) 0).
Proof.
  intros cfg.
  refine (proj2 (cpux_is_run_is_flat_is_run half_draws cfg [0; 0; 1; 0; 0] 0%nat _ _) _).
  - repeat constructor; discriminate.
  - reflexivity.
  - right. split; [reflexivity | simpl; lia].
Defined.
(** ** The PGM writers *)

Lemma append_nil_r (s : string) : s +:+ EmptyString = s.
Proof.
  induction s as [|a s IH]; [reflexivity|].
  change (String a (s +:+ EmptyString) = String a s). f_equal. exact IH.
Qed.

Lemma append_assoc (s1 s2 s3 : string) : (s1 +:+ s2) +:+ s3 = s1 +:+ (s2 +:+ s3).
Proof.
  induction s1 as [|a s1 IH]; [reflexivity|].
  change (String a ((s1 +:+ s2) +:+ s3) = String a (s1 +:+ (s2 +:+ s3))).
  f_equal. exact IH.
Qed.

Lemma concat_str_cons (x : string) (l : list string) :
  concat_str (x :: l) = x +:+ concat_str l.
Proof. reflexivity. Qed.

Lemma foldl_append_concat {A : Type} (f : A -> string) (l : list A) (out : string) :
  foldl (fun out x => out +:+ f x) out l = out +:+ concat_str (f <$> l).
Proof.
  revert out. induction l as [|x l IH]; intros out.
  - change (out = out +:+ EmptyString). rewrite append_nil_r. reflexivity.
  - cbn [foldl]. rewrite IH, fmap_cons, concat_str_cons, append_assoc. reflexivity.
Qed.

Lemma foldl_push {A B : Type} (f : A -> B) (l : list A) (acc : list B) :
  foldl (fun acc x => acc ++ [f x]) acc l = acc ++ (f <$> l).
Proof.
  revert acc. induction l as [|x l IH]; intros acc.
  - simpl. rewrite app_nil_r. reflexivity.
  - cbn [foldl]. rewrite IH, fmap_cons, <- app_assoc. reflexivity.
Qed.

Lemma join_cons (sep x : string) (l : list string) :
  join sep (x :: l) = x +:+ concat_str ((fun y => sep +:+ y) <$> l).
Proof.
  revert x. induction l as [|y l IH]; intros x.
  - change (x = x +:+ EmptyString). rewrite append_nil_r. reflexivity.
  - change (join sep (x :: y :: l)) with (x +:+ sep +:+ join sep (y :: l)).
    rewrite IH, fmap_cons, concat_str_cons, append_assoc. reflexivity.
Qed.

Lemma concat_sep_shift {A : Type} (f : A -> string) (sep : string) (l : list A) :
  concat_str ((fun x => sep +:+ f x) <$> l) +:+ sep
  = sep +:+ concat_str ((fun x => f x +:+ sep) <$> l).
Proof.
  induction l as [|y l IH].
  - change (EmptyString +:+ sep = sep +:+ EmptyString).
    rewrite append_nil_r. reflexivity.
  - rewrite !fmap_cons, !concat_str_cons.
    rewrite (append_assoc (sep +:+ f y)), IH, !append_assoc. reflexivity.
Qed.

Lemma flat_toPGM_text (row0 : list Z) (rest : list (list Z)) :
  Flat.toPGM (row0 :: rest)
  = Some (pgm_header (length row0) (S (length rest)) +:+ nl
          +:+ concat_str ((fun row => pgm_row row +:+ nl) <$> (row0 :: rest))).
Proof.
  unfold Flat.toPGM. rewrite (foldl_append_concat (fun row => pgm_row row +:+ nl)).
  unfold pgm_header. rewrite !append_assoc. reflexivity.
Qed.

Lemma cpux_gridToPGM_text (row0 : list Z) (rest : list (list Z)) :
  Cpux.gridToPGM (row0 :: rest)
  = Some (pgm_header (length row0) (S (length rest))
          +:+ concat_str ((fun row => nl +:+ pgm_row row) <$> (row0 :: rest))).
Proof.
  unfold Cpux.gridToPGM. rewrite (foldl_push pgm_row). f_equal.
  change (["P2"; pgm_dims (length row0) (length (row0 :: rest)); "255"]
          ++ (pgm_row <$> row0 :: rest))
    with ("P2" :: pgm_dims (length row0) (S (length rest)) :: "255"
          :: (pgm_row <$> row0 :: rest)).
  change (join nl ("P2" :: pgm_dims (length row0) (S (length rest)) :: "255"
                   :: (pgm_row <$> row0 :: rest)))
    with ("P2" +:+ nl +:+ pgm_dims (length row0) (S (length rest)) +:+ nl
          +:+ join nl ("255" :: (pgm_row <$> row0 :: rest))).
  rewrite join_cons, <- list_fmap_compose.
  unfold pgm_header. rewrite !append_assoc. reflexivity.
Qed.

Lemma classy_writePGM_text (row0 : list Z) (rest : list (list Z)) :
  Classy.writePGM (row0 :: rest)
  = Some (pgm_header (length row0) (S (length rest)) +:+ nl
          +:+ concat_str ((fun row => pgm_row row +:+ nl) <$> (row0 :: rest))).
Proof.
  unfold Classy.writePGM. cbv zeta.
  rewrite (foldl_append_concat (fun row => pgm_row row +:+ nl)).
  unfold pgm_header.
  change (EmptyString +:+ ("P2" +:+ nl)) with ("P2" +:+ nl).
  rewrite !append_assoc. reflexivity.
Qed.

(** X13. The three PGM writers fail on the same input, the grid without
    row (where [grid[0].length] throws), and on any other grid write the same
    image: the header with the width of row 0 and the number of rows, then
    one line per row. [toPGM] and [writePGM] return the same text;
    [gridToPGM] returns that text without its final line feed. No grid that
    a run of the flat script returns makes them fail. *)
Theorem pgm_writers_agree (draws : nat -> Q) (grid : list (list Z))
    (p : Flat.Preset) (row0 : list Z) (pos : nat) :
  Classy.writePGM grid = Flat.toPGM grid
  /\ Flat.toPGM grid = (fun text => text +:+ nl) <$> Cpux.gridToPGM grid
  /\ (Flat.toPGM grid = None <-> grid = [])
  /\ (forall row rest,
        grid = row :: rest ->
        Flat.toPGM grid
        = Some (pgm_header (length row) (length grid) +:+ nl
                +:+ concat_str ((fun r => pgm_row r +:+ nl) <$> grid)))
  /\ is_Some (Flat.toPGM (Flat.runCA_from p row0))
  /\ is_Some (Flat.toPGM (Flat.grid (Flat.runISVariant_from draws p row0 pos))).
Proof.
  split; [|split; [|split; [|split; [|split]]]].
  - destruct grid as [|r rest]; [reflexivity|].
    rewrite flat_toPGM_text, classy_writePGM_text. reflexivity.
  - destruct grid as [|r rest]; [reflexivity|].
    rewrite flat_toPGM_text, cpux_gridToPGM_text.
    cbn [fmap option_fmap option_map]. f_equal.
    rewrite (append_assoc (pgm_header _ _)), (concat_sep_shift pgm_row).
    reflexivity.
  - destruct grid as [|r rest].
    + split; reflexivity.
    + rewrite flat_toPGM_text. split; intros H; discriminate H.
  - intros row rest ->. apply flat_toPGM_text.
  - unfold Flat.runCA_from. rewrite flat_toPGM_text. eauto.
  - unfold Flat.runISVariant_from.
    destruct (Flat.is_rows draws p (Flat.steps p - 1) row0
                (replicate (Flat.size p) 0) pos) as [rows tr].
    cbn [Flat.grid]. rewrite flat_toPGM_text. eauto.
Qed.

Lemma pgm_writers_agree_witness :
  Flat.toPGM [[0; 1]; [1; 1]]
  = (fun text => text +:+ nl) <$> Cpux.gridToPGM [[0; 1]; [1; 1]].
Proof.
  exact (proj1 (proj2 (pgm_writers_agree half_draws [[0; 1]; [1; 1]]
                         (flat_preset 0 2 2) [0; 1] 0%nat))).
Defined.
(** ** The class-based Intention-Space run against the flat run *)

Lemma filter_append_loop {A : Type} (b : nat -> bool) (g : nat -> A) (n : nat)
    (acc : list A) :
  for_range n (fun acc i => if b i then acc ++ [g i] else acc) acc
  = acc ++ (g <$> filter (fun i => b i = true) (seq 0 n)).
Proof.
  induction n as [|n IH].
  - simpl. rewrite app_nil_r. reflexivity.
  - rewrite for_range_S, IH, seq_S, filter_app, fmap_app, app_assoc.
    destruct (b n) eqn:Hb.
    + rewrite filter_cons_True by exact Hb. reflexivity.
    + rewrite filter_cons_False by (intros H; simpl in H; congruence).
      rewrite filter_nil. simpl. rewrite app_nil_r. reflexivity.
Qed.

Lemma DN_cpi_pulses_fill (pats : gset string) (f : Classy.Field) :
  Classy.DN_cpi_pulses pats f = set_pulse <$> matching pats f.
Proof.
  unfold Classy.DN_cpi_pulses, matching.
  rewrite (filter_append_loop
             (fun i => bool_decide
                         (nb_string (Classy.readCell f (left_of i (Classy.size f)))
                            (Classy.readCell f i)
                            (Classy.readCell f (right_of i (Classy.size f))) ∈ pats))
             set_pulse).
  reflexivity.
Qed.

Lemma DN_inject_pulses_fill (draws : nat -> Q) (prob : Q) (f : Classy.Field)
    (pos : nat) :
  Classy.DN_inject_pulses draws prob f pos
  = (set_pulse <$> injected draws prob (Classy.size f) pos,
     (pos + Classy.size f)%nat).
Proof.
  unfold Classy.DN_inject_pulses, injected.
  generalize (Classy.size f). intros n. induction n as [|n IH].
  - simpl. rewrite Nat.add_0_r. reflexivity.
  - rewrite for_range_S, IH, seq_S, filter_app, fmap_app.
    destruct (Qltb (draws (pos + n)%nat) prob) eqn:Hb.
    + rewrite filter_cons_True by exact Hb. f_equal. lia.
    + rewrite filter_cons_False by (intros H; simpl in H; congruence).
      rewrite filter_nil. simpl. rewrite app_nil_r. f_equal. lia.
Qed.

Lemma proposals_app (o : Classy.ObjectField) (its1 its2 : list Classy.Intention) :
  proposals o (its1 ++ its2) = proposals o its1 ++ proposals o its2.
Proof. unfold proposals. apply bind_app. Qed.

Lemma proposals_intention_of (o : Classy.ObjectField) (dnId kind : string)
    (ps : list Classy.Pulse) :
  proposals o (Classy.intention_of dnId (Classy.objectId o) kind ps)
  = (fun p => (kind, p)) <$> ps.
Proof.
  unfold Classy.intention_of. destruct ps as [|p ps]; [reflexivity|].
  rewrite bool_decide_false by discriminate.
  unfold proposals. rewrite bind_cons. cbn [mbind list_bind].
  rewrite app_nil_r. cbn [Classy.toObject Classy.kind Classy.pulses].
  rewrite decide_True by reflexivity. reflexivity.
Qed.

(** Among pulses made one per listed cell, the last one for a cell. *)
Lemma last_with_id_cells (v : nat -> Z) (L : list nat) (i : nat) :
  last_with_id (Classy.cell_id i)
    ((fun j => {| Classy.id := Classy.cell_id j; Classy.value := v j |}) <$> L)
  = if decide (i ∈ L)
    then Some {| Classy.id := Classy.cell_id i; Classy.value := v i |}
    else None.
Proof.
  unfold last_with_id. induction L as [|x L IH] using rev_ind.
  - rewrite decide_False by (apply not_elem_of_nil). reflexivity.
  - rewrite fmap_app, filter_app. cbn [fmap list_fmap].
    destruct (decide (x = i)) as [->|Hne].
    + rewrite filter_cons_True by reflexivity. rewrite filter_nil, last_snoc.
      rewrite decide_True by (apply elem_of_app; right; left). reflexivity.
    + rewrite filter_cons_False
        by (cbn [Classy.id]; intros H; apply Hne, cell_id_inj, H).
      rewrite filter_nil, app_nil_r, IH.
      destruct (decide (i ∈ L)) as [Hin|Hin].
      * rewrite decide_True by (apply elem_of_app; left; exact Hin). reflexivity.
      * rewrite decide_False; [reflexivity|].
        rewrite elem_of_app, list_elem_of_singleton. intros [?|?]; congruence.
Qed.

Lemma last_with_id_set_pulse (L : list nat) (i : nat) :
  last_with_id (Classy.cell_id i) (set_pulse <$> L)
  = if decide (i ∈ L) then Some (set_pulse i) else None.
Proof. exact (last_with_id_cells (fun _ => 1) L i). Qed.

Lemma last_with_id_baseline (rule : Z) (f : Classy.Field) (L : list nat) (i : nat) :
  last_with_id (Classy.cell_id i) (baseline_pulse rule f <$> L)
  = if decide (i ∈ L) then Some (baseline_pulse rule f i) else None.
Proof.
  exact (last_with_id_cells
           (fun j => ruleFn rule (Classy.readCell f (left_of j (Classy.size f)))
                       (Classy.readCell f j)
                       (Classy.readCell f (right_of j (Classy.size f)))) L i).
Qed.

Lemma classy_reflection_set_pulse (n : nat) (R : list nat) :
  classy_reflection n <$> R = set_pulse <$> ((fun i => reflect_target i n) <$> R).
Proof. rewrite <- list_fmap_compose. reflexivity. Qed.

Lemma proposals_singleton (o : Classy.ObjectField) (it : Classy.Intention) :
  Classy.toObject it = Classy.objectId o ->
  proposals o [it] = (fun p => (Classy.kind it, p)) <$> Classy.pulses it.
Proof.
  intros H. unfold proposals. rewrite bind_cons. cbn [mbind list_bind].
  rewrite app_nil_r, decide_True by exact H. reflexivity.
Qed.

Lemma route_all (its emitted : list Classy.Intention) :
  foldl (fun e it => e ++ [Classy.routeIntention it]) emitted its = emitted ++ its.
Proof.
  rewrite (foldl_push Classy.routeIntention). unfold Classy.routeIntention.
  rewrite list_fmap_id. reflexivity.
Qed.

(** What the four nodes emit in one pass, what they become, and where the
    generator stands afterwards. *)
Lemma classy_visit_is_nodes (draws : nat -> Q) (pats : list string) (prob : Q)
    (hold : Z) (cs : list Z) (rule : Z) (t : nat) (f : Classy.Field) (pos : nat) :
  hold < 1000000000 ->
  length cs = Classy.size f ->
  Classy.visit draws (is_nodes pats prob hold cs rule) t f [] pos
  = (Classy.intention_of "DN_cpi" "O_field" "proposal"
       (set_pulse <$> matching (list_to_set pats) f)
     ++ Classy.intention_of "DN_inject" "O_field" "proposal"
          (set_pulse <$> (if Qle_bool prob 0 then []
                          else injected draws prob (Classy.size f) pos))
     ++ Classy.intention_of "DN_reflect" "O_field" "reflection"
          (set_pulse <$> ((fun i => reflect_target i (Classy.size f))
                            <$> reflecting hold (Classy.readCell f) cs (Classy.size f)))
     ++ [{| Classy.fromDN := "DN_rule33"; Classy.toObject := "O_field";
            Classy.kind := "baseline";
            Classy.pulses := baseline_pulse rule f <$> seq 0 (Classy.size f) |}],
     is_nodes pats prob hold (next_counters (Classy.readCell f) cs (Classy.size f)) rule,
     if Qle_bool prob 0 then pos else (pos + Classy.size f)%nat).
Proof.
  intros Hhold Hcs. unfold is_nodes, Classy.new_DN_cpi.
  cbn [Classy.visit Classy.emitIntentions].
  rewrite DN_cpi_pulses_fill, route_all, app_nil_l.
  assert (Hguard : (1000000000 <=? hold) = false) by (apply Z.leb_gt; exact Hhold).
  rewrite Hguard, (classy_DN_reflect_loop hold f cs Hcs), DN_rule_pulses_fill.
  rewrite classy_reflection_set_pulse.
  destruct (Qle_bool prob 0) eqn:Hprob.
  - rewrite !route_all. cbn [fmap list_fmap]. 
    change (Classy.intention_of "DN_inject" "O_field" "proposal" []) with (@nil Classy.Intention).
    rewrite app_nil_l, app_nil_r. rewrite <- !app_assoc. reflexivity.
  - rewrite DN_inject_pulses_fill, !route_all. rewrite <- !app_assoc. reflexivity.
Qed.

Lemma demo_top_proposal (PA PB PC PD : list Classy.Pulse) (pid : string) :
  top_proposal (Classy.precedence demo_object)
    (((fun p => ("proposal", p)) <$> PA) ++ ((fun p => ("proposal", p)) <$> PB)
     ++ ((fun p => ("reflection", p)) <$> PC) ++ ((fun p => ("baseline", p)) <$> PD))
    pid
  = match last_with_id pid (PA ++ PB) with
    | Some p => Some p
    | None =>
        match last_with_id pid PC with
        | Some p => Some p
        | None => last_with_id pid PD
        end
    end.
Proof.
  cbn [demo_object Classy.precedence top_proposal].
  rewrite !pulses_of_kind_app, !pulses_of_kind_tagged.
  repeat first [ rewrite decide_True by reflexivity
               | rewrite decide_False by discriminate ].
  rewrite !app_nil_r, !app_nil_l.
  destruct (last_with_id pid (PA ++ PB)); [reflexivity|].
  destruct (last_with_id pid PC); [reflexivity|].
  destruct (last_with_id pid PD); reflexivity.
Qed.

Lemma next_counters_ext (row row' : nat -> Z) (cs : list Z) (n : nat) :
  (forall i, (i < n)%nat -> row i = row' i) ->
  next_counters row cs n = next_counters row' cs n.
Proof.
  intros H. unfold next_counters. apply Forall_fmap_ext, Forall_forall.
  intros i Hi. apply elem_of_seq in Hi. rewrite H by lia. reflexivity.
Qed.

Lemma reflecting_ext (hold : Z) (row row' : nat -> Z) (cs : list Z) (n : nat) :
  (forall i, (i < n)%nat -> row i = row' i) ->
  reflecting hold row cs n = reflecting hold row' cs n.
Proof.
  induction n as [|n IH]; intros H; [reflexivity|].
  rewrite !reflecting_S, IH by (intros i Hi; apply H; lia).
  rewrite (H n) by lia. reflexivity.
Qed.

Lemma cpiPropose_truthy (l c r : Z) (pats : list string) :
  truthy (Flat.cpiPropose l c r pats) = true <-> nb_string l c r ∈ pats.
Proof.
  unfold Flat.cpiPropose. destruct pats as [|x pats].
  - simpl. split; [discriminate|]. intros H. apply elem_of_nil in H. destruct H.
  - rewrite bool_decide_false by discriminate. cbv zeta.
    destruct (bool_decide (nb_string l c r ∈ x :: pats)) eqn:Hb.
    + apply bool_decide_eq_true in Hb. split; [intros _; exact Hb | reflexivity].
    + apply bool_decide_eq_false in Hb. split; [discriminate | intros H; contradiction].
Qed.

Lemma classy_absorb_size (o : Classy.ObjectField) (f : Classy.Field)
    (its : list Classy.Intention) :
  Classy.size (Classy.absorbIntentionsAndAdvance o f its) = Classy.size f.
Proof. reflexivity. Qed.

Lemma classy_pass_is_flat_step (draws : nat -> Q) (p : Flat.Preset) (t : nat)
    (f : Classy.Field) (cs : list Z) (posC posF : nat) :
  unit_draws draws ->
  Flat.reflectionHold p < 1000000000 ->
  Classy.size f = Flat.size p ->
  length cs = Flat.size p ->
  posC = posF \/ (Flat.injectProb p <= 0)%Q ->
  let a := Flat.phaseA draws p (Classy.snapshotRow f) cs posF in
  exists f' posC',
    Classy.pass draws
      (is_nodes (Flat.cpiPatterns p) (Flat.injectProb p) (Flat.reflectionHold p) cs
         (Flat.rule p)) demo_object t f posC
    = (f', is_nodes (Flat.cpiPatterns p) (Flat.injectProb p) (Flat.reflectionHold p)
             (Flat.consecOnes a) (Flat.rule p), posC')
    /\ Classy.size f' = Flat.size p
    /\ Classy.snapshotRow f'
       = Flat.phaseB p (Classy.snapshotRow f) (Flat.proposal a) (Flat.reflection a)
    /\ (posC' = Flat.cursor a \/ (Flat.injectProb p <= 0)%Q).
Proof.
  intros Hunit Hhold Hsize Hcs Hpos a.
  assert (Hread : forall i, (i < Flat.size p)%nat ->
                    Classy.readCell f i = arr_get (Classy.snapshotRow f) i)
    by (intros i Hi; symmetry; apply readCell_snapshot; lia).
  destruct (flat_phaseA_counts_then_reflects draws p (Classy.snapshotRow f) cs posF Hcs)
    as [Hcount Hrefl].
  cbv zeta in Hcount, Hrefl. fold a in Hcount, Hrefl.
  unfold Classy.pass.
  rewrite classy_visit_is_nodes by (try exact Hhold; rewrite Hsize; exact Hcs).
  rewrite Hsize.
  rewrite (next_counters_ext _ _ cs _ Hread), <- Hcount.
  rewrite (reflecting_ext _ _ _ cs _ Hread).
  eexists _, _. split; [reflexivity|]. split; [exact Hsize|]. split.
  - rewrite snapshotRow_fill, flat_phaseB_fill, classy_absorb_size, Hsize.
    apply Forall_fmap_ext, Forall_forall. intros i Hi. apply elem_of_seq in Hi.
    assert (Hi' : (i < Flat.size p)%nat) by lia. clear Hi.
    rewrite readCell_absorb by (rewrite Hsize; exact Hi').
    rewrite !proposals_app.
    rewrite !(proposals_intention_of demo_object).
    rewrite proposals_singleton by reflexivity.
    cbn [Classy.kind Classy.pulses].
    rewrite demo_top_proposal, <- fmap_app.
    rewrite !last_with_id_set_pulse, last_with_id_baseline.
    rewrite (decide_True (P := i ∈ seq 0 (Flat.size p))) by (apply elem_of_seq; lia).
    unfold a at 1. rewrite flat_phaseA_proposal.
    rewrite arr_get_fmap_seq, truthy_bit_of_bool by exact Hi'.
    assert (HA : i ∈ matching (list_to_set (Flat.cpiPatterns p)) f
                     ++ (if Qle_bool (Flat.injectProb p) 0 then []
                         else injected draws (Flat.injectProb p) (Flat.size p) posC)
                 <-> flat_proposes draws p (Classy.snapshotRow f) posF i = true).
    { unfold flat_proposes.
      rewrite elem_of_app, orb_true_iff, cpiPropose_truthy.
      unfold matching. rewrite list_elem_of_filter, bool_decide_eq_true.
      rewrite elem_of_list_to_set, elem_of_seq, Hsize.
      rewrite !Hread by (try apply left_of_lt; try apply right_of_lt; exact Hi').
      assert (HB : i ∈ (if Qle_bool (Flat.injectProb p) 0 then []
                        else injected draws (Flat.injectProb p) (Flat.size p) posC)
                   <-> Qltb (draws (posF + i)%nat) (Flat.injectProb p) = true).
      { destruct (Qle_bool (Flat.injectProb p) 0) eqn:Hprob.
        - apply Qle_bool_iff in Hprob.
          rewrite (no_draw_under_zero _ _ (proj1 (Hunit _)) Hprob).
          split; [intros H; apply elem_of_nil in H; destruct H | discriminate].
        - destruct Hpos as [-> | Hle];
            [|apply Qle_bool_iff in Hle; congruence].
          unfold injected. rewrite list_elem_of_filter, elem_of_seq.
          split; [intros [H _]; exact H | intros H; split; [exact H | lia]]. }
      rewrite HB. split.
      - intros [[H _]|H]; [left; exact H | right; exact H].
      - intros [H|H]; [left; split; [exact H | lia] | right; exact H]. }
    assert (HR : i ∈ (fun i0 => reflect_target i0 (Flat.size p))
                       <$> reflecting (Flat.reflectionHold p)
                             (arr_get (Classy.snapshotRow f)) cs (Flat.size p)
                 <-> truthy (arr_get (Flat.reflection a) i) = true).
    { rewrite Hrefl.
      destruct (marks_get (fun i0 => reflect_target i0 (Flat.size p))
                  (reflecting (Flat.reflectionHold p)
                     (arr_get (Classy.snapshotRow f)) cs (Flat.size p))
                  (Flat.size p) i) as [Hone Hbit].
      cbv zeta in Hone, Hbit. rewrite <- (bit_is_one _ Hbit), Hone.
      rewrite list_elem_of_fmap. split.
      - intros (y & -> & Hy). exists y. split; [exact Hy | reflexivity].
      - intros (y & Hy & <-). exists y. split; [reflexivity | exact Hy]. }
    destruct (flat_proposes draws p (Classy.snapshotRow f) posF i) eqn:Hfp.
    + rewrite decide_True by (apply HA; reflexivity). reflexivity.
    + rewrite decide_False by (intros H; apply HA in H; discriminate H).
      destruct (truthy (arr_get (Flat.reflection a) i)) eqn:Htr.
      * rewrite decide_True by (apply HR; reflexivity). reflexivity.
      * rewrite decide_False by (intros H; apply HR in H; discriminate H).
        cbn [orb baseline_pulse Classy.value]. rewrite Hsize.
        rewrite !Hread by (try apply left_of_lt; try apply right_of_lt; exact Hi').
        reflexivity.
  - destruct (Qle_bool (Flat.injectProb p) 0) eqn:Hprob.
    + right. apply Qle_bool_iff. exact Hprob.
    + destruct Hpos as [-> | Hle]; [|right; exact Hle].
      left. unfold a. rewrite flat_phaseA_draws_every_cell. reflexivity.
Qed.

Lemma classy_is_rows_flat (draws : nat -> Q) (p : Flat.Preset) (n : nat) :
  unit_draws draws ->
  Flat.reflectionHold p < 1000000000 ->
  forall (t : nat) (f : Classy.Field) (cs : list Z) (posC posF : nat),
    Classy.size f = Flat.size p ->
    length cs = Flat.size p ->
    posC = posF \/ (Flat.injectProb p <= 0)%Q ->
    fst (fst (fst (Classy.run_passes draws
                     (is_nodes (Flat.cpiPatterns p) (Flat.injectProb p)
                        (Flat.reflectionHold p) cs (Flat.rule p))
                     demo_object n t f posC)))
    = fst (Flat.is_rows draws p n (Classy.snapshotRow f) cs posF).
Proof.
  intros Hunit Hhold. induction n as [|n IH]; intros t f cs posC posF Hsize Hcs Hpos.
  - reflexivity.
  - destruct (classy_pass_is_flat_step draws p t f cs posC posF Hunit Hhold Hsize Hcs Hpos)
      as (f' & posC' & Hpass & Hsize' & Hrow & Hpos').
    cbn [Classy.run_passes Flat.is_rows]. rewrite Hpass.
    set (a := Flat.phaseA draws p (Classy.snapshotRow f) cs posF) in *.
    assert (Hcs' : length (Flat.consecOnes a) = Flat.size p).
    { destruct (flat_phaseA_counts_then_reflects draws p (Classy.snapshotRow f) cs posF Hcs)
        as [Hcount _].
      cbv zeta in Hcount. fold a in Hcount. rewrite Hcount.
      unfold next_counters. rewrite length_fmap, length_seq. reflexivity. }
    specialize (IH (S t) f' (Flat.consecOnes a) posC' (Flat.cursor a) Hsize' Hcs' Hpos').
    rewrite <- Hrow.
    destruct (Classy.run_passes draws _ demo_object n (S t) f' posC')
      as [[[rows f''] dns''] pos''].
    destruct (Flat.is_rows draws p n (Classy.snapshotRow f') (Flat.consecOnes a)
                (Flat.cursor a)) as [rows' tr].
    cbn [fst] in IH |- *. rewrite IH. reflexivity.
Qed.

(** X14. The Intention-Space run of [demo_rule33_pair] -- the nodes [DN_cpi],
    [DN_inject], [DN_reflect], [DN_rule] visited in that order, resolved
    under the precedence proposal, reflection, baseline -- computes the rows
    of the flat [runISVariant] with the same patterns, probability, threshold
    and rule, when the threshold is under the 1e9 guard of [DN_reflect]:
    each pass turns the snapshot of the field into the row of phase B and
    the counters of [DN_reflect] into those of phase A, and the whole grid
    is the flat grid. The generator is read at the same places when the
    probability is positive; when it is not, [DN_inject] reads nothing and
    no draw of the flat loop is under the probability. *)
Theorem classy_is_run_is_flat_is_run (draws : nat -> Q) (p : Flat.Preset)
    (f : Classy.Field) (pos : nat) :
  unit_draws draws ->
  Flat.reflectionHold p < 1000000000 ->
  Classy.size f = Flat.size p ->
  (forall (t : nat) (cs : list Z),
      length cs = Flat.size p ->
      let a := Flat.phaseA draws p (Classy.snapshotRow f) cs pos in
      exists f' pos',
        Classy.pass draws
          (is_nodes (Flat.cpiPatterns p) (Flat.injectProb p) (Flat.reflectionHold p)
             cs (Flat.rule p)) demo_object t f pos
        = (f', is_nodes (Flat.cpiPatterns p) (Flat.injectProb p)
                 (Flat.reflectionHold p) (Flat.consecOnes a) (Flat.rule p), pos')
        /\ Classy.snapshotRow f'
           = Flat.phaseB p (Classy.snapshotRow f) (Flat.proposal a) (Flat.reflection a)
        /\ pos' = (if Qle_bool (Flat.injectProb p) 0 then pos else Flat.cursor a))
  /\ fst (fst (fst (Classy.run_grid draws
                      (is_nodes (Flat.cpiPatterns p) (Flat.injectProb p)
                         (Flat.reflectionHold p) (replicate (Classy.size f) 0)
                         (Flat.rule p))
                      demo_object (Flat.steps p) f pos)))
     = Flat.grid (Flat.runISVariant_from draws p (Classy.snapshotRow f) pos).
Proof.
  intros Hunit Hhold Hsize. split.
  - intros t cs Hcs a.
    destruct (classy_pass_is_flat_step draws p t f cs pos pos Hunit Hhold Hsize Hcs
                (or_introl eq_refl))
      as (f' & pos' & Hpass & _ & Hrow & _).
    exists f', pos'. split; [exact Hpass|]. split; [exact Hrow|].
    unfold Classy.pass in Hpass.
    rewrite classy_visit_is_nodes in Hpass by (try exact Hhold; rewrite Hsize; exact Hcs).
    injection Hpass as _ _ <-.
    destruct (Qle_bool (Flat.injectProb p) 0); [reflexivity|].
    unfold a. rewrite flat_phaseA_draws_every_cell, Hsize. reflexivity.
  - unfold Classy.run_grid, Flat.runISVariant_from.
    pose proof (classy_is_rows_flat draws p (Flat.steps p - 1) Hunit Hhold 1%nat f
                  (replicate (Classy.size f) 0) pos pos Hsize) as Hrows.
    rewrite Hsize in Hrows |- *.
    specialize (Hrows (length_replicate _ _) (or_introl eq_refl)).
    destruct (Classy.run_passes draws _ demo_object (Flat.steps p - 1) 1 f pos)
      as [[[rows f'] dns'] pos'].
    destruct (Flat.is_rows draws p (Flat.steps p - 1) (Classy.snapshotRow f)
                (replicate (Flat.size p) 0) pos) as [rows' tr].
    cbn [fst Flat.grid] in Hrows |- *. rewrite Hrows. reflexivity.
Qed.

Lemma classy_is_run_is_flat_is_run_witness :
  let p := {| Flat.rule := 30; Flat.init := "single"; Flat.steps := 4;
              Flat.size := 5; Flat.cpiPatterns := ["101"; "100"];
              Flat.injectProb := 1 # 4; Flat.reflectionHold := 2 |} in
  fst (fst (fst (Classy.run_grid half_draws
                   (is_nodes ["101"; "100"] (1 # 4) 2 (replicate 5 0) 30)
                   demo_object 4 (field_of_row [0; 0; 1; 0; 0]) 0)))
  = Flat.grid (Flat.runISVariant_from half_draws p [0; 0; 1; 0; 0] 0).
Proof.
  intros p.
  exact (proj2 (classy_is_run_is_flat_is_run half_draws p (field_of_row [0; 0; 1; 0; 0]) 0
                  half_draws_unit ltac:(simpl; lia) eq_refl)).
Defined.
(** ** The pairing of the reflection targets *)




